(** * MDSINE2 posterior engine: a shallow embedding and its properties

    The development follows [mdsine2/posterior.py] and
    [clv/plot_prediction_results.py].  Floating-point numbers are read as
    real numbers ([R]); Python exceptions are values of an error type
    threaded through a small result monad; objects that are mutated in place
    are modelled by explicit state passing. *)

From Stdlib Require Import Reals Lra Lia ZArith List String Ascii Bool.
From Stdlib Require Import DecimalString.
From stdpp Require Import base gmap strings.

Import ListNotations.
Local Open Scope R_scope.

(** ** Python exceptions and the result monad *)

Module Py.

Inductive exn : Type :=
| ZeroDivisionError
| ValueError
| TypeError
| NotImplementedError
| AttributeError
| IndexError
| KeyError
| FileNotFoundError
| FileExistsError
| IsADirectoryError
| LinAlgError (tag : nat)
| OtherError (msg : string).

Inductive result (A : Type) : Type :=
| Ok (a : A)
| Raise (e : exn).
Arguments Ok {A} a.
Arguments Raise {A} e.

Definition bind {A B : Type} (m : result A) (k : A -> result B) : result B :=
  match m with
  | Ok a => k a
  | Raise e => Raise e
  end.

Definition is_ok {A : Type} (m : result A) : bool :=
  match m with Ok _ => true | Raise _ => false end.

Declare Scope py_scope.
Delimit Scope py_scope with py.
Notation "'let*' x ':=' m 'in' k" := (bind m (fun x => k))
  (at level 10, x name, m at level 100, k at level 200) : py_scope.

(** [a / b] on Python floats: raises on a zero divisor. *)
Definition div (a b : R) : result R :=
  if Req_dec_T b 0 then Raise ZeroDivisionError else Ok (a / b).

(** [math.log]: raises [ValueError] outside the positive reals. *)
Definition log (a : R) : result R :=
  if Rlt_dec 0 a then Ok (ln a) else Raise ValueError.

Lemma div_ok (a b : R) : b <> 0 -> div a b = Ok (a / b).
Proof.
  intros Hb. unfold div. destruct (Req_dec_T b 0); [contradiction | reflexivity].
Qed.

Lemma log_ok (a : R) : 0 < a -> log a = Ok (ln a).
Proof.
  intros Ha. unfold log. destruct (Rlt_dec 0 a); [reflexivity | contradiction].
Qed.

End Py.

(** ** Negative-binomial log-likelihoods *)

Module Negbin.
Import Py.
Local Open Scope py_scope.

Section WithLgamma.

(** The values of the log-gamma function of the C library. *)
Variable lgamma : R -> R.

(** [math.lgamma]: raises [ValueError] at the poles, the integers [<= 0]. *)
Definition math_lgamma (x : R) : result R :=
  if Rle_dec x 0 then
    if Req_dec_T x (IZR (up x) - 1) then Raise ValueError else Ok (lgamma x)
  else Ok (lgamma x).

Definition negbin_loglikelihood (k : Z) (m dispersion : R) : result R :=
  let* r := div 1 dispersion in
  let* lg_kr := math_lgamma (IZR k + r) in
  let* lg_k1 := math_lgamma (IZR k + 1) in
  let* lg_r := math_lgamma r in
  let* log_r := log r in
  let* log_rm := log (r + m) in
  let* log_m := log m in
  let* log_rm' := log (r + m) in
  Ok (lg_kr - lg_k1 - lg_r
      + r * (log_r - log_rm) + IZR k * (log_m - log_rm')).

Definition negbin_loglikelihood_MH_condensed (k : Z) (m dispersion : R) : result R :=
  let* r := div 1 dispersion in
  let rm := r + m in
  let* lg_kr := math_lgamma (IZR k + r) in
  let* lg_r := math_lgamma r in
  let* log_r := log r in
  let* log_rm := log rm in
  let* log_m := log m in
  let* log_rm' := log rm in
  Ok (lg_kr - lg_r
      + r * (log_r - log_rm) + IZR k * (log_m - log_rm')).

Lemma math_lgamma_pos (x : R) : 0 < x -> math_lgamma x = Ok (lgamma x).
Proof.
  intros Hx. unfold math_lgamma.
  destruct (Rle_dec x 0) as [Hle | _]; [lra | reflexivity].
Qed.

(** Closed form of the full likelihood on the valid domain. *)
Lemma negbin_loglikelihood_valid (k : Z) (m dispersion : R) :
  (0 <= k)%Z -> 0 < m -> 0 < dispersion ->
  negbin_loglikelihood k m dispersion =
  Ok (lgamma (IZR k + 1 / dispersion) - lgamma (IZR k + 1) - lgamma (1 / dispersion)
      + 1 / dispersion * (ln (1 / dispersion) - ln (1 / dispersion + m))
      + IZR k * (ln m - ln (1 / dispersion + m))).
Proof.
  intros Hk Hm Hd.
  assert (Hr : 0 < 1 / dispersion) by (apply Rdiv_lt_0_compat; lra).
  assert (Hk' : 0 <= IZR k) by (apply IZR_le in Hk; exact Hk).
  unfold negbin_loglikelihood.
  rewrite div_ok by lra. cbn [bind].
  rewrite !math_lgamma_pos by lra. cbn [bind].
  rewrite !log_ok by lra. reflexivity.
Qed.

Lemma negbin_loglikelihood_MH_condensed_valid (k : Z) (m dispersion : R) :
  (0 <= k)%Z -> 0 < m -> 0 < dispersion ->
  negbin_loglikelihood_MH_condensed k m dispersion =
  Ok (lgamma (IZR k + 1 / dispersion) - lgamma (1 / dispersion)
      + 1 / dispersion * (ln (1 / dispersion) - ln (1 / dispersion + m))
      + IZR k * (ln m - ln (1 / dispersion + m))).
Proof.
  intros Hk Hm Hd.
  assert (Hr : 0 < 1 / dispersion) by (apply Rdiv_lt_0_compat; lra).
  assert (Hk' : 0 <= IZR k) by (apply IZR_le in Hk; exact Hk).
  unfold negbin_loglikelihood_MH_condensed.
  rewrite div_ok by lra. cbn [bind].
  rewrite !math_lgamma_pos by lra. cbn [bind].
  rewrite !log_ok by lra. reflexivity.
Qed.

(** C4. On the valid domain [k >= 0], [m > 0], [dispersion > 0] both
    likelihood routines return, and the full value minus the condensed value
    is [- lgamma (k + 1)], which mentions neither [m] nor [dispersion]. *)
Theorem negbin_condensed_differs_by_lgamma (k : Z) (m dispersion : R) :
  (0 <= k)%Z -> 0 < m -> 0 < dispersion ->
  exists full condensed : R,
    negbin_loglikelihood k m dispersion = Ok full /\
    negbin_loglikelihood_MH_condensed k m dispersion = Ok condensed /\
    full - condensed = - lgamma (IZR k + 1).
Proof.
  intros Hk Hm Hd.
  rewrite negbin_loglikelihood_valid, negbin_loglikelihood_MH_condensed_valid
    by assumption.
  eexists. eexists. split; [reflexivity |]. split; [reflexivity |]. ring.
Qed.

End WithLgamma.

(** The identity at [k = 0], [m = 1], [dispersion = 1]; log-gamma is only
    evaluated at [1] there, where it vanishes. *)
Lemma negbin_condensed_differs_by_lgamma_witness :
  exists full condensed : R,
    negbin_loglikelihood (fun _ => 0) 0 1 1 = Ok full /\
    negbin_loglikelihood_MH_condensed (fun _ => 0) 0 1 1 = Ok condensed /\
    full - condensed = - 0.
Proof.
  apply (negbin_condensed_differs_by_lgamma (fun _ => 0) 0 1 1); [lia | lra | lra].
Defined.

End Negbin.

(** ** Expected number of clusters *)

Module Clusters.

(** The part of the graph that [expected_n_clusters] reads: the mean of the
    prior of the concentration parameter and the number of taxa. *)
Record GraphView := {
  concentration_prior_mean : R;
  n_asvs : nat
}.

Definition expected_n_clusters (G : GraphView) : R :=
  let conc := concentration_prior_mean G in
  conc * ln ((INR (n_asvs G) + conc) / conc).

(** *** Enclosing [exp] by repeated squaring

    [cs] is a chain of lower bounds: each entry is non-negative and at most
    the square of its predecessor. *)
Fixpoint sq_chain (c : R) (cs : list R) : Prop :=
  match cs with
  | [] => True
  | c' :: rest => 0 <= c' /\ c' <= c * c /\ sq_chain c' rest
  end.

Lemma exp_double (x : R) : exp (2 * x) = exp x * exp x.
Proof. replace (2 * x) with (x + x) by ring. apply exp_plus. Qed.

Lemma last_cons_default {A : Type} (l : list A) :
  forall a d : A, List.last (a :: l) d = List.last l a.
Proof.
  induction l as [| b l IH]; intros a d; [reflexivity |].
  change (List.last (a :: b :: l) d) with (List.last (b :: l) d).
  rewrite (IH b d), (IH b a). reflexivity.
Qed.

Lemma sq_chain_exp (cs : list R) :
  forall c x, 0 <= c -> c <= exp x -> sq_chain c cs ->
  List.last cs c <= exp (2 ^ length cs * x).
Proof.
  induction cs as [| c' rest IH]; intros c x Hc Hle Hchain.
  - cbn. rewrite Rmult_1_l. exact Hle.
  - destruct Hchain as (Hc' & Hsq & Hrest).
    assert (Hstep : c' <= exp (2 * x)).
    { rewrite exp_double. apply Rle_trans with (c * c); [exact Hsq |].
      apply Rmult_le_compat; assumption. }
    specialize (IH c' (2 * x) Hc' Hstep Hrest).
    replace (2 ^ length (c' :: rest) * x) with (2 ^ length rest * (2 * x))
      by (cbn [length pow]; ring).
    rewrite last_cons_default. exact IH.
Qed.

Lemma exp_lower_101 : 101 < exp 4.6155.
Proof.
  pose (cs := [1.000140858841; 1.000281737523; 1.000563554422; 1.001127426437;
               1.002256123964; 1.004517338023; 1.009055082388; 1.018192159293;
               1.036715273245; 1.074778557779; 1.155148948261; 1.334369092668;
               1.780540875467; 3.170325809208; 10.050965736530; 101.021912236900]).
  assert (H := sq_chain_exp cs (1 + 4.6155 / 65536) (4.6155 / 65536)).
  replace (2 ^ length cs * (4.6155 / 65536)) with 4.6155 in H
    by (cbn [cs length pow]; lra).
  cbn [cs List.last] in H.
  apply Rlt_le_trans with 101.021912236900; [lra |].
  apply H; [lra | apply exp_ineq1_le |].
  cbn [cs sq_chain]. repeat (split; [lra |]). exact I.
Qed.

Lemma exp_upper_101 : exp 4.6145 < 101.
Proof.
  pose (cs := [0.999859181593; 0.999718383015; 0.999436845338; 0.998874007819;
               0.997749283496; 0.995503632716; 0.991027482750; 0.982135471565;
               0.964590084506; 0.930434031127; 0.865707486279; 0.749449451799;
               0.561674480801; 0.315478222383; 0.099526508797; 0.009905525953]).
  assert (H := sq_chain_exp cs (1 + - 4.6145 / 65536) (- 4.6145 / 65536)).
  replace (2 ^ length cs * (- 4.6145 / 65536)) with (- 4.6145) in H
    by (cbn [cs length pow]; lra).
  cbn [cs List.last] in H.
  assert (Hinv : 0.009905525953 <= exp (- 4.6145)).
  { apply H; [lra | apply exp_ineq1_le |].
    cbn [cs sq_chain]. repeat (split; [lra |]). exact I. }
  replace (exp (- 4.6145)) with (/ exp 4.6145) in Hinv
    by (rewrite <- exp_Ropp; f_equal; lra).
  assert (Hpos : 0 < exp 4.6145) by apply exp_pos.
  apply Rmult_le_compat_r with (r := exp 4.6145) in Hinv; [| lra].
  rewrite Rinv_l in Hinv by lra. lra.
Qed.

Lemma ln_101_bounds : 4.6145 < ln 101 < 4.6155.
Proof.
  split.
  - apply Rle_lt_trans with (ln (exp 4.6145)); [rewrite ln_exp; lra |].
    apply ln_increasing; [apply exp_pos |]. exact exp_upper_101.
  - apply Rlt_le_trans with (ln (exp 4.6155)); [| rewrite ln_exp; lra].
    apply ln_increasing; [lra |]. exact exp_lower_101.
Qed.

(** C8. [expected_n_clusters] is [conc * ln ((n_asvs + conc) / conc)] for
    [conc] the prior mean of the concentration; with [conc = 1] and
    [n_asvs = 100] it is [ln 101], which rounds to 4.615. *)
Theorem expected_n_clusters_formula (G : GraphView) :
  expected_n_clusters G =
    concentration_prior_mean G *
    ln ((INR (n_asvs G) + concentration_prior_mean G) / concentration_prior_mean G)
  /\ (concentration_prior_mean G = 1 -> n_asvs G = 100%nat ->
      expected_n_clusters G = ln 101 /\
      4.6145 < expected_n_clusters G < 4.6155).
Proof.
  split; [reflexivity |].
  intros Hc Hn. unfold expected_n_clusters. rewrite Hc, Hn.
  assert (E : 1 * ln ((INR 100 + 1) / 1) = ln 101).
  { assert (E100 : INR 100 = 100) by (rewrite INR_IZR_INZ; reflexivity).
    rewrite Rmult_1_l, E100. f_equal. lra. }
  rewrite E. split; [reflexivity | exact ln_101_bounds].
Qed.

Lemma expected_n_clusters_formula_witness :
  expected_n_clusters {| concentration_prior_mean := 1; n_asvs := 100 |} = ln 101 /\
  4.6145 < expected_n_clusters {| concentration_prior_mean := 1; n_asvs := 100 |} < 4.6155.
Proof.
  apply (expected_n_clusters_formula {| concentration_prior_mean := 1; n_asvs := 100 |});
    reflexivity.
Defined.

End Clusters.

(** ** NumPy one-dimensional arrays *)

Module Np.
Import Py.

(** Element-wise product of two 1-D arrays with NumPy broadcasting: equal
    lengths multiply pointwise, a length-one operand is stretched, any other
    pair of shapes raises. *)
Definition mul (a b : list R) : result (list R) :=
  if Nat.eqb (length a) (length b) then Ok (zip_with Rmult a b)
  else if Nat.eqb (length b) 1 then Ok (List.map (fun x => x * List.hd 0 b) a)
  else if Nat.eqb (length a) 1 then Ok (List.map (fun y => List.hd 0 a * y) b)
  else Raise ValueError.

(** [v[mask]] for a boolean mask: the mask must be as long as the array. *)
Fixpoint select (v : list R) (mask : list bool) : list R :=
  match v, mask with
  | x :: v', b :: mask' => if b then x :: select v' mask' else select v' mask'
  | _, _ => []
  end.

Definition mask_index (v : list R) (mask : list bool) : result (list R) :=
  if Nat.eqb (length v) (length mask) then Ok (select v mask)
  else Raise IndexError.

(** [l[i]] with Python's negative indices; out of range raises. *)
Definition getitem {A : Type} (l : list A) (i : Z) : result A :=
  let n := Z.of_nat (length l) in
  let j := if (i <? 0)%Z then (n + i)%Z else i in
  if ((0 <=? j)%Z && (j <? n)%Z)%bool then
    match nth_error l (Z.to_nat j) with
    | Some a => Ok a
    | None => Raise IndexError
    end
  else Raise IndexError.

(** [M[i, j]] on a two-dimensional array stored by rows. *)
Definition getitem2 (M : list (list R)) (i j : Z) : result R :=
  bind (getitem M i) (fun row => getitem row j).

(** [M[:, j]]: column [j]. *)
Fixpoint column (M : list (list R)) (j : Z) : result (list R) :=
  match M with
  | [] => Ok []
  | row :: M' =>
      bind (getitem row j) (fun v => bind (column M' j) (fun c => Ok (v :: c)))
  end.

Definition square (a : list R) : list R := List.map (fun x => x * x) a.

Definition sum (a : list R) : R := List.fold_right Rplus 0 a.


Lemma sum_square_nonneg (a : list R) : 0 <= sum (square a).
Proof.
  induction a as [| x a IH]; cbn; [lra |].
  pose proof (Rle_0_sqr x) as Hx. unfold Rsqr in Hx. unfold sum, square in IH. lra.
Qed.

End Np.

(** ** Process variance *)

Module ProcessVar.
Import Py.
Local Open Scope py_scope.

(** What [ProcessVarGlobal.update] reads from [G.data]; [construct_lhs b] is
    the flattened dynamics residual [y - X b] returned for
    [with_perturbations = b]. *)
Record Data := {
  construct_lhs : bool -> list R;
  dt_vec : list R;
  sqrt_dt_vec : list R;
  zero_inflation_transition_policy : option string;
  rows_to_include_zero_inflation : list bool
}.

Record ProcessVarGlobal := {
  value : R;
  prior_dof : R;
  prior_scale : R;
  dof : R;
  scale : R;
  diag : list R;
  prec : list R;
  there_are_perturbations : bool
}.

Definition set_posterior (self : ProcessVarGlobal) (dof' scale' : R) :=
  {| value := value self; prior_dof := prior_dof self;
     prior_scale := prior_scale self; dof := dof'; scale := scale';
     diag := diag self; prec := prec self;
     there_are_perturbations := there_are_perturbations self |}.

Definition set_value (self : ProcessVarGlobal) (v : R) :=
  {| value := v; prior_dof := prior_dof self;
     prior_scale := prior_scale self; dof := dof self; scale := scale self;
     diag := diag self; prec := prec self;
     there_are_perturbations := there_are_perturbations self |}.

Definition set_diag (self : ProcessVarGlobal) (a : list R) :=
  {| value := value self; prior_dof := prior_dof self;
     prior_scale := prior_scale self; dof := dof self; scale := scale self;
     diag := a; prec := List.map (fun x => 1 / x) a;
     there_are_perturbations := there_are_perturbations self |}.

(** The object after the call together with the outcome of the call: an
    exception leaves the assignments made before it in place. *)
Definition outcome : Type := ProcessVarGlobal * result unit.

Definition rebuild_diag (data : Data) (self : ProcessVarGlobal) : outcome :=
  let a := List.map (fun dt => value self / dt) (dt_vec data) in
  match zero_inflation_transition_policy data with
  | Some _ =>
      match Np.mask_index a (rows_to_include_zero_inflation data) with
      | Ok a' => (set_diag self a', Ok tt)
      | Raise e => (self, Raise e)
      end
  | None => (set_diag self a, Ok tt)
  end.

(** The residual scaled by [sqrt dt], as computed at the top of [update]. *)
Definition scaled_residual (data : Data) (self : ProcessVarGlobal) : result (list R) :=
  let z := construct_lhs data (there_are_perturbations self) in
  match zero_inflation_transition_policy data with
  | Some _ =>
      let* s := Np.mask_index (sqrt_dt_vec data) (rows_to_include_zero_inflation data) in
      Np.mul z s
  | None => Np.mul z (sqrt_dt_vec data)
  end.

Section Update.

(** [self.sample ()]: the draw from the scaled-inverse-chi-squared
    distribution with the given degrees of freedom and scale. *)
Variable sample : R -> R -> R.

Definition update (data : Data) (self : ProcessVarGlobal) : outcome :=
  match scaled_residual data self with
  | Raise e => (self, Raise e)
  | Ok z =>
      let residual := Np.sum (Np.square z) in
      let dof' := prior_dof self + INR (length z) in
      let scale' := (prior_scale self * prior_dof self + residual) / dof' in
      let self1 := set_posterior self dof' scale' in
      let self2 := set_value self1 (sample (dof self1) (scale self1)) in
      rebuild_diag data self2
  end.




End Update.

(** Two residual rows [3] and [4] with [dt = 1]: prior [(dof, scale) =
    (2, 1)] becomes [(4, 27 / 4)]. *)
Definition sample_data : Data :=
  {| construct_lhs := fun _ => [3; 4]; dt_vec := [1; 1]; sqrt_dt_vec := [1; 1];
     zero_inflation_transition_policy := None;
     rows_to_include_zero_inflation := [] |}.



End ProcessVar.

(** ** Latent trajectory filter: forward transition density *)

Module Filter.
Import Py.
Local Open Scope py_scope.

Definition _LOG_INV_SQRT_2PI : R := ln (1 / sqrt (2 * PI)).

Definition _normal_logpdf (value mean std : R) : R :=
  _LOG_INV_SQRT_2PI + (- 0.5 * ((value - mean) / std) ^ 2) - ln std.


(** The process variance handed to [persistent_run]: one number when
    [pv_global], else one per taxon. *)
Inductive process_var :=
| PvGlobal (pv : R)
| PvPerTaxon (pv : list R).

(** The fields of a [SubjectLogTrajectorySetMP] that the forward transition
    reads.  [curr_x] and [curr_logx] are views of row [oidx] of [x] and
    [logx], so they are read through [x] and [logx]. *)
Record Subject := {
  times : list R;
  x : list (list R);
  logx : list (list R);
  there_are_perturbations : bool;
  in_pert_transition : list bool;
  fully_in_pert : list Z;
  master_growth_rate : list R;
  self_interactions : list R;
  interactions : list (list R);
  perturbations : list (list R);
  pv : process_var
}.

(** [dts[k] = times[k+1] - times[k]], as filled in by the constructor. *)
Fixpoint dts_of (ts : list R) : list R :=
  match ts with
  | a :: (b :: _) as tl => (b - a) :: dts_of tl
  | _ => []
  end.

Definition dts (sub : Subject) : list R := dts_of (times sub).
Definition sqrt_dts (sub : Subject) : list R := List.map sqrt (dts sub).

(** [growth.reshape(-1,1) * (1 + perturbations)], entry [oidx, pidx]. *)
Definition growth_rate_on_pert (sub : Subject) (oidx pidx : Z) : result R :=
  let* g := Np.getitem (master_growth_rate sub) oidx in
  let* p := Np.getitem2 (perturbations sub) oidx pidx in
  Ok (g * (1 + p)).

Definition curr_pv_std (sub : Subject) (oidx : Z) : result R :=
  match pv sub with
  | PvGlobal v => Ok (sqrt v)
  | PvPerTaxon vs => Np.getitem (List.map sqrt vs) oidx
  end.


Record timepoint_attrs := {
  forward_growth_rate : R;
  reverse_growth_rate : R
}.

(** The growth rates chosen by [set_attrs_for_timepoint]. *)
Definition set_attrs_for_timepoint (sub : Subject) (oidx tidx : Z)
  : result timepoint_attrs :=
  let* g := Np.getitem (master_growth_rate sub) oidx in
  if there_are_perturbations sub then
    let* trans := Np.getitem (in_pert_transition sub) tidx in
    if trans then
      let* prev := Np.getitem (fully_in_pert sub) (tidx - 1) in
      if negb (prev =? -1)%Z then
        let* r := growth_rate_on_pert sub oidx prev in
        Ok {| forward_growth_rate := g; reverse_growth_rate := r |}
      else
        let* pidx := Np.getitem (fully_in_pert sub) (tidx + 1) in
        let* f := growth_rate_on_pert sub oidx pidx in
        Ok {| forward_growth_rate := f; reverse_growth_rate := g |}
    else
      let* cur := Np.getitem (fully_in_pert sub) tidx in
      if negb (cur =? -1)%Z then
        let* f := growth_rate_on_pert sub oidx cur in
        Ok {| forward_growth_rate := f; reverse_growth_rate := f |}
      else Ok {| forward_growth_rate := g; reverse_growth_rate := g |}
  else Ok {| forward_growth_rate := g; reverse_growth_rate := g |}.

(** [np.nansum(self.x[:, tidx] * self.curr_interactions)] *)
Definition forward_interaction_vals (sub : Subject) (oidx tidx : Z) : result R :=
  let* col := Np.column (x sub) tidx in
  let* row := Np.getitem (interactions sub) oidx in
  let* prod := Np.mul col row in
  Ok (Np.sum prod).

Definition compute_dynamics (sub : Subject) (oidx tidx : Z) (Axj a1 : R) : result R :=
  let* logxi := Np.getitem2 (logx sub) oidx tidx in
  let* xi := Np.getitem2 (x sub) oidx tidx in
  let* a2 := Np.getitem (self_interactions sub) oidx in
  let* dt := Np.getitem (dts sub) tidx in
  Ok (logxi + (a1 - xi * a2 + Axj) * dt).

Section Loglik.

(** [pl.random.normal.logpdf]: the compiled routine, which may fail; when it
    answers, it answers with the normal log-density that [_normal_logpdf]
    spells out. *)
Variable pl_normal_logpdf : R -> R -> R -> result R.
Hypothesis pl_normal_logpdf_agrees :
  forall value mean std r,
    pl_normal_logpdf value mean std = Ok r -> r = _normal_logpdf value mean std.

Definition logpdf_or_fallback (value mean std : R) : R :=
  match pl_normal_logpdf value mean std with
  | Ok r => r
  | Raise _ => _normal_logpdf value mean std
  end.

Definition default_forward_loglik (sub : Subject) (oidx tidx : Z)
    (Axj : R) (attrs : timepoint_attrs) : result R :=
  let* logmu := compute_dynamics sub oidx tidx Axj (forward_growth_rate attrs) in
  let* value := Np.getitem2 (logx sub) oidx (tidx + 1) in
  let* pv_std := curr_pv_std sub oidx in
  let* sqrt_dt := Np.getitem (sqrt_dts sub) tidx in
  Ok (logpdf_or_fallback value logmu (pv_std * sqrt_dt)).


(** *** Index lemmas *)


Lemma nth_error_getitem {A : Type} (l : list A) (n : nat) (a : A) :
  nth_error l n = Some a -> Np.getitem l (Z.of_nat n) = Ok a.
Proof.
  intros Hn. unfold Np.getitem.
  assert (Hlt : (n < length l)%nat) by (apply nth_error_Some; congruence).
  destruct (Z.of_nat n <? 0)%Z eqn:Hneg; [apply Z.ltb_lt in Hneg; lia |].
  replace ((0 <=? Z.of_nat n)%Z && (Z.of_nat n <? Z.of_nat (length l))%Z)%bool
    with true
    by (symmetry; apply andb_true_iff; split;
        [apply Z.leb_le | apply Z.ltb_lt]; lia).
  rewrite Nat2Z.id, Hn. reflexivity.
Qed.



(** *** The fallback formula is the normal log-density of variance [std^2] *)

Lemma sqrt_2PI_pos : 0 < sqrt (2 * PI).
Proof. apply sqrt_lt_R0. pose proof PI_RGT_0. lra. Qed.






End Loglik.



(** One taxon observed at times [0] and [4]: abundance [1] then [e], growth
    [1/2], self-interaction [1/4], no interaction, process variance [1]. *)
Definition sample_subject : Subject :=
  {| times := [0; 4];
     x := [[1; exp 1]];
     logx := [[0; 1]];
     there_are_perturbations := false;
     in_pert_transition := [];
     fully_in_pert := [];
     master_growth_rate := [1 / 2];
     self_interactions := [1 / 4];
     interactions := [[0]];
     perturbations := [];
     pv := PvGlobal 1 |}.






End Filter.

(** ** Python argument values *)

Module PyVal.

(** The dynamically typed values that the initialisers inspect. *)
#[warnings="-register-all"]
Inductive value : Type :=
| VNone
| VBool (b : bool)
| VInt (z : Z)
| VFloat (r : R)
| VStr (s : string)
| VTuple (vs : list value).

Definition isint (v : value) : bool :=
  match v with VInt _ => true | _ => false end.

Definition isbool (v : value) : bool :=
  match v with VBool _ => true | _ => false end.

Definition isstr (v : value) : bool :=
  match v with VStr _ => true | _ => false end.

Definition istuple (v : value) : bool :=
  match v with VTuple _ => true | _ => false end.

(** The number behind a numeric value ([isnumeric]: ints and floats). *)
Definition numeric (v : value) : option R :=
  match v with
  | VInt z => Some (IZR z)
  | VFloat r => Some r
  | _ => None
  end.

End PyVal.

(** ** Self-interactions: truncation settings *)

Module SelfInteractions.
Import Py PyVal.

(** A truncation bound: a float, possibly [float('inf')]. *)
Inductive bound : Type :=
| Fin (r : R)
| Inf.

(** [b / c] for a positive float [c]. *)
Definition bound_div (b : bound) (c : R) : bound :=
  match b with
  | Fin r => Fin (r / c)
  | Inf => Inf
  end.

(** The growth variable [G[STRNAMES.GROWTH_VALUE]] as far as it is read. *)
Record Growth := {
  _initialized : bool;
  growth_low : bound;
  growth_high : bound
}.

Record SelfInteractions := {
  low : bound;
  high : bound;
  delay : Z;
  _there_are_perturbations : bool
}.

Definition init_outcome : Type := SelfInteractions * result unit.

Definition with_delay (self : SelfInteractions) (pert : bool) (d : Z) :=
  {| low := low self; high := high self; delay := d;
     _there_are_perturbations := pert |}.

Definition with_bounds (self : SelfInteractions) (l h : bound) :=
  {| low := l; high := h; delay := delay self;
     _there_are_perturbations := _there_are_perturbations self |}.

Definition with_perturbations (self : SelfInteractions) (pert : bool) :=
  {| low := low self; high := high self; delay := delay self;
     _there_are_perturbations := pert |}.

(** The truncation step for a string setting. *)
Definition truncation_from_str (self : SelfInteractions) (growth : Growth)
    (setting : string) (rescale_value : value) : init_outcome :=
  if (String.eqb setting "mouse" || String.eqb setting "human")%bool then
    if negb (_initialized growth) then (self, Raise ValueError)
    else
      let high0 := if String.eqb setting "mouse" then 1e13 else 1e14 in
      let low0 := 1e2 in
      match rescale_value with
      | VNone =>
          (with_bounds self (bound_div (growth_high growth) low0)
                            (bound_div (growth_low growth) high0), Ok tt)
      | _ =>
          match numeric rescale_value with
          | None => (self, Raise TypeError)
          | Some rv =>
              if Rle_dec rv 0 then (self, Raise ValueError)
              else
                (with_bounds self (bound_div (growth_high growth) (low0 * rv))
                                  (bound_div (growth_low growth) (high0 * rv)),
                 Ok tt)
          end
      end
  else if (String.eqb setting "auto" || String.eqb setting "positive")%bool then
    (with_bounds self (Fin 0) Inf, Ok tt)
  else (self, Raise ValueError).

(** The truncation step for a tuple setting. *)
Definition truncation_from_tuple (self : SelfInteractions) (vs : list value)
  : init_outcome :=
  match vs with
  | [l; h] =>
      match numeric l, numeric h with
      | Some lr, Some hr =>
          if Rlt_dec lr 0 then (self, Raise ValueError)
          else if Rlt_dec hr 0 then (self, Raise ValueError)
          else if Rle_dec hr lr then (self, Raise ValueError)
          else (with_bounds self (Fin lr) (Fin hr), Ok tt)
      | _, _ => (self, Raise TypeError)
      end
  | _ => (self, Raise ValueError)
  end.

(** [SelfInteractions.initialize] up to the end of its "Set truncation
    settings" block; [perturbations] tells whether [G.perturbations] is
    set. *)
Definition initialize_truncation (self : SelfInteractions) (growth : Growth)
    (perturbations : bool) (truncation_settings delay_arg rescale_value : value)
  : init_outcome :=
  let self0 := with_perturbations self perturbations in
  match delay_arg with
  | VInt d =>
      if (d <? 0)%Z then (self0, Raise ValueError)
      else
        let self1 := with_delay self0 perturbations d in
        match truncation_settings with
        | VStr s => truncation_from_str self1 growth s rescale_value
        | VTuple vs => truncation_from_tuple self1 vs
        | _ => (self1, Raise TypeError)
        end
  | _ => (self0, Raise TypeError)
  end.

(** The two abundance constants a preset divides by (no rescaling). *)
Definition preset_low_abundance : R := 1e2.
Definition preset_high_abundance (setting : string) : R :=
  if String.eqb setting "mouse" then 1e13 else 1e14.

(** The steady-state abundance range as the specification words it:
    [1e2 .. 1e12] for the mouse gut, [1e2 .. 1e13] for the human gut. *)
Definition spec_assumed_low_abundance : R := 1e2.
Definition spec_assumed_high_abundance (setting : string) : R :=
  if String.eqb setting "mouse" then 1e12 else 1e13.

(** What a preset call computes, exactly as written. *)
Lemma initialize_truncation_preset (self : SelfInteractions) (growth : Growth)
    (pert : bool) (setting : string) (d : Z) :
  setting = "mouse"%string \/ setting = "human"%string ->
  _initialized growth = true ->
  (0 <= d)%Z ->
  initialize_truncation self growth pert (VStr setting) (VInt d) VNone =
    ({| low := bound_div (growth_high growth) preset_low_abundance;
        high := bound_div (growth_low growth) (preset_high_abundance setting);
        delay := d;
        _there_are_perturbations := pert |}, Ok tt).
Proof.
  intros Hs Hinit Hd. unfold initialize_truncation.
  destruct (d <? 0)%Z eqn:Hneg; [apply Z.ltb_lt in Hneg; lia |].
  unfold truncation_from_str. rewrite Hinit.
  destruct Hs as [-> | ->]; reflexivity.
Qed.

Definition fresh_self : SelfInteractions :=
  {| low := Fin 0; high := Inf; delay := 0; _there_are_perturbations := false |}.

(** Growth truncated to [(1/10, 23/10)], about the [in-vivo] preset. *)
Definition sample_growth : Growth :=
  {| _initialized := true; growth_low := Fin (1 / 10); growth_high := Fin (23 / 10) |}.

(** The pair the docstring of [initialize] announces for a preset:
    [(growth.high/1e13, growth.low/1e2)] for the mouse gut,
    [(growth.high/1e14, growth.low/1e2)] for the human gut. *)
Definition documented_bounds (growth : Growth) (setting : string) : bound * bound :=
  (bound_div (growth_high growth) (preset_high_abundance setting),
   bound_div (growth_low growth) preset_low_abundance).

(** The pair in the specification's words: [growth.high] over the assumed
    high abundance, [growth.low] over the assumed low abundance. *)
Definition spec_bounds (growth : Growth) (setting : string) : bound * bound :=
  (bound_div (growth_high growth) (spec_assumed_high_abundance setting),
   bound_div (growth_low growth) spec_assumed_low_abundance).

(** C2 (the code at a failing input). Mouse preset, no rescale value, growth
    initialised and truncated to [(1/10, 23/10)]: the call succeeds and sets
    [low = growth.high / 1e2] and [high = growth.low / 1e13], so the lower
    bound lies above the upper one.  The documented pair,
    [(growth.high / 1e13, growth.low / 1e2)], divides the other way round,
    as does the specification's; the code sets neither. *)
Theorem truncation_presets_swapped :
  let out := initialize_truncation fresh_self sample_growth false
               (VStr "mouse") (VInt 0) VNone in
  snd out = Ok tt /\
  low (fst out) = Fin (23 / 10 / 1e2) /\
  high (fst out) = Fin (1 / 10 / 1e13) /\
  1 / 10 / 1e13 < 23 / 10 / 1e2 /\
  documented_bounds sample_growth "mouse"
    = (Fin (23 / 10 / 1e13), Fin (1 / 10 / 1e2)) /\
  (low (fst out), high (fst out)) <> documented_bounds sample_growth "mouse" /\
  (low (fst out), high (fst out)) <> spec_bounds sample_growth "mouse".
Proof.
  rewrite initialize_truncation_preset by (auto; lia).
  cbn [fst snd low high bound_div growth_high growth_low sample_growth].
  unfold documented_bounds, spec_bounds.
  cbn [bound_div growth_high growth_low sample_growth].
  change (spec_assumed_high_abundance "mouse") with 1e12.
  change (preset_high_abundance "mouse") with 1e13.
  unfold preset_low_abundance, spec_assumed_low_abundance.
  repeat split; try reflexivity; try lra; intros [= E1 E2]; lra.
Qed.

End SelfInteractions.

(** ** Dense and sparse matrices *)

Module Mat.
Import Py.

Record dense := {
  nrows : nat;
  ncols : nat;
  rows : list (list R)
}.

Definition get (M : dense) (i j : nat) : R :=
  List.nth j (List.nth i (rows M) []) 0.

Definition mk (n m : nat) (f : nat -> nat -> R) : dense :=
  {| nrows := n; ncols := m;
     rows := List.map (fun i => List.map (fun j => f i j) (List.seq 0 m))
                      (List.seq 0 n) |}.

Definition zeros (n m : nat) : dense := mk n m (fun _ _ => 0).

Definition transpose (M : dense) : dense :=
  mk (ncols M) (nrows M) (fun i j => get M j i).

(** [A @ B]; mismatched inner dimensions raise. *)
Definition matmul (A B : dense) : result dense :=
  if Nat.eqb (ncols A) (nrows B) then
    Ok (mk (nrows A) (ncols B)
          (fun i j => Np.sum (List.map (fun k => get A i k * get B k j)
                                       (List.seq 0 (ncols A)))))
  else Raise ValueError.

(** [A + B] on equal shapes. *)
Definition add (A B : dense) : result dense :=
  if (Nat.eqb (nrows A) (nrows B) && Nat.eqb (ncols A) (ncols B))%bool then
    Ok (mk (nrows A) (ncols A) (fun i j => get A i j + get B i j))
  else Raise ValueError.

(** [np.diag v] *)
Definition diag (v : list R) : dense :=
  mk (length v) (length v)
     (fun i j => if Nat.eqb i j then List.nth i v 0 else 0).

(** A column vector, [a.reshape(-1, 1)]. *)
Definition colvec (v : list R) : dense :=
  mk (length v) 1 (fun i _ => List.nth i v 0).

(** [M[0, 0]] *)
Definition item00 (M : dense) : result R :=
  if (Nat.ltb 0 (nrows M) && Nat.ltb 0 (ncols M))%bool then Ok (get M 0 0)
  else Raise IndexError.

(** A [scipy.sparse] matrix as coordinate triples; duplicates add up. *)
Record sparse := {
  sp_nrows : nat;
  sp_ncols : nat;
  triples : list (nat * nat * R)
}.

(** [M.toarray(out=np.zeros(M.shape))] *)
Definition toarray (M : sparse) : dense :=
  mk (sp_nrows M) (sp_ncols M)
     (fun i j =>
        Np.sum (List.map
                  (fun t => match t with
                            | (i', j', v) =>
                                if (Nat.eqb i i' && Nat.eqb j j')%bool then v else 0
                            end)
                  (triples M))).

Inductive matrix :=
| Dense (d : dense)
| Sparse (s : sparse).

(** The first lines of [pinv] and [log_det]: densify sparse input. *)
Definition densify (M : matrix) : dense :=
  match M with
  | Dense d => d
  | Sparse s => toarray s
  end.

End Mat.

(** ** Numerical safety helpers: [pinv] and [log_det] *)

Module Safety.
Import Py Mat.

(** The outside world the helpers act on: saved arrays by path, existing
    directories by path (written with their trailing slash, relative to the
    working directory), the log, and what the operating system refuses for
    reasons outside the names (permissions, space, restrictions on paths):
    the error it answers a request to create or write that path with. *)
Record world := {
  files : gmap string dense;
  dirs : gset string;
  log : list string;
  refuses : string -> option exn
}.

(** What the helpers read of the calling variable.  [sample_iter] is [None]
    when the attribute is absent or holds [None]; [name] is [None] when
    [var.name] raises, [G_name] when [var.G.name] does. *)
Record variable := {
  sample_iter : option Z;
  name : option string;
  G_name : option string
}.

(** Reading an attribute that may be absent. *)
Definition getattr {A : Type} (a : option A) : result A :=
  match a with
  | Some x => Ok x
  | None => Raise AttributeError
  end.

(** ['{}'.format] of the iteration. *)
Definition format_iter (it : option Z) : string :=
  match it with
  | Some z => NilZero.string_of_int (Z.to_int z)
  | None => "None"
  end.

(** The file name; the iteration is read under its own [try], the two names
    are not. *)
Definition crash_filename (op : string) (var : variable) : result string :=
  (let* n := getattr (name var) in
   let* g := getattr (G_name var) in
   Ok ("crashes/" ++ op ++ "_error_iter" ++ format_iter (sample_iter var)
       ++ "_var" ++ n ++ "pinv_" ++ g ++ ".npy")%string)%py.

Definition nl : string := String "010"%char EmptyString.
Definition dq : string := String "034"%char EmptyString.

Fixpoint newlines (k : nat) : string :=
  match k with
  | O => EmptyString
  | S k => (nl ++ newlines k)%string
  end.

(** The logged message, padding and quotes included. *)
Definition crash_message (filename : string) : string :=
  (newlines 8 ++ "Saved array at " ++ dq ++ filename ++ dq
   ++ " - now crashing" ++ newlines 3)%string.

Definition logging_critical (msg : string) (w : world) : world :=
  {| files := files w; dirs := dirs w; log := List.app (log w) [msg];
     refuses := refuses w |}.

Fixpoint has_slash (s : string) : bool :=
  match s with
  | EmptyString => false
  | String c r => (Ascii.eqb c "/" || has_slash r)%bool
  end.

(** The directory part of a path, up to and including its last slash. *)
Fixpoint parent (p : string) : string :=
  match p with
  | EmptyString => EmptyString
  | String c r =>
      if has_slash r then String c (parent r)
      else if Ascii.eqb c "/" then String c EmptyString
      else EmptyString
  end.

(** A path without its trailing slash. *)
Fixpoint strip_slash (p : string) : string :=
  match p with
  | EmptyString => EmptyString
  | String c EmptyString => if Ascii.eqb c "/" then EmptyString else p
  | String c r => String c (strip_slash r)
  end.

(** [str.endswith] *)
Fixpoint ends_with (suffix s : string) : bool :=
  (String.eqb s suffix ||
   match s with
   | EmptyString => false
   | String _ r => ends_with suffix r
   end)%bool.

(** [os.makedirs(path, exist_ok=True)] for a path of one component: nothing
    to do when the directory is there; a regular file of that name is in the
    way; otherwise the directory is created unless the system refuses. *)
Definition os_makedirs (path : string) (w : world) : world * result unit :=
  if decide (path ∈ dirs w) then (w, Ok tt)
  else
    match files w !! strip_slash path with
    | Some _ => (w, Raise FileExistsError)
    | None =>
        match refuses w path with
        | Some e => (w, Raise e)
        | None =>
            ({| files := files w; dirs := {[ path ]} ∪ dirs w; log := log w;
                refuses := refuses w |}, Ok tt)
        end
    end.

(** [np.save(file, arr)]: the name gets [.npy] appended when it lacks it;
    the file is opened for writing, which needs its directory to exist and
    the name not to be a directory's, and then holds the array. *)
Definition np_save (file : string) (arr : dense) (w : world) : world * result unit :=
  let file := if ends_with ".npy" file then file else (file ++ ".npy")%string in
  if decide (parent file = EmptyString \/ parent file ∈ dirs w) then
    if decide ((file ++ "/")%string ∈ dirs w) then (w, Raise IsADirectoryError)
    else
      match refuses w file with
      | Some e => (w, Raise e)
      | None =>
          ({| files := <[file := arr]> (files w); dirs := dirs w; log := log w;
              refuses := refuses w |}, Ok tt)
      end
  else (w, Raise FileNotFoundError).

(** The [except] block before its final [raise]: form the name, log, create
    the directory, save the array.  Whatever raises on the way ends it. *)
Definition dump (op : string) (M : dense) (var : variable) (w : world)
  : world * result unit :=
  match crash_filename op var with
  | Raise e => (w, Raise e)
  | Ok filename =>
      let w1 := logging_critical (crash_message filename) w in
      match os_makedirs "crashes/" w1 with
      | (w2, Raise e) => (w2, Raise e)
      | (w2, Ok _) => np_save filename M w2
      end
  end.

(** The whole [except] block: the bare [raise] re-raises the exception being
    handled, [e], when it is reached. *)
Definition dump_then_raise {A : Type} (op : string) (M : dense) (var : variable)
    (w : world) (e : exn) : world * result A :=
  match dump op M var w with
  | (w', Ok _) => (w', Raise e)
  | (w', Raise e') => (w', Raise e')
  end.






Lemma parent_no_slash (s : string) : has_slash s = false -> parent s = EmptyString.
Proof.
  destruct s as [| c r]; [reflexivity |]. cbn.
  intros H. apply orb_false_iff in H as [Hc Hr]. rewrite Hr, Hc. reflexivity.
Qed.









Section Routines.

(** [pl.math.log_det], [np.linalg.pinv], [scipy.linalg.pinv] and
    [scipy.linalg.inv]. *)
Variable pl_math_log_det : dense -> result R.
Variable np_linalg_pinv : dense -> result dense.
Variable scipy_linalg_pinv : dense -> result dense.
Variable scipy_linalg_inv : dense -> result dense.

Definition log_det (M : matrix) (var : variable) (w : world) : world * result R :=
  let M := densify M in
  match pl_math_log_det M with
  | Ok r => (w, Ok r)
  | Raise e => dump_then_raise "logdet" M var w e
  end.

(** The nested [try] of [pinv]: each routine is tried when the previous one
    raised. *)
Definition pinv_attempts (M : dense) : result dense :=
  match np_linalg_pinv M with
  | Ok r => Ok r
  | Raise _ =>
      match scipy_linalg_pinv M with
      | Ok r => Ok r
      | Raise _ => scipy_linalg_inv M
      end
  end.

Definition pinv (M : matrix) (var : variable) (w : world) : world * result dense :=
  let M := densify M in
  match pinv_attempts M with
  | Ok r => (w, Ok r)
  | Raise e => dump_then_raise "pinv" M var w e
  end.

(** A successful call leaves the world untouched. *)
Lemma pinv_ok_no_dump (M : matrix) (var : variable) (w : world) (r : dense) :
  snd (pinv M var w) = Ok r -> fst (pinv M var w) = w.
Proof.
  unfold pinv, dump_then_raise.
  destruct (pinv_attempts (densify M)); [reflexivity |].
  destruct (dump _ _ _ _) as [w' [[] | e']]; discriminate.
Qed.


End Routines.


Definition sample_var : variable :=
  {| sample_iter := Some 12%Z; name := Some "beta"%string;
     G_name := Some "mdsine2"%string |}.

Definition empty_world : world :=
  {| files := ∅; dirs := ∅; log := []; refuses := fun _ => None |}.

Definition failing {A : Type} (tag : nat) (M : dense) : result A :=
  Raise (LinAlgError tag).




End Safety.

(** ** Collapsed marginal log-likelihoods *)

Module Marginal.
Import Py Mat Safety.

Inductive reprname :=
| GROWTH_VALUE
| SELF_INTERACTION_VALUE
| CLUSTER_INTERACTION_VALUE
| PERT_VALUE
| PROCESSVAR.

Record Perturbation := {
  num_on_clusters : nat;
  magnitude_prior_var : R;
  magnitude_prior_mean : R
}.

(** The graph as the marginalisation reads it.  [construct_rhs ind keys] and
    [construct_lhs keys] are the design matrix and the response built by
    [G.data] once the mixing matrices have been rebuilt for the interaction
    indicators [ind]. *)
Record Graph := {
  n_asvs : nat;
  prior_var_growth : R;
  prior_var_self_interactions : R;
  prior_var_interactions : R;
  prior_mean_growth : R;
  prior_mean_self_interactions : R;
  prior_mean_interactions : R;
  indicators : list bool;
  perturbations : option (list Perturbation);
  process_var_diag : list R;
  construct_lhs : list reprname -> dense;
  construct_rhs : list bool -> list reprname -> dense
}.

Definition num_pos_indicators (G : Graph) : nat :=
  length (List.filter (fun b => b) (indicators G)).

Definition set_indicators (G : Graph) (ind : list bool) : Graph :=
  {| n_asvs := n_asvs G;
     prior_var_growth := prior_var_growth G;
     prior_var_self_interactions := prior_var_self_interactions G;
     prior_var_interactions := prior_var_interactions G;
     prior_mean_growth := prior_mean_growth G;
     prior_mean_self_interactions := prior_mean_self_interactions G;
     prior_mean_interactions := prior_mean_interactions G;
     indicators := ind;
     perturbations := perturbations G;
     process_var_diag := process_var_diag G;
     construct_lhs := construct_lhs G;
     construct_rhs := construct_rhs G |}.

(** [np.full(n, v)] *)
Definition full (n : nat) (v : R) : list R := List.repeat v n.

(** The pieces [a] collected by the loop of [build_prior_covariance]. *)
Fixpoint prior_covariance_parts (G : Graph) (order : list reprname)
  : result (list (list R)) :=
  match order with
  | [] => Ok []
  | reprname :: order' =>
      bind (match reprname with
            | GROWTH_VALUE => Ok [full (n_asvs G) (prior_var_growth G)]
            | SELF_INTERACTION_VALUE =>
                Ok [full (n_asvs G) (prior_var_self_interactions G)]
            | CLUSTER_INTERACTION_VALUE =>
                Ok [full (num_pos_indicators G) (prior_var_interactions G)]
            | PERT_VALUE =>
                match perturbations G with
                | Some perts =>
                    Ok (List.map (fun p => full (num_on_clusters p)
                                                (magnitude_prior_var p)) perts)
                | None => Raise TypeError
                end
            | PROCESSVAR => Raise ValueError
            end)
           (fun here => bind (prior_covariance_parts G order')
                             (fun rest => Ok (List.app here rest)))
  end.

(** [build_prior_covariance] with [sparse=False], [diag=False]. *)
Definition build_prior_covariance (G : Graph) (cov : bool) (order : list reprname)
  : result dense :=
  bind (prior_covariance_parts G order) (fun a =>
    let arr := List.concat a in
    let arr := if cov then arr else List.map (fun v => 1 / v) arr in
    Ok (diag arr)).

Fixpoint prior_mean_parts (G : Graph) (order : list reprname)
  : result (list (list R)) :=
  match order with
  | [] => Ok []
  | reprname :: order' =>
      bind (match reprname with
            | GROWTH_VALUE =>
                Ok [List.map (fun one => prior_mean_growth G * one)
                             (full (n_asvs G) 1)]
            | SELF_INTERACTION_VALUE =>
                Ok [List.map (fun one => prior_mean_self_interactions G * one)
                             (full (n_asvs G) 1)]
            | CLUSTER_INTERACTION_VALUE =>
                Ok [full (num_pos_indicators G) (prior_mean_interactions G)]
            | PERT_VALUE =>
                match perturbations G with
                | Some perts =>
                    Ok (List.map (fun p => full (num_on_clusters p)
                                                (magnitude_prior_mean p)) perts)
                | None => Raise TypeError
                end
            | PROCESSVAR => Raise ValueError
            end)
           (fun here => bind (prior_mean_parts G order')
                             (fun rest => Ok (List.app here rest)))
  end.

(** [build_prior_mean] with [shape=(-1,1)]. *)
Definition build_prior_mean (G : Graph) (order : list reprname) : result dense :=
  bind (prior_mean_parts G order) (fun a => Ok (colvec (List.concat a))).

(** [G[REPRNAMES.PROCESSVAR].build_matrix(cov=False, sparse=False)] *)
Definition process_prec_matrix (G : Graph) : dense :=
  diag (List.map (fun a => 1 / a) (process_var_diag G)).

(** Values stored in the returned dictionaries: numbers or arrays. *)
Inductive dictval :=
| DNum (r : R)
| DMat (m : dense).

(** Computations that act on the world and may raise. *)
Definition comp (A : Type) : Type := world -> world * result A.

Definition ret {A : Type} (a : A) : comp A := fun w => (w, Ok a).

Definition lift {A : Type} (m : result A) : comp A := fun w => (w, m).

Definition cbind {A B : Type} (m : comp A) (k : A -> comp B) : comp B :=
  fun w =>
    match m w with
    | (w', Ok a) => k a w'
    | (w', Raise e) => (w', Raise e)
    end.

Declare Scope comp_scope.
Delimit Scope comp_scope with comp.
Notation "'do*' x ':=' m 'in' k" := (cbind m (fun x => k))
  (at level 10, x name, m at level 100, k at level 200) : comp_scope.
Local Open Scope comp_scope.

(** [self._there_are_perturbations = self.G.perturbations is not None] *)
Definition there_are_perturbations (G : Graph) : bool :=
  match perturbations G with
  | Some _ => true
  | None => false
  end.

Definition rhs_keys (G : Graph) : list reprname :=
  if there_are_perturbations G then [PERT_VALUE; CLUSTER_INTERACTION_VALUE]
  else [CLUSTER_INTERACTION_VALUE].

Definition lhs_keys : list reprname := [GROWTH_VALUE; SELF_INTERACTION_VALUE].

Section Routines.

Variable pl_math_log_det : dense -> result R.
Variable np_linalg_pinv : dense -> result dense.
Variable scipy_linalg_pinv : dense -> result dense.
Variable scipy_linalg_inv : dense -> result dense.

Definition pinv' := pinv np_linalg_pinv scipy_linalg_pinv scipy_linalg_inv.
Definition log_det' := log_det pl_math_log_det.

(** [x.T @ A @ x] followed by [[0, 0]]. *)
Definition quadratic_form (x A : dense) : result R :=
  bind (matmul (transpose x) A) (fun xA => bind (matmul xA x) item00).

(** The posterior precision, covariance and mean of the marginalised block,
    and the two log-determinants. *)
Definition marginalize (X y process_prec prior_prec prior_var prior_mean : dense)
    (var : variable)
  : comp (dense * dense * dense * R * R) :=
  do* XTP := lift (matmul (transpose X) process_prec) in
  do* XTPX := lift (matmul XTP X) in
  do* beta_prec := lift (add XTPX prior_prec) in
  do* beta_cov := pinv' (Dense beta_prec) var in
  do* XTPy := lift (matmul XTP y) in
  do* Pm := lift (matmul prior_prec prior_mean) in
  do* s := lift (add XTPy Pm) in
  do* beta_mean := lift (matmul beta_cov s) in
  do* beta_logdet := log_det' (Dense beta_cov) var in
  do* priorvar_logdet := log_det' (Dense prior_var) var in
  ret (XTP, beta_prec, beta_mean, beta_logdet, priorvar_logdet).

(** [ClusterAssignments.calculate_marginal_loglikelihood_slow] *)
Definition calculate_marginal_loglikelihood_slow (G : Graph) (var : variable)
  : comp (gmap string dictval) :=
  let rhs := rhs_keys G in
  let y := construct_lhs G lhs_keys in
  let X := construct_rhs G (indicators G) rhs in
  let process_prec := process_prec_matrix G in
  do* prior_prec := lift (build_prior_covariance G false rhs) in
  do* prior_var := lift (build_prior_covariance G true rhs) in
  do* prior_mean := lift (build_prior_mean G rhs) in
  if Nat.eqb (ncols X) 0 then
    ret (<["a" := DNum 0]> (<["beta_prec" := DNum 0]>
        (<["process_prec" := DMat prior_prec]> (<["ret" := DNum 0]>
        (<["beta_logdet" := DNum 0]> (<["priorvar_logdet" := DNum 0]>
        (<["bEb" := DNum 0]> (<["bEbprior" := DNum 0]> ∅))))))))
  else
    do* m := marginalize X y process_prec prior_prec prior_var prior_mean var in
    match m with
    | (XTP, beta_prec, beta_mean, beta_logdet, priorvar_logdet) =>
        let ll2 := 0.5 * (beta_logdet - priorvar_logdet) in
        do* bEbprior := lift (quadratic_form prior_mean prior_prec) in
        do* bEb := lift (quadratic_form beta_mean beta_prec) in
        let ll3 := 0.5 * (bEb - bEbprior) in
        ret (<["a" := DMat XTP]> (<["beta_prec" := DMat beta_prec]>
            (<["process_prec" := DMat prior_prec]> (<["ret" := DNum (ll2 + ll3)]>
            (<["beta_logdet" := DNum beta_logdet]>
            (<["priorvar_logdet" := DNum priorvar_logdet]>
            (<["bEb" := DNum bEb]> (<["bEbprior" := DNum bEbprior]> ∅))))))))
    end.

(** [ClusterInteractionIndicators.calculate_marginal_loglikelihood]: the
    indicator of interaction [idx] is set to [val] first; the graph is
    returned with that assignment. *)
Definition calculate_marginal_loglikelihood (G : Graph) (var : variable)
    (idx : nat) (val : bool)
  : comp (Graph * gmap string dictval) :=
  if negb (Nat.ltb idx (length (indicators G))) then lift (Raise IndexError)
  else
    let G := set_indicators G (<[idx := val]> (indicators G)) in
    let rhs := rhs_keys G in
    let y := construct_lhs G lhs_keys in
    let X := construct_rhs G (indicators G) rhs in
    if Nat.eqb (ncols X) 0 then
      ret (G, <["ret" := DNum 0]> (<["beta_logdet" := DNum 0]>
              (<["priorvar_logdet" := DNum 0]> (<["bEb" := DNum 0]>
              (<["bEbprior" := DNum 0]> ∅)))))
    else
      let process_prec := process_prec_matrix G in
      do* prior_prec := lift (build_prior_covariance G false rhs) in
      do* prior_var := lift (build_prior_covariance G true rhs) in
      do* prior_mean := lift (build_prior_mean G rhs) in
      do* m := marginalize X y process_prec prior_prec prior_var prior_mean var in
      match m with
      | (_, beta_prec, beta_mean, beta_logdet, priorvar_logdet) =>
          let ll2 := 0.5 * (beta_logdet - priorvar_logdet) in
          do* a := lift (quadratic_form prior_mean prior_prec) in
          do* b := lift (quadratic_form beta_mean beta_prec) in
          let ll3 := -0.5 * (a - b) in
          ret (G, <["ret" := DNum (ll2 + ll3)]>
                  (<["beta_logdet" := DNum beta_logdet]>
                  (<["priorvar_logdet" := DNum priorvar_logdet]>
                  (<["bEb" := DNum b]> (<["bEbprior" := DNum a]> ∅)))))
      end.

(** [d['ret']] *)
Definition ret_of (d : gmap string dictval) : result R :=
  match d !! "ret"%string with
  | Some (DNum r) => Ok r
  | Some (DMat _) => Raise TypeError
  | None => Raise KeyError
  end.

(** One entry of [LOG_P] in [gibbs_update_single_asv_slow]: the size-based
    log-weight [a] plus the marginal. *)
Definition log_p_entry (a : R) (d : gmap string dictval) : result R :=
  bind (ret_of d) (fun r => Ok (a + r)).

(** [ll_on] and [ll_off] in [update_single_idx_slow]: marginal plus prior
    log-probability. *)
Definition ll_with_prior (d : gmap string dictval) (prior_ll : R) : result R :=
  bind (ret_of d) (fun r => Ok (r + prior_ll)).

Lemma build_prior_covariance_rhs (G : Graph) (cov : bool) :
  exists P : dense, build_prior_covariance G cov (rhs_keys G) = Ok P.
Proof.
  unfold build_prior_covariance, rhs_keys, there_are_perturbations.
  destruct (perturbations G) as [perts |] eqn:E; cbn; rewrite ?E; cbn; eauto.
Qed.

Lemma build_prior_mean_rhs (G : Graph) :
  exists m : dense, build_prior_mean G (rhs_keys G) = Ok m.
Proof.
  unfold build_prior_mean, rhs_keys, there_are_perturbations.
  destruct (perturbations G) as [perts |] eqn:E; cbn; rewrite ?E; cbn; eauto.
Qed.

Lemma rhs_keys_set_indicators (G : Graph) (ind : list bool) :
  rhs_keys (set_indicators G ind) = rhs_keys G.
Proof. reflexivity. Qed.

(** C10. When the design matrix of the marginalised block has no column,
    both routines return normally, leave the world as it was (nothing is
    dumped), and report [ret = 0]; the candidate's log-weight is then the
    size-based weight, respectively the prior log-probability, alone. *)
Theorem zero_columns_marginal_is_zero (G : Graph) (var : variable) (w : world) :
  (ncols (construct_rhs G (indicators G) (rhs_keys G)) = 0%nat ->
   exists d : gmap string dictval,
     calculate_marginal_loglikelihood_slow G var w = (w, Ok d) /\
     d !! "ret"%string = Some (DNum 0) /\
     forall a : R, log_p_entry a d = Ok a) /\
  (forall (idx : nat) (val : bool),
     (idx < length (indicators G))%nat ->
     ncols (construct_rhs G (<[idx := val]> (indicators G)) (rhs_keys G)) = 0%nat ->
     exists (G' : Graph) (d : gmap string dictval),
       calculate_marginal_loglikelihood G var idx val w = (w, Ok (G', d)) /\
       indicators G' = <[idx := val]> (indicators G) /\
       d !! "ret"%string = Some (DNum 0) /\
       forall prior_ll : R, ll_with_prior d prior_ll = Ok prior_ll).
Proof.
  split.
  - intros Hcols.
    destruct (build_prior_covariance_rhs G false) as [Pp HPp].
    destruct (build_prior_covariance_rhs G true) as [Pv HPv].
    destruct (build_prior_mean_rhs G) as [Pm HPm].
    unfold calculate_marginal_loglikelihood_slow, cbind, lift.
    rewrite HPp, HPv, HPm, Hcols. cbn [Nat.eqb ret].
    eexists. split; [reflexivity |].
    assert (Hret : forall P : dictval,
      (<["a" := DNum 0]> (<["beta_prec" := DNum 0]>
        (<["process_prec" := P]> (<["ret" := DNum 0]>
        (<["beta_logdet" := DNum 0]> (<["priorvar_logdet" := DNum 0]>
        (<["bEb" := DNum 0]> (<["bEbprior" := DNum 0]>
           (∅ : gmap string dictval)))))))))
        !! "ret"%string = Some (DNum 0)) by (intros P; simplify_map_eq; done).
    split; [apply Hret |].
    intros a. unfold log_p_entry, ret_of. rewrite Hret. cbn [bind].
    f_equal. ring.
  - intros idx val Hidx Hcols.
    unfold calculate_marginal_loglikelihood.
    apply Nat.ltb_lt in Hidx. rewrite Hidx. cbn [negb].
    cbn [indicators set_indicators]. rewrite rhs_keys_set_indicators.
    cbn [construct_rhs set_indicators]. rewrite Hcols. cbn [Nat.eqb ret].
    eexists. eexists. split; [reflexivity |].
    assert (Hret :
      (<["ret" := DNum 0]> (<["beta_logdet" := DNum 0]>
        (<["priorvar_logdet" := DNum 0]> (<["bEb" := DNum 0]>
        (<["bEbprior" := DNum 0]> (∅ : gmap string dictval))))))
        !! "ret"%string = Some (DNum 0)) by (simplify_map_eq; done).
    split; [reflexivity |]. split; [exact Hret |].
    intros prior_ll. unfold ll_with_prior, ret_of. rewrite Hret. cbn [bind].
    f_equal. ring.
Qed.

End Routines.

(** Two taxa, one candidate interaction each way, both switched off, no
    perturbation: the design matrix has one column per active indicator. *)
Definition sample_graph : Graph :=
  {| n_asvs := 2;
     prior_var_growth := 1; prior_var_self_interactions := 1;
     prior_var_interactions := 1;
     prior_mean_growth := 0; prior_mean_self_interactions := 0;
     prior_mean_interactions := 0;
     indicators := [false; false];
     perturbations := None;
     process_var_diag := [1; 1; 1; 1];
     construct_lhs := fun _ => zeros 4 1;
     construct_rhs := fun ind _ =>
       zeros 4 (length (List.filter (fun b => b) ind)) |}.

Lemma zero_columns_marginal_is_zero_witness :
  (exists d : gmap string dictval,
     calculate_marginal_loglikelihood_slow (failing 0) (failing 1) (failing 2)
       (failing 3) sample_graph sample_var empty_world = (empty_world, Ok d) /\
     d !! "ret"%string = Some (DNum 0) /\
     forall a : R, log_p_entry a d = Ok a) /\
  (exists (G' : Graph) (d : gmap string dictval),
     calculate_marginal_loglikelihood (failing 0) (failing 1) (failing 2)
       (failing 3) sample_graph sample_var 0 false empty_world
       = (empty_world, Ok (G', d)) /\
     indicators G' = <[0%nat := false]> (indicators sample_graph) /\
     d !! "ret"%string = Some (DNum 0) /\
     forall prior_ll : R, ll_with_prior d prior_ll = Ok prior_ll).
Proof.
  destruct (zero_columns_marginal_is_zero (failing 0) (failing 1) (failing 2)
              (failing 3) sample_graph sample_var empty_world) as [Hslow Hind].
  split.
  - apply Hslow. reflexivity.
  - apply (Hind 0%nat false); [cbn; lia | reflexivity].
Defined.

End Marginal.

(** ** Regression-coefficient orchestrator *)

Module RegressCoeff.
Import Py PyVal Mat Safety Marginal.
Local Open Scope comp_scope.

(** The iteration counter and update delay of a sampled variable. *)
Record Sampler := {
  sample_iter : Z;
  delay : Z
}.

Record RegressCoeff := {
  update_jointly_pert_inter : bool;
  update_jointly_growth_si : bool;
  rc_sample_iter : Z;
  _there_are_perturbations : bool;
  interactions : Sampler;
  pert_mag : option Sampler
}.

(** *** [initialize] *)

Definition initialized (self : RegressCoeff) (G : Graph) (pert_inter growth_si : bool)
  : RegressCoeff :=
  {| update_jointly_pert_inter := pert_inter;
     update_jointly_growth_si := growth_si;
     rc_sample_iter := 0;
     _there_are_perturbations := there_are_perturbations G;
     interactions := interactions self;
     pert_mag := pert_mag self |}.

Definition with_perturbation_flag (self : RegressCoeff) (G : Graph) : RegressCoeff :=
  {| update_jointly_pert_inter := update_jointly_pert_inter self;
     update_jointly_growth_si := update_jointly_growth_si self;
     rc_sample_iter := rc_sample_iter self;
     _there_are_perturbations := there_are_perturbations G;
     interactions := interactions self;
     pert_mag := pert_mag self |}.

(** The object after the call and the outcome of the call. *)
Definition initialize (self : RegressCoeff) (G : Graph)
    (update_jointly_pert_inter_arg update_jointly_growth_si_arg : value)
  : RegressCoeff * result unit :=
  let self0 := with_perturbation_flag self G in
  match update_jointly_growth_si_arg with
  | VBool growth_si =>
      match update_jointly_pert_inter_arg with
      | VBool pert_inter =>
          let self1 := initialized self G pert_inter growth_si in
          if update_jointly_growth_si self1 then (self1, Raise NotImplementedError)
          else (self1, Ok tt)
      | _ => (self0, Raise TypeError)
      end
  | _ => (self0, Raise TypeError)
  end.

(** *** [_update_perts_and_inter] *)

(** What the call does to the other variables, in order. *)
Inductive event :=
| InteractionsUpdate
| PertsUpdate
| SetInteractionValues (v : list R)
| SetPertValues (v : list R)
| GrowthDesignUpdateValue
| LogMsg (s : string).

Record state := {
  the_world : world;
  trace : list event
}.

Definition emit (evs : list event) (st : state) : state :=
  {| the_world := the_world st; trace := List.app (trace st) evs |}.

Definition ravel (M : dense) : list R := List.concat (rows M).

Section Update.

Variable np_linalg_pinv : dense -> result dense.
Variable scipy_linalg_pinv : dense -> result dense.
Variable scipy_linalg_inv : dense -> result dense.

(** [self.sample ()]: a draw from the multivariate normal with the stored
    mean and covariance; the draw can fail numerically. *)
Variable mvn_sample : list R -> dense -> result (list R).

(** The keys moved to the right-hand side: those past their delay. *)
Definition joint_rhs (self : RegressCoeff) : result (list reprname) :=
  let inter :=
    if (delay (interactions self) <=? sample_iter (interactions self))%Z
    then [CLUSTER_INTERACTION_VALUE] else [] in
  if _there_are_perturbations self then
    match pert_mag self with
    | Some pm =>
        Ok (List.app inter
              (if (delay pm <=? sample_iter pm)%Z then [PERT_VALUE] else []))
    | None => Raise AttributeError
    end
  else Ok inter.

Definition joint_lhs (self : RegressCoeff) : list reprname :=
  List.app
    (if (delay (interactions self) <=? sample_iter (interactions self))%Z
     then [] else [CLUSTER_INTERACTION_VALUE])
    (List.app
       (if _there_are_perturbations self then
          match pert_mag self with
          | Some pm => if (delay pm <=? sample_iter pm)%Z then [] else [PERT_VALUE]
          | None => []
          end
        else [])
       [GROWTH_VALUE; SELF_INTERACTION_VALUE]).

(** Posterior covariance and mean of the joint block. *)
Definition joint_posterior (G : Graph) (self : RegressCoeff) (var : variable)
    (rhs : list reprname) (X : dense)
  : comp (dense * list R) :=
  let y := construct_lhs G (joint_lhs self) in
  let process_prec := process_prec_matrix G in
  do* prior_prec := lift (build_prior_covariance G false rhs) in
  do* prior_means := lift (build_prior_mean G rhs) in
  do* XTP := lift (matmul (transpose X) process_prec) in
  do* XTPX := lift (matmul XTP X) in
  do* prec := lift (add XTPX prior_prec) in
  do* cov := pinv np_linalg_pinv scipy_linalg_pinv scipy_linalg_inv (Dense prec) var in
  do* Py := lift (matmul process_prec y) in
  do* XTPy := lift (matmul (transpose X) Py) in
  do* Pm := lift (matmul prior_prec prior_means) in
  do* s := lift (add XTPy Pm) in
  do* mean := lift (matmul cov s) in
  ret (cov, ravel mean).

(** The assignments after a successful joint draw. *)
Definition assign_joint (G : Graph) (self : RegressCoeff)
    (rhs : list reprname) (value : list R) : list event :=
  let has k := List.existsb
                 (fun k' => match k, k' with
                            | CLUSTER_INTERACTION_VALUE, CLUSTER_INTERACTION_VALUE => true
                            | PERT_VALUE, PERT_VALUE => true
                            | _, _ => false
                            end) rhs in
  let l := if has CLUSTER_INTERACTION_VALUE then num_pos_indicators G else 0%nat in
  List.app
    (if has CLUSTER_INTERACTION_VALUE
     then [SetInteractionValues (List.firstn l value)] else [])
    (if (_there_are_perturbations self && has PERT_VALUE)%bool
     then [SetPertValues (List.skipn l value); GrowthDesignUpdateValue] else []).

(** The fallback of the [except] block: perturbations, then interactions. *)
Definition update_separately_after_failure (self : RegressCoeff) (st : state)
  : state * result unit :=
  let st := emit [LogMsg "failed here, updating separately"] st in
  match pert_mag self with
  | Some _ => (emit [PertsUpdate; InteractionsUpdate] st, Ok tt)
  | None => (st, Raise AttributeError)
  end.

(** [u] is the uniform draw that orders the separate updates. *)
Definition _update_perts_and_inter (G : Graph) (self : RegressCoeff)
    (var : variable) (u : R) (st : state) : state * result unit :=
  if negb (update_jointly_pert_inter self) then
    let pert := if _there_are_perturbations self then [PertsUpdate] else [] in
    if Rlt_dec u 0.5 then (emit (InteractionsUpdate :: pert) st, Ok tt)
    else (emit (List.app pert [InteractionsUpdate]) st, Ok tt)
  else
    match joint_rhs self with
    | Raise e => (st, Raise e)
    | Ok rhs =>
        if Nat.eqb (length rhs) 0 then (st, Ok tt)
        else
          let X := construct_rhs G (indicators G) rhs in
          if Nat.eqb (ncols X) 0 then (emit [LogMsg "No columns, skipping"] st, Ok tt)
          else
            match joint_posterior G self var rhs X (the_world st) with
            | (w', Raise e) => ({| the_world := w'; trace := trace st |}, Raise e)
            | (w', Ok (cov, mean)) =>
                let st' := {| the_world := w'; trace := trace st |} in
                match mvn_sample mean cov with
                | Raise _ => update_separately_after_failure self st'
                | Ok value => (emit (assign_joint G self rhs value) st', Ok tt)
                end
            end
    end.

(** The updates of other variables that a call has triggered. *)
Definition updates_of (tr : list event) : list event :=
  List.filter (fun ev => match ev with
                         | LogMsg _ => false
                         | _ => true
                         end) tr.

(** C5 (as amended). With joint updating switched on and interactions and
    perturbations both past their delay: if the combined design matrix has no
    column the call only logs and returns, updating nothing; if the joint
    posterior was formed and the draw fails, the call falls back to the
    separate updates, perturbations first and interactions second. *)
Theorem joint_update_fallbacks (G : Graph) (self : RegressCoeff) (pm : Sampler)
    (var : variable) (u : R) (st : state) :
  update_jointly_pert_inter self = true ->
  _there_are_perturbations self = true ->
  pert_mag self = Some pm ->
  (delay (interactions self) <= sample_iter (interactions self))%Z ->
  (delay pm <= sample_iter pm)%Z ->
  let rhs := [CLUSTER_INTERACTION_VALUE; PERT_VALUE] in
  let X := construct_rhs G (indicators G) rhs in
  (ncols X = 0%nat ->
   _update_perts_and_inter G self var u st
     = (emit [LogMsg "No columns, skipping"] st, Ok tt)) /\
  (ncols X <> 0%nat ->
   forall (w' : world) (cov : dense) (mean : list R) (e : exn),
     joint_posterior G self var rhs X (the_world st) = (w', Ok (cov, mean)) ->
     mvn_sample mean cov = Raise e ->
     _update_perts_and_inter G self var u st
       = ({| the_world := w';
             trace := List.app
                        (List.app (trace st)
                                  [LogMsg "failed here, updating separately"])
                        [PertsUpdate; InteractionsUpdate] |}, Ok tt)).
Proof.
  intros Hjoint Hpert Hpm Hi Hp rhs X.
  assert (Hrhs : joint_rhs self = Ok rhs).
  { unfold joint_rhs. rewrite Hpert, Hpm.
    apply Z.leb_le in Hi, Hp. rewrite Hi, Hp. reflexivity. }
  unfold _update_perts_and_inter. rewrite Hjoint, Hrhs. cbn [negb length Nat.eqb].
  fold rhs. fold X. split.
  - intros Hcols. rewrite Hcols. reflexivity.
  - intros Hcols w' cov mean e Hpost Hsample.
    apply Nat.eqb_neq in Hcols. rewrite Hcols, Hpost, Hsample.
    unfold update_separately_after_failure. rewrite Hpm. reflexivity.
Qed.

End Update.

(** One interaction and one perturbation, both switched off: the joint
    design matrix has no column. *)
Definition quiet_graph : Graph :=
  {| n_asvs := 2;
     prior_var_growth := 1; prior_var_self_interactions := 1;
     prior_var_interactions := 1;
     prior_mean_growth := 0; prior_mean_self_interactions := 0;
     prior_mean_interactions := 0;
     indicators := [false];
     perturbations :=
       Some [{| num_on_clusters := 0; magnitude_prior_var := 1;
                magnitude_prior_mean := 0 |}];
     process_var_diag := [1; 1];
     construct_lhs := fun _ => zeros 2 1;
     construct_rhs := fun ind _ =>
       zeros 2 (length (List.filter (fun b => b) ind)) |}.

(** One interaction and one perturbation, both switched on: two columns. *)
Definition active_graph : Graph :=
  {| n_asvs := 2;
     prior_var_growth := 1; prior_var_self_interactions := 1;
     prior_var_interactions := 1;
     prior_mean_growth := 0; prior_mean_self_interactions := 0;
     prior_mean_interactions := 0;
     indicators := [true];
     perturbations :=
       Some [{| num_on_clusters := 1; magnitude_prior_var := 1;
                magnitude_prior_mean := 0 |}];
     process_var_diag := [1; 1];
     construct_lhs := fun _ => zeros 2 1;
     construct_rhs := fun _ _ => diag [1; 1] |}.

Definition joint_self : RegressCoeff :=
  {| update_jointly_pert_inter := true;
     update_jointly_growth_si := false;
     rc_sample_iter := 5;
     _there_are_perturbations := true;
     interactions := {| sample_iter := 5; delay := 2 |};
     pert_mag := Some {| sample_iter := 5; delay := 2 |} |}.

Definition start : state := {| the_world := empty_world; trace := [] |}.

(** A stand-in inverse (it returns its argument) and a draw that fails. *)
Definition echo (M : dense) : result dense := Ok M.
Definition failing_draw (mean : list R) (cov : dense) : result (list R) :=
  Raise (LinAlgError 9).

(** Jointly configured, both past their delay, no active column: the call
    returns without a single update of interactions or perturbations. *)
Lemma joint_update_zero_columns_counterexample :
  let out := _update_perts_and_inter echo echo echo failing_draw quiet_graph
               joint_self sample_var 0 start in
  snd out = Ok tt /\
  ~ In InteractionsUpdate (trace (fst out)) /\
  ~ In PertsUpdate (trace (fst out)).
Proof.
  cbn. split; [reflexivity |].
  split; intros [H | []]; discriminate H.
Qed.

Lemma joint_update_fallbacks_witness :
  snd (_update_perts_and_inter echo echo echo failing_draw active_graph
         joint_self sample_var 0 start) = Ok tt /\
  updates_of (trace (fst (_update_perts_and_inter echo echo echo failing_draw
                            active_graph joint_self sample_var 0 start)))
    = [PertsUpdate; InteractionsUpdate].
Proof.
  destruct (joint_update_fallbacks echo echo echo failing_draw active_graph
              joint_self {| sample_iter := 5; delay := 2 |} sample_var 0 start
              eq_refl eq_refl eq_refl) as [_ Hfail]; [cbn; lia | cbn; lia |].
  erewrite Hfail; [split; reflexivity | cbn; lia | reflexivity | reflexivity].
Defined.

End RegressCoeff.

(** ** Cluster assignments with worker processes *)

Module ClusterAssignments.
Import Py PyVal.

Section UpdateMp.

(** The sampler's state, and the body of [update_mp] after its opening
    check: setting up the workers and sweeping over the taxa. *)
Variable state : Type.
Variable sweep_with_workers : state -> state * result unit.

(** [policy] is [G.data.zero_inflation_transition_policy]. *)
Definition update_mp (policy : option string) (st : state) : state * result unit :=
  match policy with
  | Some _ => (st, Raise NotImplementedError)
  | None => sweep_with_workers st
  end.

End UpdateMp.

(** C6. Asking [RegressCoeff.initialize] for a joint growth and
    self-interaction update never returns normally, and raises
    [NotImplementedError] whenever the other flag is a boolean; the
    multiprocessing cluster update raises [NotImplementedError], leaving the
    sampler untouched, whenever a zero-inflation transition policy is set. *)
Theorem unimplemented_combinations_raise :
  (forall (self : RegressCoeff.RegressCoeff) (G : Marginal.Graph)
          (update_jointly_pert_inter : value),
     snd (RegressCoeff.initialize self G update_jointly_pert_inter (VBool true))
       <> Ok tt /\
     (isbool update_jointly_pert_inter = true ->
      snd (RegressCoeff.initialize self G update_jointly_pert_inter (VBool true))
        = Raise NotImplementedError)) /\
  (forall (state : Type) (sweep : state -> state * result unit)
          (policy : string) (st : state),
     update_mp state sweep (Some policy) st = (st, Raise NotImplementedError)).
Proof.
  split.
  - intros self G pert_inter. unfold RegressCoeff.initialize.
    destruct pert_inter; cbn; split; try discriminate; reflexivity.
  - intros state sweep policy st. reflexivity.
Qed.

Lemma unimplemented_combinations_raise_witness :
  snd (RegressCoeff.initialize RegressCoeff.joint_self RegressCoeff.quiet_graph
         (VBool false) (VBool true)) = Raise NotImplementedError /\
  update_mp nat (fun n => (S n, Ok tt)) (Some "ignore"%string) 0%nat
    = (0%nat, Raise NotImplementedError).
Proof.
  destruct unimplemented_combinations_raise as [Hinit Hmp]. split.
  - apply (Hinit RegressCoeff.joint_self RegressCoeff.quiet_graph (VBool false)).
    reflexivity.
  - apply (Hmp nat (fun n => (S n, Ok tt)) "ignore"%string 0%nat).
Defined.

End ClusterAssignments.

(** ** Model-comparison tool: root-mean-square errors *)

Module PlotTool.
Import Py.

(** A trajectory: one row per timepoint, one column per taxon. *)
Definition array : Type := list (list R).

(** [tr /= tr.sum(axis=1, keepdims=True)] *)
Definition normalize_rows (tr : array) : array :=
  List.map (fun row => let s := Np.sum row in List.map (fun v => v / s) row) tr.

(** [a - b] on arrays of the same shape; other shapes raise. *)
Fixpoint sub1 (a b : list R) : result (list R) :=
  match a, b with
  | [], [] => Ok []
  | x :: a', y :: b' => bind (sub1 a' b') (fun r => Ok ((x - y) :: r))
  | _, _ => Raise ValueError
  end.

Fixpoint sub2 (A B : array) : result array :=
  match A, B with
  | [], [] => Ok []
  | a :: A', b :: B' =>
      bind (sub1 a b) (fun r => bind (sub2 A' B') (fun R' => Ok (r :: R')))
  | _, _ => Raise ValueError
  end.

(** [np.mean] over every entry. *)
Definition mean (A : array) : R :=
  Np.sum (List.concat A) / INR (length (List.concat A)).

Definition square2 (A : array) : array := List.map Np.square A.

(** [np.sqrt(np.mean(np.square(tr[1:] - pred[1:])))] *)
Definition rmse_of (tr pred : array) : result R :=
  bind (sub2 (List.tl tr) (List.tl pred)) (fun d => Ok (sqrt (mean (square2 d)))).

Definition str_of_nat (i : nat) : string :=
  NilZero.string_of_int (Z.to_int (Z.of_nat i)).

(** The cached prediction read for replicate [i]. *)
Definition prediction_file (dataset : string) (i : nat) (model : string) : string :=
  if String.eqb dataset "stein"
  then ("tmp/" ++ dataset ++ "_prediction_parameters-" ++ str_of_nat i ++ "-" ++ model)%string
  else ("tmp/" ++ dataset ++ "_predictions-" ++ str_of_nat i ++ "-" ++ model)%string.

Section Tool.

(** [pkl.load(open(name, "rb"))]: the unpickled sequence, whose first item
    is the predicted trajectory. *)
Variable pkl_load : string -> result (list array).

Definition load_prediction (dataset : string) (i : nat) (model : string)
  : result array :=
  bind (pkl_load (prediction_file dataset i model)) (fun pred => Np.getitem pred 0).

(** [compute_rmses] from replicate [i] on.  The arrays of [truth] are
    normalised in place, so the list is handed back as the call leaves it,
    also when the call raises part-way. *)
Fixpoint compute_rmses_from (dataset model : string) (i : nat) (truth : list array)
  : list array * result (list R) :=
  match truth with
  | [] => ([], Ok [])
  | tr :: rest =>
      let tr' := normalize_rows tr in
      match bind (load_prediction dataset i model) (rmse_of tr') with
      | Raise e => (tr' :: rest, Raise e)
      | Ok r =>
          match compute_rmses_from dataset model (S i) rest with
          | (rest', Ok rs) => (tr' :: rest', Ok (r :: rs))
          | (rest', Raise e) => (tr' :: rest', Raise e)
          end
      end
  end.

Definition compute_rmses (dataset model : string) (truth : list array)
  : list array * result (list R) :=
  compute_rmses_from dataset model 0 truth.

(** The constant forecast: the first timepoint repeated. *)
Definition static_prediction (tr : array) : array :=
  List.repeat (List.hd [] tr) (length tr).

Fixpoint compute_rmse_static (truth : list array) : result (list R) :=
  match truth with
  | [] => Ok []
  | tr :: rest =>
      bind (rmse_of tr (static_prediction tr)) (fun r =>
      bind (compute_rmse_static rest) (fun rs => Ok (r :: rs)))
  end.

Definition models : list string := ["clv"; "glv"; "glv-ra"; "alr"; "lra"]%string.

(** The loop over the models in [plot_model_comparison], all on the same
    list [Y]. *)
Fixpoint run_models (dataset : string) (ms : list string) (Y : list array)
    (results : list (string * R)) : list array * result (list (string * R)) :=
  match ms with
  | [] => (Y, Ok results)
  | m :: ms' =>
      match compute_rmses dataset m Y with
      | (Y', Ok rs) =>
          run_models dataset ms' Y' (List.app results (List.map (pair m) rs))
      | (Y', Raise e) => (Y', Raise e)
      end
  end.

(** The [results] table of one dataset: the five models, then the constant
    baseline under the name [initial]. *)
Definition dataset_results (dataset : string) (Y : list array)
  : list array * result (list (string * R)) :=
  match run_models dataset models Y [] with
  | (Y', Ok results) =>
      match compute_rmse_static Y' with
      | Ok rs => (Y', Ok (List.app results (List.map (pair "initial"%string) rs)))
      | Raise e => (Y', Raise e)
      end
  | (Y', Raise e) => (Y', Raise e)
  end.

End Tool.

(** *** The error as the specification words it *)

Definition entry (A : array) (t j : nat) : R :=
  List.nth j (List.nth t A []) 0.

(** Root of the mean, over the timepoints after the first and over all
    taxa, of the squared difference between truth and prediction. *)
Definition spec_rmse (truth pred : array) : R :=
  let T := length truth in
  let n := length (List.hd [] truth) in
  sqrt (Np.sum (List.map
                  (fun t => Np.sum (List.map
                                      (fun j => (entry truth t j - entry pred t j) ^ 2)
                                      (List.seq 0 n)))
                  (List.seq 1 (T - 1)))
        / INR ((T - 1) * n)).

(** Shape of a NumPy array: [T] rows of [n] entries each. *)
Definition has_shape (A : array) (T n : nat) : Prop :=
  length A = T /\ Forall (fun row => length row = n) A.

(** *** Sums over lists and over indices *)

Lemma sum_seq_shift (f : nat -> R) (a n : nat) :
  Np.sum (List.map f (List.seq (S a) n)) =
  Np.sum (List.map (fun i => f (S i)) (List.seq a n)).
Proof. rewrite <- seq_shift, List.map_map. reflexivity. Qed.

Lemma sum_cons (x : R) (a : list R) : Np.sum (x :: a) = x + Np.sum a.
Proof. reflexivity. Qed.

Lemma sum_nil : Np.sum [] = 0.
Proof. reflexivity. Qed.

Lemma sum_app (a b : list R) : Np.sum (List.app a b) = Np.sum a + Np.sum b.
Proof.
  induction a as [| x a IH].
  - rewrite sum_nil. cbn [List.app]. ring.
  - cbn [List.app]. rewrite !sum_cons, IH. ring.
Qed.

Lemma sub1_rows (a : list R) :
  forall b : list R, length a = length b ->
  exists d : list R,
    sub1 a b = Ok d /\ length d = length a /\
    Np.sum (Np.square d) =
      Np.sum (List.map (fun j => (List.nth j a 0 - List.nth j b 0) ^ 2)
                       (List.seq 0 (length a))).
Proof.
  induction a as [| x a IH]; intros [| y b] Hlen; try discriminate.
  - exists []. repeat split.
  - injection Hlen as Hlen. destruct (IH b Hlen) as (d & Hd & Hl & Hs).
    exists ((x - y) :: d). cbn [sub1]. rewrite Hd. cbn [bind].
    split; [reflexivity |]. split; [cbn; congruence |].
    unfold Np.square in Hs |- *.
    cbn [length List.seq List.map]. rewrite !sum_cons, sum_seq_shift.
    cbn [List.nth]. rewrite Hs. ring.
Qed.

Lemma sub2_arrays (A : array) :
  forall (B : array) (n : nat),
    has_shape A (length A) n -> has_shape B (length A) n ->
    exists D : array,
      sub2 A B = Ok D /\
      length (List.concat (square2 D)) = (length A * n)%nat /\
      Np.sum (List.concat (square2 D)) =
        Np.sum (List.map
                  (fun t => Np.sum (List.map
                                      (fun j => (entry A t j - entry B t j) ^ 2)
                                      (List.seq 0 n)))
                  (List.seq 0 (length A))).
Proof.
  induction A as [| a A IH]; intros [| b B] n [_ HA] [HlB HB]; try discriminate.
  - exists []. repeat split.
  - injection HlB as HlB.
    apply Forall_cons_iff in HA as [Ha HA]. apply Forall_cons_iff in HB as [Hb HB].
    destruct (sub1_rows a b) as (d & Hd & Hld & Hsd); [congruence |].
    destruct (IH B n) as (D & HD & HlD & HsD); [split; auto | split; auto |].
    exists (d :: D). cbn [sub2]. rewrite Hd. cbn [bind]. rewrite HD. cbn [bind].
    split; [reflexivity |].
    cbn [square2 List.map List.concat]. fold (square2 D). split.
    + rewrite length_app. unfold Np.square at 1. rewrite length_map, HlD, Hld, Ha.
      cbn [length]. lia.
    + rewrite sum_app, HsD, Hsd, Ha.
      cbn [length List.seq List.map]. rewrite sum_cons, sum_seq_shift.
      reflexivity.
Qed.

Lemma entry_tl (A : array) (t j : nat) :
  entry (List.tl A) t j = entry A (S t) j.
Proof. destruct A as [| a A]; [destruct t; reflexivity | reflexivity]. Qed.

Lemma has_shape_tl (A : array) (T n : nat) :
  has_shape A T n -> has_shape (List.tl A) (length (List.tl A)) n.
Proof.
  intros [_ HA]. split; [reflexivity |].
  destruct A as [| a A]; [constructor |].
  apply Forall_cons_iff in HA as [_ HA]. exact HA.
Qed.

Lemma length_tl {A : Type} (l : list A) : length (List.tl l) = (length l - 1)%nat.
Proof. destruct l; cbn; lia. Qed.

(** A NumPy array with at least one row: every row as long as the first. *)
Definition rectangular (tr : array) : Prop :=
  (1 <= length tr)%nat /\
  Forall (fun row => length row = length (List.hd [] tr)) tr.

(** [P] has the shape of [tr]. *)
Definition fits (P tr : array) : Prop :=
  has_shape P (length tr) (length (List.hd [] tr)).

(** The code's error is the specification's on arrays of one shape. *)
Lemma rmse_of_spec (tr pred : array) :
  rectangular tr -> fits pred tr -> rmse_of tr pred = Ok (spec_rmse tr pred).
Proof.
  intros [Hlen Hrect] [HlP HP].
  set (n := length (List.hd [] tr)) in *.
  assert (Htr : has_shape tr (length tr) n) by (split; [reflexivity | exact Hrect]).
  assert (Hp : has_shape pred (length tr) n) by (split; assumption).
  pose proof (has_shape_tl _ _ _ Htr) as Htl.
  assert (Hptl : has_shape (List.tl pred) (length (List.tl tr)) n).
  { destruct (has_shape_tl _ _ _ Hp) as [_ H]. split; [| exact H].
    rewrite !length_tl. congruence. }
  destruct (sub2_arrays (List.tl tr) (List.tl pred) n Htl Hptl)
    as (D & HD & HlD & HsD).
  unfold rmse_of. rewrite HD. cbn [bind]. f_equal.
  unfold spec_rmse, mean. fold n. rewrite HlD, HsD, length_tl.
  rewrite sum_seq_shift. f_equal. f_equal. f_equal.
  apply List.map_ext. intros t. f_equal. apply List.map_ext. intros j.
  rewrite !entry_tl. reflexivity.
Qed.

(** *** Normalisation *)

Lemma sum_map_div (row : list R) (s : R) :
  Np.sum (List.map (fun v => v / s) row) = Np.sum row / s.
Proof.
  induction row as [| x row IH]; cbn [List.map].
  - rewrite sum_nil. unfold Rdiv. ring.
  - rewrite !sum_cons, IH. unfold Rdiv. ring.
Qed.

Lemma normalize_rows_length (tr : array) :
  length (normalize_rows tr) = length tr.
Proof. apply length_map. Qed.

Lemma normalize_rows_hd_length (tr : array) :
  length (List.hd [] (normalize_rows tr)) = length (List.hd [] tr).
Proof. destruct tr as [| row tr]; [reflexivity |]. cbn. apply length_map. Qed.

Lemma normalize_rows_rectangular (tr : array) :
  rectangular tr -> rectangular (normalize_rows tr).
Proof.
  intros [Hlen Hrect]. split; [rewrite normalize_rows_length; exact Hlen |].
  rewrite normalize_rows_hd_length. unfold normalize_rows.
  apply List.Forall_map. eapply List.Forall_impl; [| exact Hrect].
  intros row Hrow. cbn. rewrite length_map. exact Hrow.
Qed.

Lemma fits_normalize_rows (P tr : array) :
  fits P tr -> fits P (normalize_rows tr).
Proof.
  unfold fits. rewrite normalize_rows_length, normalize_rows_hd_length. auto.
Qed.

(** Rows whose entries do not add up to zero. *)
Definition nonzero_rows (tr : array) : Prop :=
  Forall (fun row => Np.sum row <> 0) tr.

Lemma normalize_rows_nonzero (tr : array) :
  nonzero_rows tr -> nonzero_rows (normalize_rows tr).
Proof.
  unfold nonzero_rows, normalize_rows. intros H.
  apply List.Forall_map. eapply List.Forall_impl; [| exact H].
  intros row Hrow. cbn. rewrite sum_map_div.
  unfold Rdiv. rewrite Rinv_r by exact Hrow. lra.
Qed.

(** Normalising a second time changes nothing. *)
Lemma normalize_rows_idempotent (tr : array) :
  nonzero_rows tr -> normalize_rows (normalize_rows tr) = normalize_rows tr.
Proof.
  unfold nonzero_rows, normalize_rows. intros H.
  rewrite List.map_map. apply List.map_ext_in. intros row Hin.
  rewrite List.Forall_forall in H. specialize (H row Hin). cbn.
  rewrite sum_map_div. unfold Rdiv at 2. rewrite Rinv_r by exact H.
  rewrite List.map_map. apply List.map_ext. intros v. field. exact H.
Qed.

Section Results.

Variable pkl_load : string -> result (list array).
Variable dataset : string.

(** The trajectory unpickled for replicate [i] and [model]. *)
Definition prediction (i : nat) (model : string) : array :=
  match load_prediction pkl_load dataset i model with
  | Ok P => P
  | Raise _ => []
  end.

(** Ground truth that can be normalised: rectangular, rows not summing to
    zero. *)
Definition normalizable (tr : array) : Prop :=
  rectangular tr /\ nonzero_rows tr.

(** Every cached prediction is there and has the shape of its truth. *)
Definition predictions_fit (model : string) (i : nat) (truth : list array) : Prop :=
  forall (k : nat) (tr : array),
    nth_error truth k = Some tr ->
    exists P : array,
      load_prediction pkl_load dataset (i + k) model = Ok P /\ fits P tr.

(** The errors of one model, replicate by replicate from index [i] on,
    against the normalised truth. *)
Fixpoint spec_rmses_from (model : string) (i : nat) (truth : list array) : list R :=
  match truth with
  | [] => []
  | tr :: rest =>
      spec_rmse (normalize_rows tr) (prediction i model)
      :: spec_rmses_from model (S i) rest
  end.

Lemma compute_rmses_from_spec (model : string) (truth : list array) :
  forall i : nat,
    Forall rectangular truth ->
    predictions_fit model i truth ->
    compute_rmses_from pkl_load dataset model i truth
      = (List.map normalize_rows truth, Ok (spec_rmses_from model i truth)).
Proof.
  induction truth as [| tr rest IH]; intros i Hwf Hfit; [reflexivity |].
  apply Forall_cons_iff in Hwf as [Hrect Hwf].
  destruct (Hfit 0%nat tr eq_refl) as (P & HP & HfitP).
  rewrite Nat.add_0_r in HP.
  cbn [compute_rmses_from spec_rmses_from List.map].
  rewrite HP. cbn [bind].
  rewrite (rmse_of_spec (normalize_rows tr) P)
    by (auto using normalize_rows_rectangular, fits_normalize_rows).
  rewrite (IH (S i) Hwf).
  - unfold prediction. rewrite HP. reflexivity.
  - intros k tr' Hk. destruct (Hfit (S k) tr' Hk) as (P' & HP' & Hf').
    exists P'. split; [| exact Hf'].
    replace (S i + k)%nat with (i + S k)%nat by lia. exact HP'.
Qed.

Lemma spec_rmses_from_normalized (model : string) (truth : list array) :
  forall i : nat,
    Forall normalizable truth ->
    spec_rmses_from model i (List.map normalize_rows truth)
      = spec_rmses_from model i truth.
Proof.
  induction truth as [| tr rest IH]; intros i Hwf; [reflexivity |].
  apply Forall_cons_iff in Hwf as [[_ Hnz] Hwf].
  cbn [List.map spec_rmses_from].
  rewrite normalize_rows_idempotent by exact Hnz. rewrite IH by exact Hwf.
  reflexivity.
Qed.

Lemma normalizable_normalized (truth : list array) :
  Forall normalizable truth -> Forall normalizable (List.map normalize_rows truth).
Proof.
  intros H. apply List.Forall_map. eapply List.Forall_impl; [| exact H].
  intros tr [Hr Hn]. split;
    auto using normalize_rows_rectangular, normalize_rows_nonzero.
Qed.

Lemma normalized_twice (truth : list array) :
  Forall normalizable truth ->
  List.map normalize_rows (List.map normalize_rows truth)
    = List.map normalize_rows truth.
Proof.
  intros H. rewrite List.map_map. apply List.map_ext_in. intros tr Hin.
  rewrite List.Forall_forall in H. destruct (H tr Hin) as [_ Hn].
  apply normalize_rows_idempotent. exact Hn.
Qed.

Lemma predictions_fit_normalized (model : string) (i : nat) (truth : list array) :
  predictions_fit model i truth ->
  predictions_fit model i (List.map normalize_rows truth).
Proof.
  intros Hfit k tr Hk. rewrite nth_error_map in Hk.
  destruct (nth_error truth k) as [tr0 |] eqn:E; [| discriminate].
  injection Hk as <-. destruct (Hfit k tr0 E) as (P & HP & Hf).
  exists P. split; [exact HP | apply fits_normalize_rows, Hf].
Qed.

Lemma normalizable_rectangular (truth : list array) :
  Forall normalizable truth -> Forall rectangular truth.
Proof. apply List.Forall_impl. intros tr [Hr _]. exact Hr. Qed.

(** The model loop: the shared truth ends up normalised once, and every
    model is scored against that normalised truth. *)
Lemma run_models_spec (ms : list string) :
  forall (Y : list array) (results : list (string * R)),
    Forall normalizable Y ->
    (forall m, In m ms -> predictions_fit m 0 Y) ->
    run_models pkl_load dataset ms Y results
      = (match ms with [] => Y | _ :: _ => List.map normalize_rows Y end,
         Ok (List.app results
               (List.flat_map
                  (fun m => List.map (pair m) (spec_rmses_from m 0 Y)) ms))).
Proof.
  induction ms as [| m ms IH]; intros Y results Hwf Hfit.
  - cbn. rewrite List.app_nil_r. reflexivity.
  - cbn [run_models]. unfold compute_rmses.
    rewrite compute_rmses_from_spec
      by (auto using normalizable_rectangular; apply Hfit; left; reflexivity).
    rewrite IH.
    + f_equal.
      * destruct ms; [reflexivity | apply normalized_twice, Hwf].
      * f_equal. cbn [List.flat_map]. rewrite <- List.app_assoc. f_equal. f_equal.
        apply List.flat_map_ext. intros m'.
        rewrite spec_rmses_from_normalized by exact Hwf. reflexivity.
    + apply normalizable_normalized, Hwf.
    + intros m' Hin. apply predictions_fit_normalized, Hfit. right. exact Hin.
Qed.

Lemma static_prediction_fits (tr : array) : rectangular tr -> fits (static_prediction tr) tr.
Proof.
  intros [Hlen Hrect]. unfold fits, static_prediction. split.
  - apply repeat_length.
  - apply List.Forall_forall. intros row Hin.
    apply List.repeat_spec in Hin. subst row. reflexivity.
Qed.

Lemma compute_rmse_static_spec (truth : list array) :
  Forall rectangular truth ->
  compute_rmse_static truth
    = Ok (List.map (fun tr => spec_rmse tr (static_prediction tr)) truth).
Proof.
  induction truth as [| tr rest IH]; intros Hwf; [reflexivity |].
  apply Forall_cons_iff in Hwf as [Hrect Hwf].
  cbn [compute_rmse_static List.map].
  rewrite rmse_of_spec by (auto using static_prediction_fits).
  cbn [bind]. rewrite IH by exact Hwf. reflexivity.
Qed.

Lemma sum_zeros {A : Type} (l : list A) : Np.sum (List.map (fun _ => 0) l) = 0.
Proof.
  induction l as [| x l IH]; [reflexivity |].
  cbn [List.map]. rewrite sum_cons, IH. ring.
Qed.

(** A prediction equal to the truth has error exactly zero. *)
Lemma spec_rmse_self (A : array) : spec_rmse A A = 0.
Proof.
  unfold spec_rmse.
  rewrite (List.map_ext _ (fun _ => 0)).
  - rewrite sum_zeros. unfold Rdiv. rewrite Rmult_0_l. apply sqrt_0.
  - intros t. rewrite (List.map_ext _ (fun _ => 0)); [apply sum_zeros |].
    intros j. ring.
Qed.

Lemma static_prediction_row (tr : array) (t : nat) :
  (t < length tr)%nat -> List.nth t (static_prediction tr) [] = List.hd [] tr.
Proof.
  intros Ht. unfold static_prediction.
  apply List.nth_repeat_lt. exact Ht.
Qed.

(** The table of one dataset in terms of the arrays the code handles. *)
Lemma dataset_results_arrays (Y : list array) :
  Forall normalizable Y ->
  (forall m, In m models -> predictions_fit m 0 Y) ->
  dataset_results pkl_load dataset Y
    = (List.map normalize_rows Y,
       Ok (List.app
             (List.flat_map
                (fun m => List.map (pair m) (spec_rmses_from m 0 Y)) models)
             (List.map
                (fun tr => ("initial"%string,
                            spec_rmse (normalize_rows tr)
                                      (static_prediction (normalize_rows tr))))
                Y))).
Proof.
  intros Hwf Hfit. unfold dataset_results.
  rewrite (run_models_spec models Y [] Hwf Hfit).
  change (match models with [] => Y | _ :: _ => List.map normalize_rows Y end)
    with (List.map normalize_rows Y).
  rewrite compute_rmse_static_spec
    by (apply normalizable_rectangular, normalizable_normalized, Hwf).
  cbn [List.app]. rewrite !List.map_map. reflexivity.
Qed.

(** *** The statement in the specification's words *)

(** Relative abundance of taxon [j] at timepoint [t]: its entry over the
    total of that timepoint. *)
Definition relative_abundance (tr : array) (t j : nat) : R :=
  entry tr t j / Np.sum (List.nth t tr []).

(** The ground truth in relative abundance, timepoint by timepoint. *)
Definition relative (tr : array) : array :=
  List.map (fun t => List.map (fun j => relative_abundance tr t j)
                              (List.seq 0 (length (List.hd [] tr))))
           (List.seq 0 (length tr)).

(** Root of the mean, over the timepoints after the first and over all
    taxa, of the squared difference between the truth in relative abundance
    and the prediction [pred t j]. *)
Definition rmse_in_words (tr : array) (pred : nat -> nat -> R) : R :=
  let T := length tr in
  let n := length (List.hd [] tr) in
  sqrt (Np.sum (List.map
                  (fun t => Np.sum (List.map
                                      (fun j => (relative_abundance tr t j - pred t j) ^ 2)
                                      (List.seq 0 n)))
                  (List.seq 1 (T - 1)))
        / INR ((T - 1) * n)).

(** [enumerate(truth)] *)
Definition enumerate {A : Type} (l : list A) : list (nat * A) :=
  List.combine (List.seq 0 (length l)) l.

(** Ground truth the tool can score: at least two timepoints and one taxon,
    every timepoint with as many taxa as the first, no timepoint with total
    zero. *)
Definition well_formed (tr : array) : Prop :=
  (2 <= length tr)%nat /\
  (1 <= length (List.hd [] tr))%nat /\
  Forall (fun row => length row = length (List.hd [] tr)) tr /\
  Forall (fun row => Np.sum row <> 0) tr.

Lemma well_formed_normalizable (tr : array) : well_formed tr -> normalizable tr.
Proof.
  intros (HT & _ & Hrect & Hnz). split; [split; [lia | exact Hrect] | exact Hnz].
Qed.

Lemma entry_normalize_rows (tr : array) (t j : nat) :
  rectangular tr ->
  (t < length tr)%nat -> (j < length (List.hd [] tr))%nat ->
  entry (normalize_rows tr) t j = relative_abundance tr t j.
Proof.
  intros [_ Hrect] Ht Hj. unfold entry, relative_abundance, normalize_rows, entry.
  set (g := fun row : list R => let s := Np.sum row in List.map (fun v => v / s) row).
  change (@nil R) with (g []) at 1. rewrite List.map_nth.
  assert (Hrow : length (List.nth t tr []) = length (List.hd [] tr)).
  { rewrite List.Forall_forall in Hrect. apply Hrect, List.nth_In, Ht. }
  unfold g. cbv zeta.
  rewrite (List.nth_indep _ 0 (0 / Np.sum (List.nth t tr [])))
    by (rewrite length_map, Hrow; exact Hj).
  rewrite (List.map_nth (fun v => v / Np.sum (List.nth t tr []))). reflexivity.
Qed.

(** In-place normalisation leaves the truth in relative abundance. *)
Lemma normalize_rows_relative (tr : array) :
  rectangular tr -> normalize_rows tr = relative tr.
Proof.
  intros Hrect. pose proof Hrect as [_ Hrows].
  apply (List.nth_ext _ _ [] []).
  - unfold relative. rewrite normalize_rows_length, length_map, length_seq.
    reflexivity.
  - intros t Ht. rewrite normalize_rows_length in Ht.
    assert (Hrow : length (List.nth t tr []) = length (List.hd [] tr)).
    { rewrite List.Forall_forall in Hrows. apply Hrows, List.nth_In, Ht. }
    apply (List.nth_ext _ _ 0 0).
    + unfold relative, normalize_rows.
      set (g := fun row : list R =>
                  let s := Np.sum row in List.map (fun v => v / s) row).
      change (@nil R) with (g []) at 1. rewrite List.map_nth. unfold g. cbv zeta.
      rewrite length_map, Hrow.
      set (h := fun t0 => List.map (fun j => relative_abundance tr t0 j)
                            (List.seq 0 (length (List.hd [] tr)))).
      rewrite (List.nth_indep _ [] (h 0%nat))
        by (rewrite length_map, length_seq; exact Ht).
      rewrite (List.map_nth h), List.seq_nth by exact Ht. unfold h.
      rewrite length_map, length_seq. reflexivity.
    + intros j Hj.
      assert (Hj' : (j < length (List.hd [] tr))%nat).
      { unfold normalize_rows in Hj.
        set (g := fun row : list R =>
                    let s := Np.sum row in List.map (fun v => v / s) row) in Hj.
        change (@nil R) with (g []) in Hj at 1. rewrite List.map_nth in Hj.
        unfold g in Hj. cbv zeta in Hj. rewrite length_map, Hrow in Hj. exact Hj. }
      fold (entry (normalize_rows tr) t j).
      rewrite entry_normalize_rows by assumption.
      unfold relative.
      set (h := fun t0 => List.map (fun j => relative_abundance tr t0 j)
                            (List.seq 0 (length (List.hd [] tr)))).
      rewrite (List.nth_indep _ [] (h 0%nat))
        by (rewrite length_map, length_seq; exact Ht).
      rewrite (List.map_nth h), List.seq_nth by exact Ht. unfold h.
      rewrite (List.nth_indep _ 0 (relative_abundance tr t 0))
        by (rewrite length_map, length_seq; exact Hj').
      rewrite (List.map_nth (fun j0 => relative_abundance tr t j0)),
        List.seq_nth by exact Hj'.
      reflexivity.
Qed.

(** The error on arrays, against the normalised truth, is the error in the
    specification's words. *)
Lemma spec_rmse_in_words (tr Q : array) (pred : nat -> nat -> R) :
  rectangular tr ->
  (forall t j, (1 <= t < length tr)%nat -> (j < length (List.hd [] tr))%nat ->
               entry Q t j = pred t j) ->
  spec_rmse (normalize_rows tr) Q = rmse_in_words tr pred.
Proof.
  intros Hrect HQ. unfold spec_rmse, rmse_in_words.
  rewrite normalize_rows_length, normalize_rows_hd_length.
  f_equal. f_equal. f_equal.
  apply List.map_ext_in. intros t Ht. apply List.in_seq in Ht.
  f_equal. apply List.map_ext_in. intros j Hj. apply List.in_seq in Hj.
  rewrite entry_normalize_rows by (auto; lia).
  rewrite HQ by lia. reflexivity.
Qed.

Lemma static_prediction_entry (tr : array) (t j : nat) :
  (t < length tr)%nat -> entry (static_prediction tr) t j = entry tr 0 j.
Proof.
  intros Ht. unfold entry. rewrite static_prediction_row by exact Ht.
  destruct tr; reflexivity.
Qed.

Lemma in_enumerate_from {A : Type} (l : list A) :
  forall (a i : nat) (x : A),
    In (i, x) (List.combine (List.seq a (length l)) l) ->
    (a <= i)%nat /\ nth_error l (i - a) = Some x.
Proof.
  induction l as [| y l IH]; intros a i x Hin; [destruct Hin |].
  cbn [length List.seq List.combine] in Hin. destruct Hin as [E | Hin].
  - injection E as <- <-. rewrite Nat.sub_diag. split; [lia | reflexivity].
  - destruct (IH (S a) i x Hin) as [Hle Hnth]. split; [lia |].
    replace (i - a)%nat with (S (i - S a)) by lia. exact Hnth.
Qed.

Lemma flat_map_ext_in {A B : Type} (f g : A -> list B) (l : list A) :
  (forall a, In a l -> f a = g a) -> List.flat_map f l = List.flat_map g l.
Proof.
  induction l as [| a l IH]; intros H; [reflexivity |].
  cbn [List.flat_map]. rewrite (H a) by (left; reflexivity).
  rewrite IH by (intros a' Ha'; apply H; right; exact Ha'). reflexivity.
Qed.

Lemma spec_rmses_from_enumerate (model : string) (truth : list array) :
  forall i : nat,
    spec_rmses_from model i truth =
    List.map (fun it => spec_rmse (normalize_rows (snd it)) (prediction (fst it) model))
             (List.combine (List.seq i (length truth)) truth).
Proof.
  induction truth as [| tr rest IH]; intros i; [reflexivity |].
  cbn [spec_rmses_from length List.seq List.combine List.map fst snd].
  rewrite IH. reflexivity.
Qed.

(** A prediction that agrees with the truth in relative abundance from the
    second timepoint on has error zero. *)
Lemma rmse_in_words_same (tr : array) (pred : nat -> nat -> R) :
  (forall t j, (1 <= t < length tr)%nat -> (j < length (List.hd [] tr))%nat ->
               relative_abundance tr t j = pred t j) ->
  rmse_in_words tr pred = 0.
Proof.
  intros Hsame. unfold rmse_in_words.
  rewrite (List.map_ext_in _ (fun _ => 0)).
  - rewrite sum_zeros. unfold Rdiv. rewrite Rmult_0_l. apply sqrt_0.
  - intros t Ht. apply List.in_seq in Ht.
    rewrite (List.map_ext_in _ (fun _ => 0)); [apply sum_zeros |].
    intros j Hj. apply List.in_seq in Hj. rewrite Hsame by lia. ring.
Qed.

Lemma map_const {A B : Type} (c : B) (l : list A) :
  List.map (fun _ => c) l = List.repeat c (length l).
Proof. induction l as [| a l IH]; [reflexivity |]. cbn. rewrite IH. reflexivity. Qed.

(** C9. Let every replicate of the ground truth have at least two
    timepoints and one taxon, rows of one length and no timepoint with total
    zero, and let the pickle cached for each model and replicate, under
    [tmp/<dataset>_predictions-<i>-<model>] (for the dataset [stein]:
    [tmp/<dataset>_prediction_parameters-<i>-<model>]), hold first a
    prediction [P model i] of the replicate's shape.  Then the call
    succeeds, leaves the truth in relative abundance (every entry divided by
    the total of its timepoint), and its table lists, for each of the five
    models in turn and every replicate, the root of the mean over the
    timepoints after the first and over all taxa of the squared difference
    between the truth in relative abundance and the prediction, followed by
    the rows [initial], where the prediction at every timepoint is the
    first timepoint of the truth in relative abundance.  A model whose
    predictions agree with the truth in relative abundance from the second
    timepoint on is scored exactly [0] on every replicate. *)
Theorem rmse_results (Y : list array) (P : string -> nat -> array) :
  Forall well_formed Y ->
  (forall (m : string) (i : nat) (tr : array),
     In m models -> nth_error Y i = Some tr ->
     fits (P m i) tr /\
     exists rest : list array,
       pkl_load
         (if String.eqb dataset "stein"
          then "tmp/" ++ dataset ++ "_prediction_parameters-"
               ++ NilZero.string_of_int (Z.to_int (Z.of_nat i)) ++ "-" ++ m
          else "tmp/" ++ dataset ++ "_predictions-"
               ++ NilZero.string_of_int (Z.to_int (Z.of_nat i)) ++ "-" ++ m)%string
       = Ok (P m i :: rest)) ->
  dataset_results pkl_load dataset Y
    = (List.map relative Y,
       Ok (List.app
             (List.flat_map
                (fun m =>
                   List.map (fun it => (m, rmse_in_words (snd it)
                                             (entry (P m (fst it)))))
                            (enumerate Y))
                models)
             (List.map
                (fun tr => ("initial"%string,
                            rmse_in_words tr
                              (fun _ j => relative_abundance tr 0 j)))
                Y)))
  /\ (forall m : string,
        In m models ->
        (forall (i : nat) (tr : array) (t j : nat),
           nth_error Y i = Some tr ->
           (1 <= t < length tr)%nat -> (j < length (List.hd [] tr))%nat ->
           entry (P m i) t j = relative_abundance tr t j) ->
        snd (compute_rmses pkl_load dataset m Y) = Ok (List.repeat 0 (length Y))).
Proof.
  intros Hwf Hcache.
  assert (Hnorm : Forall normalizable Y).
  { eapply List.Forall_impl; [| exact Hwf]. apply well_formed_normalizable. }
  assert (Hload : forall m i tr, In m models -> nth_error Y i = Some tr ->
            load_prediction pkl_load dataset i m = Ok (P m i)).
  { intros m i tr Hm Hi. destruct (Hcache m i tr Hm Hi) as [_ [rest Hrest]].
    unfold load_prediction, prediction_file, str_of_nat.
    destruct (String.eqb dataset "stein"); rewrite Hrest; reflexivity. }
  assert (Hfit : forall m, In m models -> predictions_fit m 0 Y).
  { intros m Hm k tr Hk. exists (P m k). cbn [Nat.add]. split.
    - apply (Hload m k tr Hm Hk).
    - apply (Hcache m k tr Hm Hk). }
  assert (Hrow : forall m i tr, In m models ->
            In (i, tr) (List.combine (List.seq 0 (length Y)) Y) ->
            spec_rmse (normalize_rows tr) (prediction i m)
              = rmse_in_words tr (entry (P m i))).
  { intros m i tr Hm Hin.
    apply in_enumerate_from in Hin as [_ Hnth]. rewrite Nat.sub_0_r in Hnth.
    unfold prediction. rewrite (Hload m i tr Hm Hnth).
    apply spec_rmse_in_words; [| reflexivity].
    rewrite List.Forall_forall in Hnorm.
    apply (Hnorm tr), (nth_error_In _ _ Hnth). }
  split.
  - rewrite (dataset_results_arrays Y Hnorm Hfit). f_equal; [| f_equal; f_equal].
    + apply List.map_ext_in. intros tr Hin.
      rewrite List.Forall_forall in Hnorm.
      apply normalize_rows_relative, (Hnorm tr Hin).
    + apply flat_map_ext_in. intros m Hm.
      rewrite spec_rmses_from_enumerate, List.map_map. unfold enumerate.
      apply List.map_ext_in. intros [i tr] Hin. cbn [fst snd]. f_equal.
      apply (Hrow m i tr Hm Hin).
    + apply List.map_ext_in. intros tr Hin. f_equal.
      rewrite List.Forall_forall in Hnorm. destruct (Hnorm tr Hin) as [Hrect _].
      apply spec_rmse_in_words; [exact Hrect |].
      intros t j Ht Hj.
      rewrite static_prediction_entry by (rewrite normalize_rows_length; lia).
      apply entry_normalize_rows; [exact Hrect | lia | exact Hj].
  - intros m Hm Hsame. unfold compute_rmses.
    rewrite (compute_rmses_from_spec m Y 0%nat
               (normalizable_rectangular Y Hnorm) (Hfit m Hm)).
    cbn [snd]. f_equal. rewrite spec_rmses_from_enumerate.
    rewrite (List.map_ext_in _ (fun _ => 0)).
    + rewrite map_const, length_combine, length_seq, Nat.min_id. reflexivity.
    + intros [i tr] Hin. cbn [fst snd]. rewrite (Hrow m i tr Hm Hin).
      apply in_enumerate_from in Hin as [_ Hnth]. rewrite Nat.sub_0_r in Hnth.
      apply rmse_in_words_same. intros t j Ht Hj.
      symmetry. apply (Hsame i tr t j Hnth Ht Hj).
Qed.

End Results.

(** One replicate, two timepoints, two taxa, in absolute abundance. *)
Definition sample_truth : list array := [[[1; 3]; [2; 2]]].

(** The cache of the dataset [bucci_diet]: one pickle per model for replicate
    [0], each holding the truth in relative abundance; no other file. *)
Definition perfect_cache (name : string) : result (list array) :=
  if List.existsb (String.eqb name)
       ["tmp/bucci_diet_predictions-0-clv"; "tmp/bucci_diet_predictions-0-glv";
        "tmp/bucci_diet_predictions-0-glv-ra"; "tmp/bucci_diet_predictions-0-alr";
        "tmp/bucci_diet_predictions-0-lra"]%string
  then Ok [[[1 / 4; 3 / 4]; [1 / 2; 1 / 2]]]
  else Raise FileNotFoundError.

Definition perfect_prediction (m : string) (i : nat) : array :=
  [[1 / 4; 3 / 4]; [1 / 2; 1 / 2]].

Lemma sample_truth_well_formed : Forall well_formed sample_truth.
Proof.
  repeat constructor; cbn; lra.
Qed.

Lemma perfect_cache_holds (m : string) (i : nat) (tr : array) :
  In m models -> nth_error sample_truth i = Some tr ->
  fits (perfect_prediction m i) tr /\
  exists rest : list array,
    perfect_cache
      (if String.eqb "bucci_diet" "stein"
       then "tmp/" ++ "bucci_diet" ++ "_prediction_parameters-"
            ++ NilZero.string_of_int (Z.to_int (Z.of_nat i)) ++ "-" ++ m
       else "tmp/" ++ "bucci_diet" ++ "_predictions-"
            ++ NilZero.string_of_int (Z.to_int (Z.of_nat i)) ++ "-" ++ m)%string
    = Ok (perfect_prediction m i :: rest).
Proof.
  intros Hm Hi. destruct i as [| i]; [| destruct i; discriminate].
  injection Hi as <-. split.
  - split; [reflexivity | repeat constructor].
  - exists []. cbn in Hm.
    destruct Hm as [<- | [<- | [<- | [<- | [<- | []]]]]]; reflexivity.
Qed.

(** On the sample, the five models score [0] and the constant baseline
    [1/4]; the truth is left as [[1/4, 3/4], [1/2, 1/2]]. *)
Lemma rmse_results_witness :
  dataset_results perfect_cache "bucci_diet" sample_truth
    = ([[[1 / 4; 3 / 4]; [1 / 2; 1 / 2]]],
       Ok [("clv", 0); ("glv", 0); ("glv-ra", 0); ("alr", 0); ("lra", 0);
           ("initial", 1 / 4)]%string).
Proof.
  rewrite (proj1 (rmse_results perfect_cache "bucci_diet" sample_truth
                    perfect_prediction sample_truth_well_formed
                    perfect_cache_holds)).
  assert (Hzero : rmse_in_words [[1; 3]; [2; 2]]
                    (entry [[1 / 4; 3 / 4]; [1 / 2; 1 / 2]]) = 0).
  { unfold rmse_in_words, relative_abundance, entry, Np.sum.
    cbn [length List.hd List.seq List.map List.nth List.fold_right Nat.sub
         Nat.mul Nat.add INR].
    replace (_ / _) with 0 by (field_simplify; lra). apply sqrt_0. }
  assert (Hquarter : rmse_in_words [[1; 3]; [2; 2]]
                       (fun _ j => relative_abundance [[1; 3]; [2; 2]] 0 j) = 1 / 4).
  { unfold rmse_in_words, relative_abundance, entry, Np.sum.
    cbn [length List.hd List.seq List.map List.nth List.fold_right Nat.sub
         Nat.mul Nat.add INR].
    replace (_ / _) with ((1 / 4) * (1 / 4)) by (field_simplify; lra).
    apply sqrt_square. lra. }
  unfold sample_truth, enumerate, models, perfect_prediction.
  cbn [List.flat_map List.map List.app List.combine List.seq length fst snd].
  rewrite Hzero, Hquarter. f_equal.
  unfold relative, relative_abundance, entry, Np.sum.
  cbn [length List.hd List.seq List.map List.nth List.fold_right].
  replace (1 / (1 + (3 + 0))) with (1 / 4) by lra.
  replace (3 / (1 + (3 + 0))) with (3 / 4) by lra.
  replace (2 / (2 + (2 + 0))) with (1 / 2) by lra.
  reflexivity.
Defined.

End PlotTool.

(** * Further properties of the engine *)

(** ** Likelihood helpers *)

Module Likelihoods.
Import Py.

(** X1. For one observed count the full and the condensed negative-binomial
    log-likelihoods give the same Metropolis-Hastings log-ratio between any
    two valid parameter settings. *)
Theorem negbin_condensed_same_mh_ratio (lgamma : R -> R) (k : Z)
    (m1 d1 m2 d2 : R) :
  (0 <= k)%Z -> 0 < m1 -> 0 < d1 -> 0 < m2 -> 0 < d2 ->
  exists full1 full2 cond1 cond2 : R,
    Negbin.negbin_loglikelihood lgamma k m1 d1 = Ok full1 /\
    Negbin.negbin_loglikelihood lgamma k m2 d2 = Ok full2 /\
    Negbin.negbin_loglikelihood_MH_condensed lgamma k m1 d1 = Ok cond1 /\
    Negbin.negbin_loglikelihood_MH_condensed lgamma k m2 d2 = Ok cond2 /\
    full1 - full2 = cond1 - cond2.
Proof.
  intros Hk Hm1 Hd1 Hm2 Hd2.
  rewrite !Negbin.negbin_loglikelihood_valid,
          !Negbin.negbin_loglikelihood_MH_condensed_valid by assumption.
  do 4 eexists. repeat (split; [reflexivity |]). ring.
Qed.

Lemma negbin_condensed_same_mh_ratio_witness :
  exists full1 full2 cond1 cond2 : R,
    Negbin.negbin_loglikelihood (fun _ => 0) 3 2 1 = Ok full1 /\
    Negbin.negbin_loglikelihood (fun _ => 0) 3 5 2 = Ok full2 /\
    Negbin.negbin_loglikelihood_MH_condensed (fun _ => 0) 3 2 1 = Ok cond1 /\
    Negbin.negbin_loglikelihood_MH_condensed (fun _ => 0) 3 5 2 = Ok cond2 /\
    full1 - full2 = cond1 - cond2.
Proof.
  apply (negbin_condensed_same_mh_ratio (fun _ => 0) 3 2 1 5 2); lia || lra.
Defined.

(** The pure-Python twin of the condensed routine, used when the compiled
    one is unavailable. *)
Definition negbin_loglikelihood_MH_condensed_not_fast (lgamma : R -> R)
    (k : Z) (m dispersion : R) : result R :=
  bind (div 1 dispersion) (fun r =>
  let rm := r + m in
  bind (Negbin.math_lgamma lgamma (IZR k + r)) (fun lg_kr =>
  bind (Negbin.math_lgamma lgamma r) (fun lg_r =>
  bind (log r) (fun log_r =>
  bind (log rm) (fun log_rm =>
  bind (log m) (fun log_m =>
  bind (log rm) (fun log_rm' =>
  Ok (lg_kr - lg_r + r * (log_r - log_rm) + IZR k * (log_m - log_rm'))))))))).

(** X2. The interpreted likelihood routines never return a number for
    impossible parameters: a zero dispersion raises [ZeroDivisionError], and
    with a positive dispersion and a count [k >= 0] a mean [m <= 0] raises
    [ValueError]. *)
Theorem negbin_invalid_parameters_raise (lgamma : R -> R) (k : Z)
    (m dispersion : R) :
  (Negbin.negbin_loglikelihood lgamma k m 0 = Raise ZeroDivisionError /\
   negbin_loglikelihood_MH_condensed_not_fast lgamma k m 0
     = Raise ZeroDivisionError) /\
  ((0 <= k)%Z -> 0 < dispersion -> m <= 0 ->
   Negbin.negbin_loglikelihood lgamma k m dispersion = Raise ValueError /\
   negbin_loglikelihood_MH_condensed_not_fast lgamma k m dispersion
     = Raise ValueError).
Proof.
  split.
  - unfold Negbin.negbin_loglikelihood, negbin_loglikelihood_MH_condensed_not_fast,
      div.
    destruct (Req_dec_T 0 0) as [_ | H]; [split; reflexivity | contradiction].
  - intros Hk Hd Hm.
    assert (Hr : 0 < 1 / dispersion) by (apply Rdiv_lt_0_compat; lra).
    assert (Hk' : 0 <= IZR k) by (apply IZR_le in Hk; exact Hk).
    assert (Hlogm : log m = Raise ValueError).
    { unfold log. destruct (Rlt_dec 0 m); [lra | reflexivity]. }
    unfold Negbin.negbin_loglikelihood, negbin_loglikelihood_MH_condensed_not_fast.
    rewrite div_ok by lra. cbn [bind].
    rewrite !Negbin.math_lgamma_pos by lra. cbn [bind].
    rewrite (log_ok (1 / dispersion)) by lra. cbn [bind].
    assert (Hrm : log (1 / dispersion + m) = Ok (ln (1 / dispersion + m)) \/
                  log (1 / dispersion + m) = Raise ValueError).
    { unfold log. destruct (Rlt_dec 0 (1 / dispersion + m)); auto. }
    destruct Hrm as [E | E]; rewrite !E; cbn [bind]; rewrite ?Hlogm;
      split; reflexivity.
Qed.

Lemma negbin_invalid_parameters_raise_witness :
  Negbin.negbin_loglikelihood (fun _ => 0) 3 0 1 = Raise ValueError /\
  negbin_loglikelihood_MH_condensed_not_fast (fun _ => 0) 3 0 1 = Raise ValueError.
Proof.
  apply (proj2 (negbin_invalid_parameters_raise (fun _ => 0) 3 0 1)); lia || lra.
Defined.

(** X3. For a positive standard deviation, [_normal_logpdf] is the logarithm
    of the normal density [exp (- (v - m)^2 / (2 s^2)) / (s sqrt (2 pi))]. *)
Theorem _normal_logpdf_is_log_density (value mean std : R) :
  0 < std ->
  exp (Filter._normal_logpdf value mean std) =
    exp (- (value - mean) ^ 2 / (2 * (std * std))) / (std * sqrt (2 * PI)).
Proof.
  intros Hs. pose proof Filter.sqrt_2PI_pos as Hp.
  unfold Filter._normal_logpdf, Filter._LOG_INV_SQRT_2PI.
  unfold Rminus at 1. rewrite !exp_plus, exp_Ropp.
  rewrite exp_ln by (apply Rdiv_lt_0_compat; lra).
  rewrite exp_ln by exact Hs.
  replace (-0.5 * ((value - mean) / std) ^ 2)
    with (- (value - mean) ^ 2 / (2 * (std * std)))
    by (replace (-0.5) with (- (1 / 2)) by lra; field; lra).
  field. split; lra.
Qed.

Lemma _normal_logpdf_is_log_density_witness :
  exp (Filter._normal_logpdf 1 0 2) =
    exp (- (1 - 0) ^ 2 / (2 * (2 * 2))) / (2 * sqrt (2 * PI)).
Proof. apply (_normal_logpdf_is_log_density 1 0 2). lra. Defined.

End Likelihoods.

(** ** Bounds on the expected number of clusters *)

Module ClusterCount.
Import Clusters.

Lemma ln_le_mono (a b : R) : 0 < a -> a <= b -> ln a <= ln b.
Proof.
  intros Ha [Hlt | ->]; [left; apply ln_increasing; assumption | right; reflexivity].
Qed.

Lemma ln_1_plus_le (t : R) : 0 <= t -> 0 <= ln (1 + t) <= t.
Proof.
  intros Ht. split.
  - rewrite <- ln_1. apply ln_le_mono; lra.
  - apply Rle_trans with (ln (exp t)); [| rewrite ln_exp; lra].
    apply ln_le_mono; [lra | apply exp_ineq1_le].
Qed.

Lemma expected_n_clusters_alt (G : GraphView) :
  0 < concentration_prior_mean G ->
  expected_n_clusters G =
    concentration_prior_mean G *
    ln (1 + INR (n_asvs G) / concentration_prior_mean G).
Proof.
  intros Hc. unfold expected_n_clusters. cbv zeta. f_equal. f_equal. field. lra.
Qed.

(** X4. For a positive prior mean of the concentration, the expected number
    of clusters lies between [0] and the number of taxa, and does not
    decrease when taxa are added. *)
Theorem expected_n_clusters_bounds (G G' : GraphView) :
  0 < concentration_prior_mean G ->
  (0 <= expected_n_clusters G <= INR (n_asvs G)) /\
  (concentration_prior_mean G' = concentration_prior_mean G ->
   (n_asvs G <= n_asvs G')%nat ->
   expected_n_clusters G <= expected_n_clusters G').
Proof.
  intros Hc. set (c := concentration_prior_mean G) in *.
  assert (Hn : 0 <= INR (n_asvs G)) by apply pos_INR.
  assert (Ht : 0 <= INR (n_asvs G) / c)
    by (apply Rmult_le_pos; [exact Hn | left; apply Rinv_0_lt_compat, Hc]).
  split.
  - rewrite expected_n_clusters_alt by exact Hc. fold c.
    destruct (ln_1_plus_le _ Ht) as [Hlo Hhi]. split.
    + apply Rmult_le_pos; lra.
    + apply Rle_trans with (c * (INR (n_asvs G) / c)).
      * apply Rmult_le_compat_l; lra.
      * right. field. lra.
  - intros Hc' Hle.
    rewrite (expected_n_clusters_alt G) by exact Hc.
    rewrite (expected_n_clusters_alt G') by (rewrite Hc'; exact Hc).
    rewrite Hc'. fold c. apply Rmult_le_compat_l; [lra |].
    apply ln_le_mono; [lra |].
    apply le_INR in Hle.
    apply Rplus_le_compat_l. apply Rmult_le_compat_r; [| exact Hle].
    left. apply Rinv_0_lt_compat, Hc.
Qed.

Lemma expected_n_clusters_bounds_witness :
  (0 <= expected_n_clusters {| concentration_prior_mean := 1; n_asvs := 100 |}
     <= INR 100) /\
  (concentration_prior_mean {| concentration_prior_mean := 1; n_asvs := 120 |} = 1 ->
   (100 <= 120)%nat ->
   expected_n_clusters {| concentration_prior_mean := 1; n_asvs := 100 |}
     <= expected_n_clusters {| concentration_prior_mean := 1; n_asvs := 120 |}).
Proof.
  apply (expected_n_clusters_bounds
           {| concentration_prior_mean := 1; n_asvs := 100 |}
           {| concentration_prior_mean := 1; n_asvs := 120 |}).
  cbn. lra.
Defined.

End ClusterCount.

(** ** Product of Gaussians *)

Module Gaussians.
Import Py.

(** The inner helper; [means] and [variances] are NumPy arrays, whose
    entries divide without raising. *)
Definition _calc_params (mu1 mu2 var1 var2 : R) : R * R :=
  let v := var1 + var2 in
  (((var1 * mu2) + (var2 * mu1)) / v, (var1 * var2) / v).

(** The loop over [range(1, len(means))]; [means] and [variances] are what
    is left of the two arrays from the current index on. *)
Fixpoint prod_loop (mu var : R) (means variances : list R) : result (R * R) :=
  match means with
  | [] => Ok (mu, var)
  | m :: means' =>
      match variances with
      | [] => Raise IndexError
      | v :: variances' =>
          let '(mu', var') := _calc_params mu m var v in
          prod_loop mu' var' means' variances'
      end
  end.

Definition prod_gaussians (means variances : list R) : result (R * R) :=
  match means with
  | [] => Raise IndexError
  | m0 :: means' =>
      match variances with
      | [] => Raise IndexError
      | v0 :: variances' => prod_loop m0 v0 means' variances'
      end
  end.

(** Sum of precisions and precision-weighted sum of means of the paired
    components. *)
Definition precision_sum (comps : list (R * R)) : R :=
  Np.sum (List.map (fun c => / snd c) comps).

Definition weighted_mean_sum (comps : list (R * R)) : R :=
  Np.sum (List.map (fun c => fst c / snd c) comps).

Lemma prod_loop_closed_form (means : list R) :
  forall (variances : list R) (mu var : R),
    length means = length variances ->
    Forall (fun v => 0 < v) variances ->
    0 < var ->
    exists mu' var' : R,
      prod_loop mu var means variances = Ok (mu', var') /\
      0 < var' /\
      / var' = / var + precision_sum (List.combine means variances) /\
      mu' / var' = mu / var + weighted_mean_sum (List.combine means variances).
Proof.
  induction means as [| m means IH]; intros [| v variances] mu var Hlen Hpos Hvar;
    try discriminate.
  - exists mu, var. unfold precision_sum, weighted_mean_sum.
    cbn [prod_loop List.combine List.map]. rewrite PlotTool.sum_nil.
    repeat split; try assumption; lra.
  - injection Hlen as Hlen. apply Forall_cons_iff in Hpos as [Hv Hpos].
    cbn [prod_loop _calc_params].
    assert (Hvar' : 0 < var * v / (var + v))
      by (apply Rdiv_lt_0_compat; [apply Rmult_lt_0_compat |]; lra).
    destruct (IH variances ((var * m + v * mu) / (var + v)) (var * v / (var + v))
                Hlen Hpos Hvar') as (mu' & var' & Hrun & Hp & Hprec & Hmean).
    exists mu', var'. split; [exact Hrun |]. split; [exact Hp |].
    unfold precision_sum, weighted_mean_sum in *.
    cbn [List.combine List.map fst snd]. rewrite !PlotTool.sum_cons.
    split.
    + rewrite Hprec. field. repeat split; lra.
    + rewrite Hmean. field. repeat split; lra.
Qed.

Lemma prod_gaussians_spec (means variances : list R) :
  means <> [] ->
  length means = length variances ->
  Forall (fun v => 0 < v) variances ->
  exists mu var : R,
    prod_gaussians means variances = Ok (mu, var) /\
    0 < var /\
    / var = precision_sum (List.combine means variances) /\
    mu = weighted_mean_sum (List.combine means variances)
         / precision_sum (List.combine means variances).
Proof.
  intros Hne Hlen Hpos.
  destruct means as [| m0 means]; [contradiction |].
  destruct variances as [| v0 variances]; [discriminate |].
  injection Hlen as Hlen. apply Forall_cons_iff in Hpos as [Hv0 Hpos].
  destruct (prod_loop_closed_form means variances m0 v0 Hlen Hpos Hv0)
    as (mu & var & Hrun & Hp & Hprec & Hmean).
  exists mu, var. cbn [prod_gaussians]. split; [exact Hrun |]. split; [exact Hp |].
  unfold precision_sum, weighted_mean_sum in *.
  cbn [List.combine List.map fst snd]. rewrite !PlotTool.sum_cons.
  split; [exact Hprec |].
  rewrite <- Hprec, <- Hmean. field. lra.
Qed.

(** X5. For equally many means and positive variances (at least one), the
    loop returns the Gaussian whose precision is the sum of the precisions
    and whose mean is the precision-weighted average of the means. *)
Theorem prod_gaussians_closed_form (means variances : list R) :
  means <> [] ->
  length means = length variances ->
  Forall (fun v => 0 < v) variances ->
  exists mu var : R,
    prod_gaussians means variances = Ok (mu, var) /\
    0 < var /\
    / var = precision_sum (List.combine means variances) /\
    mu = weighted_mean_sum (List.combine means variances)
         / precision_sum (List.combine means variances).
Proof. apply prod_gaussians_spec. Qed.

Lemma prod_gaussians_closed_form_witness :
  exists mu var : R,
    prod_gaussians [0; 3] [1; 2] = Ok (mu, var) /\
    0 < var /\
    / var = precision_sum (List.combine [0; 3] [1; 2]) /\
    mu = weighted_mean_sum (List.combine [0; 3] [1; 2])
         / precision_sum (List.combine [0; 3] [1; 2]).
Proof.
  apply (prod_gaussians_closed_form [0; 3] [1; 2]);
    [discriminate | reflexivity | repeat constructor; lra].
Defined.

Lemma sum_map_permutation {A : Type} (f : A -> R) (l l' : list A) :
  Permutation l l' -> Np.sum (List.map f l) = Np.sum (List.map f l').
Proof.
  induction 1 as [| x l l' _ IH | x y l | l l' l'' _ IH1 _ IH2]; cbn [List.map].
  - reflexivity.
  - rewrite !PlotTool.sum_cons, IH. reflexivity.
  - rewrite !PlotTool.sum_cons. ring.
  - congruence.
Qed.

(** X6. The result does not depend on the order in which the components
    are listed: two listings of the same (mean, variance) pairs, variances
    positive, give the same Gaussian. *)
Theorem prod_gaussians_order_independent (means variances means' variances' : list R) :
  means <> [] ->
  length means = length variances ->
  length means' = length variances' ->
  Forall (fun v => 0 < v) variances ->
  Permutation (List.combine means variances) (List.combine means' variances') ->
  prod_gaussians means' variances' = prod_gaussians means variances.
Proof.
  intros Hne Hlen Hlen' Hpos Hperm.
  assert (Hpos' : Forall (fun v => 0 < v) variances').
  { apply List.Forall_forall. intros v Hv.
    assert (Hin : exists m, In (m, v) (List.combine means' variances')).
    { clear - Hv Hlen'. revert means' Hlen'.
      induction variances' as [| v' vs IH]; intros [| m ms] Hl; try discriminate;
        [destruct Hv |].
      injection Hl as Hl. destruct Hv as [-> | Hv].
      - exists m. left. reflexivity.
      - destruct (IH Hv ms Hl) as [m' Hm']. exists m'. right. exact Hm'. }
    destruct Hin as [m Hin].
    apply (Permutation_in _ (Permutation_sym Hperm)) in Hin.
    apply List.in_combine_r in Hin.
    rewrite List.Forall_forall in Hpos. apply Hpos, Hin. }
  assert (Hne' : means' <> []).
  { intros ->. cbn in Hperm. apply Permutation_sym, Permutation_nil in Hperm.
    destruct means; [contradiction |]. destruct variances; discriminate. }
  destruct (prod_gaussians_spec means variances Hne Hlen Hpos)
    as (mu & var & -> & Hp & Hprec & Hmu).
  destruct (prod_gaussians_spec means' variances' Hne' Hlen' Hpos')
    as (mu' & var' & -> & Hp' & Hprec' & Hmu').
  unfold precision_sum, weighted_mean_sum in *.
  rewrite <- (sum_map_permutation (fun c => / snd c) _ _ Hperm) in Hprec', Hmu'.
  rewrite <- (sum_map_permutation (fun c => fst c / snd c) _ _ Hperm) in Hmu'.
  assert (Evar : var' = var).
  { rewrite <- (Rinv_inv var'), <- (Rinv_inv var). congruence. }
  congruence.
Qed.

Lemma prod_gaussians_order_independent_witness :
  prod_gaussians [3; 0] [2; 1] = prod_gaussians [0; 3] [1; 2].
Proof.
  apply (prod_gaussians_order_independent [0; 3] [1; 2] [3; 0] [2; 1]);
    [discriminate | reflexivity | reflexivity | repeat constructor; lra
    | apply perm_swap].
Defined.

(** X7. The routine returns exactly when there is at least one mean and at
    least as many variances as means; otherwise it stops with an
    [IndexError]. *)
Theorem prod_gaussians_defined_iff (means variances : list R) :
  (exists r, prod_gaussians means variances = Ok r) <->
  (1 <= length means <= length variances)%nat.
Proof.
  assert (Hloop : forall ms vs mu var,
            (exists r, prod_loop mu var ms vs = Ok r) <->
            (length ms <= length vs)%nat).
  { induction ms as [| m ms IH]; intros vs mu var.
    - cbn. split; [lia | eauto].
    - destruct vs as [| v vs]; cbn [prod_loop length].
      + split; [intros [r H]; discriminate | lia].
      + destruct (_calc_params mu m var v) as [mu' var'].
        rewrite IH. lia. }
  destruct means as [| m0 ms]; cbn [prod_gaussians length].
  - split; [intros [r H]; discriminate | lia].
  - destruct variances as [| v0 vs]; cbn [length].
    + split; [intros [r H]; discriminate | lia].
    + rewrite Hloop. lia.
Qed.

End Gaussians.

(** ** LOESS smoother helpers *)

Module Loess.
Import Py.

(** [np.min] and [np.max] of a one-dimensional array; empty input raises. *)
Definition np_min (a : list R) : result R :=
  match a with
  | [] => Raise ValueError
  | x :: a' => Ok (List.fold_left Rmin a' x)
  end.

Definition np_max (a : list R) : result R :=
  match a with
  | [] => Raise ValueError
  | x :: a' => Ok (List.fold_left Rmax a' x)
  end.

(** [_Loess.normalize_array] *)
Definition normalize_array (array : list R) : result (list R * R * R) :=
  bind (np_min array) (fun min_val =>
  bind (np_max array) (fun max_val =>
  Ok (List.map (fun v => (v - min_val) / (max_val - min_val)) array,
      min_val, max_val))).

(** [denormalize_y] for a smoother built from [yy] with these extremes. *)
Definition denormalize_y (min_yy max_yy value : R) : R :=
  value * (max_yy - min_yy) + min_yy.

Definition normalize_x (min_xx max_xx value : R) : R :=
  (value - min_xx) / (max_xx - min_xx).

(** [_Loess._tricubic] *)
Definition _tricubic (x : list R) : list R :=
  List.map (fun v =>
              if Rle_dec (-1) v then
                if Rle_dec v 1 then (1 - Rabs v ^ 3) ^ 3 else 0
              else 0) x.

Lemma fold_left_Rmin_le (a : list R) :
  forall x : R, List.fold_left Rmin a x <= x /\
                Forall (fun v => List.fold_left Rmin a x <= v) a.
Proof.
  induction a as [| y a IH]; intros x; cbn [List.fold_left].
  - split; [lra | constructor].
  - destruct (IH (Rmin x y)) as [H1 H2]. split.
    + eapply Rle_trans; [exact H1 | apply Rmin_l].
    + constructor; [eapply Rle_trans; [exact H1 | apply Rmin_r] | exact H2].
Qed.

Lemma fold_left_Rmax_ge (a : list R) :
  forall x : R, x <= List.fold_left Rmax a x /\
                Forall (fun v => v <= List.fold_left Rmax a x) a.
Proof.
  induction a as [| y a IH]; intros x; cbn [List.fold_left].
  - split; [lra | constructor].
  - destruct (IH (Rmax x y)) as [H1 H2]. split.
    + eapply Rle_trans; [apply Rmax_l | exact H1].
    + constructor; [eapply Rle_trans; [apply Rmax_r | exact H1] | exact H2].
Qed.

Lemma np_min_max_bounds (a : list R) (mn mx : R) :
  np_min a = Ok mn -> np_max a = Ok mx ->
  Forall (fun v => mn <= v <= mx) a.
Proof.
  destruct a as [| x a]; [discriminate |]. cbn. intros [= <-] [= <-].
  destruct (fold_left_Rmin_le a x) as [H1 H2].
  destruct (fold_left_Rmax_ge a x) as [H3 H4].
  constructor; [lra |].
  rewrite List.Forall_forall in *. intros v Hv.
  split; [apply H2 | apply H4]; exact Hv.
Qed.

(** X8. Normalising an array with distinct extremes puts every entry in
    [[0, 1]], and [denormalize_y] with the recorded extremes gives the
    original entries back. *)
Theorem normalize_array_round_trip (yy n_yy : list R) (min_yy max_yy : R) :
  normalize_array yy = Ok (n_yy, min_yy, max_yy) ->
  min_yy <> max_yy ->
  Forall (fun v => 0 <= v <= 1) n_yy /\
  List.map (denormalize_y min_yy max_yy) n_yy = yy.
Proof.
  unfold normalize_array. intros Hnorm Hne.
  destruct (np_min yy) as [mn |] eqn:Emin; [| discriminate].
  destruct (np_max yy) as [mx |] eqn:Emax; [| discriminate].
  cbn [bind] in Hnorm. injection Hnorm as <- <- <-.
  pose proof (np_min_max_bounds yy mn mx Emin Emax) as Hb.
  assert (Hlt : mn < mx).
  { destruct yy as [| y yy]; [discriminate |].
    apply Forall_cons_iff in Hb as [[H1 H2] _]. lra. }
  split.
  - apply List.Forall_map. eapply List.Forall_impl; [| exact Hb].
    intros v [H1 H2]. cbn. split.
    + apply Rmult_le_pos; [lra | left; apply Rinv_0_lt_compat; lra].
    + apply Rmult_le_reg_r with (mx - mn); [lra |].
      unfold Rdiv. rewrite Rmult_assoc, Rinv_l by lra. lra.
  - rewrite List.map_map. rewrite <- (List.map_id yy) at 2.
    apply List.map_ext. intros v. unfold denormalize_y. field. lra.
Qed.

Lemma normalize_array_round_trip_witness :
  Forall (fun v => 0 <= v <= 1)
         (List.map (fun v => (v - Rmin (Rmin 2 6) 4) / (Rmax (Rmax 2 6) 4 - Rmin (Rmin 2 6) 4))
                   [2; 6; 4]) /\
  List.map (denormalize_y (Rmin (Rmin 2 6) 4) (Rmax (Rmax 2 6) 4))
           (List.map (fun v => (v - Rmin (Rmin 2 6) 4) / (Rmax (Rmax 2 6) 4 - Rmin (Rmin 2 6) 4))
                     [2; 6; 4])
    = [2; 6; 4].
Proof.
  apply (normalize_array_round_trip [2; 6; 4] _ (Rmin (Rmin 2 6) 4) (Rmax (Rmax 2 6) 4));
    [reflexivity |].
  unfold Rmin, Rmax. repeat destruct (Rle_dec _ _); lra.
Defined.

(** X9. The tricubic kernel takes values in [[0, 1]] and vanishes at every
    point of absolute value at least one. *)
Theorem _tricubic_range (x : list R) :
  Forall (fun w => 0 <= w <= 1) (_tricubic x) /\
  (forall (i : nat) (v : R),
     List.nth_error x i = Some v -> 1 <= Rabs v ->
     List.nth_error (_tricubic x) i = Some 0).
Proof.
  split.
  - unfold _tricubic. apply List.Forall_map. apply List.Forall_forall. intros v _.
    destruct (Rle_dec (-1) v) as [Hlo |]; [| lra].
    destruct (Rle_dec v 1) as [Hhi |]; [| lra].
    assert (Ha : 0 <= Rabs v <= 1)
      by (split; [apply Rabs_pos | apply Rabs_le; lra]).
    assert (Hc : 0 <= Rabs v ^ 3 <= 1)
      by (split; [apply pow_le; lra | rewrite <- (pow1 3); apply pow_incr; lra]).
    split.
    + apply pow_le. lra.
    + rewrite <- (pow1 3). apply pow_incr. lra.
  - intros i v Hi Hv. unfold _tricubic. rewrite List.nth_error_map, Hi. cbn.
    f_equal.
    destruct (Rle_dec (-1) v) as [Hlo |]; [| reflexivity].
    destruct (Rle_dec v 1) as [Hhi |]; [| reflexivity].
    assert (Ha : Rabs v = 1).
    { apply Rle_antisym; [apply Rabs_le; lra | exact Hv]. }
    rewrite Ha. ring.
Qed.

Lemma _tricubic_range_witness :
  Forall (fun w => 0 <= w <= 1) (_tricubic [2; 0]) /\
  List.nth_error (_tricubic [2; 0]) 0 = Some 0.
Proof.
  destruct (_tricubic_range [2; 0]) as [Hrange Hzero]. split; [exact Hrange |].
  apply (Hzero 0%nat 2); [reflexivity |].
  rewrite Rabs_right; lra.
Defined.

(** *** Choosing the window *)

(** [np.argmin]: the first position of the smallest entry. *)
Fixpoint argmin_from (best_i : nat) (best : R) (i : nat) (a : list R) : nat :=
  match a with
  | [] => best_i
  | v :: a' =>
      if Rlt_dec v best then argmin_from i v (S i) a'
      else argmin_from best_i best (S i) a'
  end.

Definition np_argmin (a : list R) : result nat :=
  match a with
  | [] => Raise ValueError
  | v :: a' => Ok (argmin_from 0 v 1 a')
  end.

(** [np.arange(a, a + k)] *)
Fixpoint arange_from (a : Z) (k : nat) : list Z :=
  match k with
  | O => []
  | S k' => a :: arange_from (a + 1) k'
  end.

Definition arange (a b : Z) : list Z := arange_from a (Z.to_nat (b - a)).

(** One turn of the [while] loop of [get_min_range]: the window grows by
    one index on the side where the next point is closer. *)
Definition grow_step (distances : list R) (min_range : list Z)
  : result (list Z) :=
  let n := Z.of_nat (length distances) in
  let i0 := List.hd 0%Z min_range in
  let i1 := List.last min_range 0%Z in
  if (i0 =? 0)%Z then Ok (List.app min_range [(i1 + 1)%Z])
  else if (i1 =? n - 1)%Z then Ok ((i0 - 1)%Z :: min_range)
  else
    bind (Np.getitem distances (i0 - 1)) (fun d0 =>
    bind (Np.getitem distances (i1 + 1)) (fun d1 =>
    if Rlt_dec d0 d1 then Ok ((i0 - 1)%Z :: min_range)
    else Ok (List.app min_range [(i1 + 1)%Z]))).

(** [turns] turns of the loop.  Every turn lengthens [min_range] by one, so
    the loop started on a one-element list makes [window - 1] turns. *)
Fixpoint grow (distances : list R) (turns : nat) (min_range : list Z)
  : result (list Z) :=
  match turns with
  | O => Ok min_range
  | S turns' =>
      bind (grow_step distances min_range) (grow distances turns')
  end.

(** [_Loess.get_min_range] *)
Definition get_min_range (distances : list R) (window : Z) : result (list Z) :=
  bind (np_argmin distances) (fun min_idx =>
  let n := Z.of_nat (length distances) in
  if (Z.of_nat min_idx =? 0)%Z then Ok (arange 0 window)
  else if (Z.of_nat min_idx =? n - 1)%Z then Ok (arange (n - window) n)
  else grow distances (Z.to_nat (window - 1)) [Z.of_nat min_idx]).

Lemma argmin_from_range (a : list R) :
  forall best_i best i,
    (best_i < i)%nat ->
    (argmin_from best_i best i a < i + length a)%nat.
Proof.
  induction a as [| v a IH]; intros best_i best i Hlt; cbn [argmin_from length].
  - lia.
  - destruct (Rlt_dec v best).
    + specialize (IH i v (S i)). lia.
    + specialize (IH best_i best (S i)). lia.
Qed.

Lemma arange_from_length (k : nat) : forall a, length (arange_from a k) = k.
Proof. induction k as [| k IH]; intros a; cbn; [reflexivity | rewrite IH; reflexivity]. Qed.

Lemma arange_from_snoc (k : nat) :
  forall a, List.app (arange_from a k) [(a + Z.of_nat k)%Z] = arange_from a (S k).
Proof.
  induction k as [| k IH]; intros a.
  - cbn. rewrite Z.add_0_r. reflexivity.
  - cbn [arange_from List.app]. f_equal.
    replace (a + Z.of_nat (S k))%Z with (a + 1 + Z.of_nat k)%Z by lia.
    rewrite IH. reflexivity.
Qed.

Lemma arange_from_last (k : nat) :
  forall a d, List.last (arange_from a (S k)) d = (a + Z.of_nat k)%Z.
Proof.
  intros a d. rewrite <- arange_from_snoc. apply List.last_last.
Qed.

Lemma arange_from_In (k : nat) :
  forall a i, In i (arange_from a k) <-> (a <= i < a + Z.of_nat k)%Z.
Proof.
  induction k as [| k IH]; intros a i; cbn [arange_from In].
  - lia.
  - rewrite IH. lia.
Qed.

(** The loop keeps a block of consecutive indices inside the array. *)
Lemma grow_window (distances : list R) (turns : nat) :
  forall (a : Z) (k : nat),
    (0 <= a)%Z ->
    (a + Z.of_nat (S k) <= Z.of_nat (length distances))%Z ->
    (S k + turns <= length distances)%nat ->
    exists a' : Z,
      grow distances turns (arange_from a (S k))
        = Ok (arange_from a' (S k + turns)) /\
      (0 <= a' <= a)%Z /\
      (a + Z.of_nat (S k) <= a' + Z.of_nat (S k + turns)
         <= Z.of_nat (length distances))%Z.
Proof.
  induction turns as [| turns IH]; intros a k Ha Hfit Hlen.
  - exists a. cbn [grow]. rewrite Nat.add_0_r. split; [reflexivity | lia].
  - cbn [grow]. unfold grow_step.
    change (List.hd 0%Z (arange_from a (S k))) with a.
    rewrite arange_from_last.
    assert (Hnext : forall a2 k2,
              (0 <= a2 <= a)%Z ->
              (a + Z.of_nat (S k) <= a2 + Z.of_nat (S k2))%Z ->
              (a2 + Z.of_nat (S k2) <= Z.of_nat (length distances))%Z ->
              k2 = S k ->
              exists a' : Z,
                grow distances turns (arange_from a2 (S k2))
                  = Ok (arange_from a' (S k + S turns)) /\
                (0 <= a' <= a)%Z /\
                (a + Z.of_nat (S k) <= a' + Z.of_nat (S k + S turns)
                   <= Z.of_nat (length distances))%Z).
    { intros a2 k2 Ha2 Hcov Hfit2 ->.
      destruct (IH a2 (S k)) as (a' & Hrun & Hb1 & Hb2); [lia | lia | lia |].
      exists a'. rewrite Hrun.
      replace (S (S k) + turns)%nat with (S k + S turns)%nat in * by lia.
      split; [reflexivity | lia]. }
    destruct (a =? 0)%Z eqn:E0.
    + apply Z.eqb_eq in E0. cbn [bind].
      replace (a + Z.of_nat k + 1)%Z with (a + Z.of_nat (S k))%Z by lia.
      rewrite arange_from_snoc.
      apply (Hnext a (S k)); lia.
    + apply Z.eqb_neq in E0.
      destruct (a + Z.of_nat k =? Z.of_nat (length distances) - 1)%Z eqn:E1.
      * cbn [bind].
        replace ((a - 1)%Z :: arange_from a (S k))
          with (arange_from (a - 1) (S (S k)))
          by (cbn [arange_from]; repeat f_equal; lia).
        apply (Hnext (a - 1)%Z (S k)); lia.
      * apply Z.eqb_neq in E1.
        assert (Hget : forall j : Z,
                  (0 <= j < Z.of_nat (length distances))%Z ->
                  exists d, Np.getitem distances j = Ok d).
        { intros j Hj. destruct (List.nth_error distances (Z.to_nat j)) as [d |] eqn:E.
          - exists d. rewrite <- (Z2Nat.id j) by lia.
            apply Filter.nth_error_getitem. exact E.
          - apply List.nth_error_None in E. lia. }
        destruct (Hget (a - 1)%Z) as [d0 ->]; [lia |].
        destruct (Hget (a + Z.of_nat k + 1)%Z) as [d1 ->]; [lia |].
        cbn [bind]. destruct (Rlt_dec d0 d1).
        -- replace ((a - 1)%Z :: arange_from a (S k))
             with (arange_from (a - 1) (S (S k)))
             by (cbn [arange_from]; repeat f_equal; lia).
           apply (Hnext (a - 1)%Z (S k)); lia.
        -- replace (a + Z.of_nat k + 1)%Z with (a + Z.of_nat (S k))%Z by lia.
           rewrite arange_from_snoc.
           apply (Hnext a (S k)); lia.
Qed.

(** X10. For a window no longer than the array (and at least one), the
    chosen window is a block of [window] consecutive in-range indices that
    contains the position of the smallest distance. *)
Theorem get_min_range_window (distances : list R) (window : Z) :
  (1 <= window <= Z.of_nat (length distances))%Z ->
  exists (min_idx : nat) (a : Z),
    np_argmin distances = Ok min_idx /\
    get_min_range distances window = Ok (arange a (a + window)) /\
    (0 <= a)%Z /\ (a + window <= Z.of_nat (length distances))%Z /\
    In (Z.of_nat min_idx) (arange a (a + window)).
Proof.
  intros Hw. destruct distances as [| v rest] eqn:Ed; [cbn in Hw; lia |].
  rewrite <- Ed in *.
  assert (Hmin : exists min_idx, np_argmin distances = Ok min_idx /\
                                 (min_idx < length distances)%nat).
  { rewrite Ed. eexists. split; [reflexivity |].
    pose proof (argmin_from_range rest 0%nat v 1%nat). cbn [length]. lia. }
  destruct Hmin as (min_idx & Hmin & Hlt).
  exists min_idx. unfold get_min_range. rewrite Hmin. cbn [bind].
  assert (Harange : forall a, arange a (a + window) = arange_from a (Z.to_nat window)).
  { intros a. unfold arange. f_equal. lia. }
  destruct (Z.of_nat min_idx =? 0)%Z eqn:E0.
  - apply Z.eqb_eq in E0. exists 0%Z. split; [reflexivity |].
    split; [reflexivity |]. split; [lia |]. split; [lia |].
    rewrite Harange. apply arange_from_In. lia.
  - apply Z.eqb_neq in E0.
    destruct (Z.of_nat min_idx =? Z.of_nat (length distances) - 1)%Z eqn:E1.
    + apply Z.eqb_eq in E1. exists (Z.of_nat (length distances) - window)%Z.
      split; [reflexivity |]. split; [f_equal; f_equal; lia |].
      split; [lia |]. split; [lia |].
      rewrite Harange. apply arange_from_In. lia.
    + apply Z.eqb_neq in E1.
      destruct (grow_window distances (Z.to_nat (window - 1)) (Z.of_nat min_idx) 0%nat)
        as (a & Hrun & Hb1 & Hb2); [lia | lia | lia |].
      exists a. split; [reflexivity |].
      change (arange_from (Z.of_nat min_idx) 1) with [Z.of_nat min_idx] in Hrun.
      rewrite Hrun, Harange.
      replace (1 + Z.to_nat (window - 1))%nat with (Z.to_nat window) in * by lia.
      split; [reflexivity |]. split; [lia |]. split; [lia |].
      apply arange_from_In. lia.
Qed.

Lemma get_min_range_window_witness :
  exists (min_idx : nat) (a : Z),
    np_argmin [3; 1; 2; 5] = Ok min_idx /\
    get_min_range [3; 1; 2; 5] 3 = Ok (arange a (a + 3)) /\
    (0 <= a)%Z /\ (a + 3 <= Z.of_nat (length [3; 1; 2; 5]))%Z /\
    In (Z.of_nat min_idx) (arange a (a + 3)).
Proof.
  apply (get_min_range_window [3; 1; 2; 5] 3). cbn. lia.
Defined.

End Loess.

(** ** Cluster-interaction indexing *)

Module ClusterIndex.
Import Py.

(** The table being filled and the next row to write. *)
Definition cursor : Type := list (nat * nat) * nat.

(** [ret[i,0] = dst; ret[i,1] = src; i += 1]; a row past the end raises and
    leaves the table as it is. *)
Definition write_row (p : nat * nat) (st : cursor) : cursor * result unit :=
  let '(ret, i) := st in
  if Nat.ltb i (length ret) then ((<[i := p]> ret, S i), Ok tt)
  else (st, Raise IndexError).

(** The inner loop over [src_cidx]. *)
Fixpoint inner_loop (dst : nat) (srcs : list nat) (st : cursor)
  : cursor * result unit :=
  match srcs with
  | [] => (st, Ok tt)
  | src :: srcs' =>
      if Nat.eqb dst src then inner_loop dst srcs' st
      else
        match write_row (dst, src) st with
        | (st', Ok _) => inner_loop dst srcs' st'
        | (st', Raise e) => (st', Raise e)
        end
  end.

(** The outer loop over [dst_cidx]. *)
Fixpoint outer_loop (n_clusters : nat) (dsts : list nat) (st : cursor)
  : cursor * result unit :=
  match dsts with
  | [] => (st, Ok tt)
  | dst :: dsts' =>
      match inner_loop dst (List.seq 0 n_clusters) st with
      | (st', Ok _) => outer_loop n_clusters dsts' st'
      | (st', Raise e) => (st', Raise e)
      end
  end.

(** [make_iidx2cidxpair]: the table as the call leaves it, and the outcome. *)
Definition make_iidx2cidxpair (ret : list (nat * nat)) (n_clusters : nat)
  : list (nat * nat) * result unit :=
  match outer_loop n_clusters (List.seq 0 n_clusters) (ret, 0%nat) with
  | ((ret', _), out) => (ret', out)
  end.

(** The row of the table that holds the interaction into [dst] from [src]. *)
Definition iidx (n_clusters dst src : nat) : nat :=
  dst * (n_clusters - 1) + (if Nat.ltb src dst then src else src - 1).

(** *** Writing a list of rows *)

Fixpoint write_rows (ps : list (nat * nat)) (st : cursor) : cursor * result unit :=
  match ps with
  | [] => (st, Ok tt)
  | p :: ps' =>
      match write_row p st with
      | (st', Ok _) => write_rows ps' st'
      | (st', Raise e) => (st', Raise e)
      end
  end.

Definition row_pairs (dst : nat) (srcs : list nat) : list (nat * nat) :=
  List.map (pair dst) (List.filter (fun src => negb (Nat.eqb dst src)) srcs).

Definition all_pairs (n : nat) (dsts : list nat) : list (nat * nat) :=
  List.flat_map (fun dst => row_pairs dst (List.seq 0 n)) dsts.

Lemma write_rows_app (ps qs : list (nat * nat)) :
  forall st,
    write_rows (List.app ps qs) st =
    match write_rows ps st with
    | (st', Ok _) => write_rows qs st'
    | (st', Raise e) => (st', Raise e)
    end.
Proof.
  induction ps as [| p ps IH]; intros st; cbn [List.app write_rows]; [reflexivity |].
  destruct (write_row p st) as [st' [[] | e]]; [apply IH | reflexivity].
Qed.

Lemma inner_loop_rows (dst : nat) (srcs : list nat) :
  forall st, inner_loop dst srcs st = write_rows (row_pairs dst srcs) st.
Proof.
  induction srcs as [| src srcs IH]; intros st; [reflexivity |].
  unfold row_pairs in *. cbn [inner_loop List.filter].
  destruct (Nat.eqb dst src); cbn [negb List.map write_rows]; [apply IH |].
  destruct (write_row (dst, src) st) as [st' [[] | e]]; [apply IH | reflexivity].
Qed.

Lemma outer_loop_rows (n : nat) (dsts : list nat) :
  forall st, outer_loop n dsts st = write_rows (all_pairs n dsts) st.
Proof.
  induction dsts as [| dst dsts IH]; intros st; [reflexivity |].
  cbn [outer_loop all_pairs List.flat_map]. rewrite write_rows_app, inner_loop_rows.
  destruct (write_rows (row_pairs dst (List.seq 0 n)) st) as [st' [[] | e]];
    [apply IH | reflexivity].
Qed.

Lemma write_rows_fits (ps : list (nat * nat)) :
  forall (done rest : list (nat * nat)),
    (length ps <= length rest)%nat ->
    write_rows ps (List.app done rest, length done)
      = ((List.app done (List.app ps (List.skipn (length ps) rest)),
          (length done + length ps)%nat), Ok tt).
Proof.
  induction ps as [| p ps IH]; intros done rest Hlen.
  - cbn. rewrite Nat.add_0_r. reflexivity.
  - destruct rest as [| r rest]; [cbn in Hlen; lia |].
    cbn [write_rows write_row].
    assert (Hlt : (length done <? length (List.app done (r :: rest)))%nat = true)
      by (apply Nat.ltb_lt; rewrite length_app; cbn; lia).
    rewrite Hlt.
    rewrite insert_app_r_alt by lia. rewrite Nat.sub_diag. cbn [insert list_insert].
    replace (List.app done (p :: rest)) with (List.app (List.app done [p]) rest)
      by (rewrite <- List.app_assoc; reflexivity).
    replace (S (length done)) with (length (List.app done [p]))
      by (rewrite length_app; cbn; lia).
    rewrite IH by (cbn in Hlen; lia).
    rewrite length_app, <- !List.app_assoc. cbn [length List.app List.skipn].
    f_equal. f_equal. lia.
Qed.

(** *** Position of a pair in the enumeration *)

Lemma filter_seq_all (P : nat -> bool) (a k : nat) :
  (forall s, (a <= s < a + k)%nat -> P s = true) ->
  List.filter P (List.seq a k) = List.seq a k.
Proof.
  revert a. induction k as [| k IH]; intros a H; [reflexivity |].
  cbn [List.seq List.filter]. rewrite H by lia. f_equal. apply IH.
  intros s Hs. apply H. lia.
Qed.

Lemma row_sources (n dst : nat) :
  (dst < n)%nat ->
  List.filter (fun src => negb (Nat.eqb dst src)) (List.seq 0 n)
    = List.app (List.seq 0 dst) (List.seq (S dst) (n - S dst)).
Proof.
  intros Hlt.
  replace n with (dst + S (n - S dst))%nat at 1 by lia.
  rewrite List.seq_app, List.filter_app. cbn [List.seq List.filter Nat.add].
  rewrite Nat.eqb_refl. cbn [negb]. f_equal.
  - apply filter_seq_all. intros s Hs.
    apply negb_true_iff, Nat.eqb_neq. lia.
  - apply filter_seq_all. intros s Hs.
    apply negb_true_iff, Nat.eqb_neq. lia.
Qed.

Lemma row_pairs_length (n dst : nat) :
  (dst < n)%nat -> length (row_pairs dst (List.seq 0 n)) = (n - 1)%nat.
Proof.
  intros Hlt. unfold row_pairs.
  rewrite length_map, row_sources, length_app, !List.length_seq by exact Hlt. lia.
Qed.

Lemma row_pairs_nth (n dst src : nat) :
  (dst < n)%nat -> (src < n)%nat -> dst <> src ->
  List.nth_error (row_pairs dst (List.seq 0 n))
                 (if Nat.ltb src dst then src else src - 1)
    = Some (dst, src).
Proof.
  intros Hd Hs Hne. unfold row_pairs.
  rewrite List.nth_error_map, row_sources by exact Hd.
  destruct (Nat.ltb src dst) eqn:E.
  - pose proof (proj1 (Nat.ltb_lt _ _) E) as E'.
    rewrite List.nth_error_app1 by (rewrite List.length_seq; exact E').
    rewrite List.nth_error_seq, E. reflexivity.
  - pose proof (proj1 (Nat.ltb_ge _ _) E) as E'.
    rewrite List.nth_error_app2 by (rewrite List.length_seq; lia).
    rewrite List.length_seq, List.nth_error_seq.
    replace (Nat.ltb (src - 1 - dst) (n - S dst)) with true
      by (symmetry; apply Nat.ltb_lt; lia).
    cbn [option_map]. repeat f_equal. lia.
Qed.

Lemma flat_map_block_nth {A B : Type} (f : A -> list B) (m : nat) (l : list A) :
  forall (i j : nat) (x : A),
    Forall (fun y => length (f y) = m) l ->
    List.nth_error l i = Some x ->
    (j < m)%nat ->
    List.nth_error (List.flat_map f l) (i * m + j) = List.nth_error (f x) j.
Proof.
  induction l as [| y l IH]; intros i j x Hall Hi Hj; [destruct i; discriminate |].
  apply Forall_cons_iff in Hall as [Hy Hall]. cbn [List.flat_map].
  destruct i as [| i].
  - injection Hi as ->. rewrite List.nth_error_app1 by (rewrite Hy; lia).
    reflexivity.
  - rewrite List.nth_error_app2 by (rewrite Hy; lia).
    rewrite Hy. replace (S i * m + j - m)%nat with (i * m + j)%nat by lia.
    apply IH; assumption.
Qed.

Lemma all_pairs_length (n : nat) :
  length (all_pairs n (List.seq 0 n)) = (n * (n - 1))%nat.
Proof.
  unfold all_pairs.
  assert (H : forall l, Forall (fun d => d < n)%nat l ->
            length (List.flat_map (fun dst => row_pairs dst (List.seq 0 n)) l)
              = (length l * (n - 1))%nat).
  { induction l as [| d l IH]; intros Hl; [reflexivity |].
    apply Forall_cons_iff in Hl as [Hd Hl]. cbn [List.flat_map length].
    rewrite length_app, row_pairs_length, IH by assumption. lia. }
  rewrite H, List.length_seq; [reflexivity |].
  apply List.Forall_forall. intros d Hd. apply List.in_seq in Hd. lia.
Qed.

(** X11. On a table of [n (n - 1)] rows the call succeeds and fills row
    [iidx dst src] with [(dst, src)] for every ordered pair of distinct
    clusters; no row pairs a cluster with itself. *)
Theorem make_iidx2cidxpair_rows (ret : list (nat * nat)) (n : nat) :
  length ret = (n * (n - 1))%nat ->
  exists ret' : list (nat * nat),
    make_iidx2cidxpair ret n = (ret', Ok tt) /\
    length ret' = (n * (n - 1))%nat /\
    (forall dst src : nat,
       (dst < n)%nat -> (src < n)%nat -> dst <> src ->
       List.nth_error ret' (iidx n dst src) = Some (dst, src)) /\
    Forall (fun p => fst p <> snd p) ret'.
Proof.
  intros Hlen. exists (all_pairs n (List.seq 0 n)).
  pose proof (all_pairs_length n) as Hall.
  unfold make_iidx2cidxpair. rewrite outer_loop_rows.
  pose proof (write_rows_fits (all_pairs n (List.seq 0 n)) [] ret) as Hw.
  cbn [List.app length] in Hw. rewrite Hw by lia.
  rewrite List.skipn_all2 by lia. rewrite List.app_nil_r.
  split; [reflexivity |]. split; [exact Hall |]. split.
  - intros dst src Hd Hs Hne. unfold iidx, all_pairs.
    rewrite (flat_map_block_nth _ (n - 1) _ dst _ dst).
    + apply row_pairs_nth; assumption.
    + apply List.Forall_forall. intros d Hin. apply List.in_seq in Hin.
      apply row_pairs_length. lia.
    + rewrite List.nth_error_seq.
      destruct (Nat.ltb dst n) eqn:E; [reflexivity | apply Nat.ltb_ge in E; lia].
    + destruct (Nat.ltb src dst) eqn:E;
        [apply Nat.ltb_lt in E | apply Nat.ltb_ge in E]; lia.
  - unfold all_pairs. apply List.Forall_flat_map. apply List.Forall_forall.
    intros d _. unfold row_pairs. apply List.Forall_map. apply List.Forall_forall.
    intros s Hs. apply List.filter_In in Hs as [_ Hs].
    apply negb_true_iff, Nat.eqb_neq in Hs. exact Hs.
Qed.

Lemma make_iidx2cidxpair_rows_witness :
  exists ret' : list (nat * nat),
    make_iidx2cidxpair (List.repeat (0, 0)%nat 6) 3 = (ret', Ok tt) /\
    length ret' = (3 * (3 - 1))%nat /\
    (forall dst src : nat,
       (dst < 3)%nat -> (src < 3)%nat -> dst <> src ->
       List.nth_error ret' (iidx 3 dst src) = Some (dst, src)) /\
    Forall (fun p => fst p <> snd p) ret'.
Proof.
  apply (make_iidx2cidxpair_rows (List.repeat (0, 0)%nat 6) 3). reflexivity.
Defined.

End ClusterIndex.

(** ** Condensed clustering *)

Module CondensedClustering.
Import Py.

(** [enumerate(oidx2cidx)] *)
Definition enumerate (oidx2cidx : list Z) : list (nat * Z) :=
  List.combine (List.seq 0 (length oidx2cidx)) oidx2cidx.

(** One turn of the first loop: start or extend the member list of [cidx]. *)
Definition add_member (a : gmap Z (list nat)) (entry : nat * Z) : gmap Z (list nat) :=
  let '(oidx, cidx) := entry in
  match a !! cidx with
  | None => <[cidx := [oidx]]> a
  | Some members => <[cidx := List.app members [oidx]]> a
  end.

Definition members_by_cluster (oidx2cidx : list Z) : gmap Z (list nat) :=
  List.fold_left add_member (enumerate oidx2cidx) ∅.

(** The second loop, [while cidx in a], for at most [fuel] turns. *)
Fixpoint collect (a : gmap Z (list nat)) (cidx : Z) (fuel : nat) : list (list nat) :=
  match fuel with
  | O => []
  | S fuel' =>
      match a !! cidx with
      | Some members => members :: collect a (cidx + 1) fuel'
      | None => []
      end
  end.

(** [CondensedClustering(oidx2cidx).clusters].  The dictionary has at most
    one key per taxon, so the loop stops within [len(oidx2cidx) + 1] turns. *)
Definition clusters (oidx2cidx : list Z) : list (list nat) :=
  collect (members_by_cluster oidx2cidx) 0 (S (length oidx2cidx)).

(** The taxa assigned to [cidx], in increasing order. *)
Definition positions (cidx : Z) (oidx2cidx : list Z) : list nat :=
  List.map fst (List.filter (fun p => Z.eqb (snd p) cidx) (enumerate oidx2cidx)).

Lemma combine_app_same {A B : Type} (a : list A) :
  forall (b : list B) (a' : list A) (b' : list B),
    length a = length b ->
    List.combine (List.app a a') (List.app b b')
      = List.app (List.combine a b) (List.combine a' b').
Proof.
  induction a as [| x a IH]; intros [| y b] a' b' Hlen; try discriminate;
    [reflexivity |].
  injection Hlen as Hlen. cbn [List.app List.combine]. rewrite IH by exact Hlen.
  reflexivity.
Qed.

Lemma enumerate_snoc (l : list Z) (x : Z) :
  enumerate (List.app l [x]) = List.app (enumerate l) [(length l, x)].
Proof.
  unfold enumerate. rewrite length_app. cbn [length].
  rewrite Nat.add_1_r, List.seq_S. cbn [Nat.add].
  rewrite combine_app_same by (rewrite List.length_seq; reflexivity).
  reflexivity.
Qed.

Lemma positions_snoc (c : Z) (l : list Z) (x : Z) :
  positions c (List.app l [x]) =
  List.app (positions c l) (if Z.eqb x c then [length l] else []).
Proof.
  unfold positions. rewrite enumerate_snoc, List.filter_app, List.map_app.
  cbn [List.filter snd]. destruct (Z.eqb x c); reflexivity.
Qed.

(** The dictionary holds, for every cluster index that occurs, its taxa in
    increasing order, and nothing else. *)
Lemma members_by_cluster_lookup (l : list Z) :
  forall c : Z,
    members_by_cluster l !! c =
    match positions c l with
    | [] => None
    | ps => Some ps
    end.
Proof.
  induction l as [| x l IH] using List.rev_ind; intros c; [reflexivity |].
  unfold members_by_cluster in *.
  rewrite enumerate_snoc, List.fold_left_app. cbn [List.fold_left add_member].
  rewrite positions_snoc.
  set (a := List.fold_left add_member (enumerate l) ∅) in *.
  destruct (Z.eqb x c) eqn:E.
  - apply Z.eqb_eq in E. subst x. rewrite (IH c).
    destruct (positions c l) as [| p ps]; cbn [List.app];
      rewrite lookup_insert_eq; reflexivity.
  - apply Z.eqb_neq in E. rewrite List.app_nil_r.
    destruct (a !! x); rewrite lookup_insert_ne by exact E; apply IH.
Qed.

Lemma positions_In (c : Z) (l : list Z) (o : nat) :
  In o (positions c l) <-> List.nth_error l o = Some c.
Proof.
  induction l as [| x l IH] using List.rev_ind.
  - cbn. split; [tauto | destruct o; discriminate].
  - rewrite positions_snoc, List.in_app_iff, IH.
    destruct (Nat.lt_ge_cases o (length l)) as [Hlt | Hge].
    + rewrite List.nth_error_app1 by exact Hlt.
      split; [intros [H | H]; [exact H |] | tauto].
      destruct (Z.eqb x c); cbn in H; [destruct H as [H | []]; lia | tauto].
    + rewrite List.nth_error_app2 by exact Hge.
      assert (Hnone : List.nth_error l o = None) by (apply List.nth_error_None; lia).
      rewrite Hnone. split.
      * intros [H | H]; [discriminate |].
        destruct (Z.eqb x c) eqn:E; [| destruct H].
        destruct H as [<- | []]. rewrite Nat.sub_diag. cbn.
        apply Z.eqb_eq in E. congruence.
      * intros H. right.
        destruct (o - length l)%nat as [| k] eqn:Ek; [| destruct k; discriminate].
        cbn in H. injection H as ->. rewrite Z.eqb_refl. left. lia.
Qed.

(** Each of the first [K] cluster indices claims a taxon of its own. *)
Lemma occupied_le_length (l : list Z) (K : nat) :
  (forall c : nat, (c < K)%nat -> In (Z.of_nat c) l) -> (K <= length l)%nat.
Proof.
  intros Hocc.
  replace K with (length (List.map Z.of_nat (List.seq 0 K)))
    by (rewrite length_map; apply List.length_seq).
  apply List.NoDup_incl_length.
  - apply List.NoDup_map_NoDup_ForallPairs; [| apply List.seq_NoDup].
    intros a b _ _ H. lia.
  - intros z Hz. apply List.in_map_iff in Hz as (c & <- & Hc).
    apply List.in_seq in Hc. apply Hocc. lia.
Qed.

Lemma collect_occupied (a : gmap Z (list nat)) (K : nat) :
  forall (start : Z) (fuel : nat),
    (K < fuel)%nat ->
    (forall c : nat, (c < K)%nat -> is_Some (a !! (start + Z.of_nat c)%Z)) ->
    a !! (start + Z.of_nat K)%Z = None ->
    collect a start fuel =
      List.map (fun c => default [] (a !! (start + Z.of_nat c)%Z)) (List.seq 0 K).
Proof.
  induction K as [| K IH]; intros start fuel Hfuel Hocc Hend.
  - destruct fuel as [| fuel]; [lia |]. cbn [collect List.seq List.map].
    rewrite Z.add_0_r in Hend. rewrite Hend. reflexivity.
  - destruct fuel as [| fuel]; [lia |]. cbn [collect List.seq List.map].
    destruct (Hocc 0%nat) as [ms Hms]; [lia |].
    rewrite Z.add_0_r in Hms. rewrite Z.add_0_r, Hms. cbn [default]. f_equal.
    rewrite <- List.seq_shift, List.map_map.
    rewrite (IH (start + 1)%Z fuel); [| lia | |].
    + apply List.map_ext. intros c.
      replace (start + 1 + Z.of_nat c)%Z with (start + Z.of_nat (S c))%Z by lia.
      reflexivity.
    + intros c Hc. replace (start + 1 + Z.of_nat c)%Z
        with (start + Z.of_nat (S c))%Z by lia. apply Hocc. lia.
    + replace (start + 1 + Z.of_nat K)%Z with (start + Z.of_nat (S K))%Z by lia.
      exact Hend.
Qed.

(** X12. When the cluster indices [0 .. K-1] all occur and [K] does not,
    the object has exactly [K] clusters and cluster [c] holds exactly the
    taxa assigned to [c]; a taxon whose index is negative or lies beyond the
    first unused index is in no cluster. *)
Theorem clusters_partition (oidx2cidx : list Z) (K : nat) :
  (forall c : nat, (c < K)%nat -> In (Z.of_nat c) oidx2cidx) ->
  ~ In (Z.of_nat K) oidx2cidx ->
  length (clusters oidx2cidx) = K /\
  (forall (c o : nat),
     (c < K)%nat ->
     (In o (List.nth c (clusters oidx2cidx) []) <->
      List.nth_error oidx2cidx o = Some (Z.of_nat c))) /\
  (forall (c o : nat),
     In o (List.nth c (clusters oidx2cidx) []) -> (c < K)%nat).
Proof.
  intros Hocc Hend.
  pose proof (occupied_le_length oidx2cidx K Hocc) as HK.
  assert (Hpos : forall c : nat, (c < K)%nat ->
            positions (Z.of_nat c) oidx2cidx <> []).
  { intros c Hc Hnil. apply Hocc in Hc. apply List.In_nth_error in Hc as [o Ho].
    apply positions_In in Ho. rewrite Hnil in Ho. exact Ho. }
  assert (Hform : clusters oidx2cidx =
            List.map (fun c => positions (Z.of_nat c) oidx2cidx) (List.seq 0 K)).
  { unfold clusters. rewrite (collect_occupied _ K); [| lia | |].
    - apply List.map_ext_in. intros c Hc. apply List.in_seq in Hc.
      rewrite Z.add_0_l, members_by_cluster_lookup.
      destruct (positions (Z.of_nat c) oidx2cidx) eqn:E; [| reflexivity].
      exfalso. apply (Hpos c); [lia | exact E].
    - intros c Hc. rewrite Z.add_0_l, members_by_cluster_lookup.
      destruct (positions (Z.of_nat c) oidx2cidx) eqn:E; [| eauto].
      exfalso. apply (Hpos c); [lia | exact E].
    - rewrite Z.add_0_l, members_by_cluster_lookup.
      destruct (positions (Z.of_nat K) oidx2cidx) as [| o ps] eqn:E; [reflexivity |].
      exfalso. apply Hend. apply (List.nth_error_In _ o).
      apply positions_In. rewrite E. left. reflexivity. }
  rewrite Hform. split; [rewrite length_map, List.length_seq; reflexivity |].
  assert (Hnth : forall c, (c < K)%nat ->
            List.nth c (List.map (fun c => positions (Z.of_nat c) oidx2cidx)
                                 (List.seq 0 K)) []
              = positions (Z.of_nat c) oidx2cidx).
  { intros c Hc.
    rewrite (List.nth_indep _ [] (positions (Z.of_nat 0%nat) oidx2cidx))
      by (rewrite length_map, List.length_seq; exact Hc).
    rewrite (List.map_nth (fun c => positions (Z.of_nat c) oidx2cidx)).
    rewrite List.seq_nth by exact Hc. reflexivity. }
  split.
  - intros c o Hc. rewrite Hnth by exact Hc. apply positions_In.
  - intros c o Hin. destruct (Nat.lt_ge_cases c K) as [Hlt | Hge]; [exact Hlt |].
    rewrite List.nth_overflow in Hin
      by (rewrite length_map, List.length_seq; exact Hge).
    destruct Hin.
Qed.

Lemma clusters_partition_witness :
  length (clusters [0; 1; 0; 3]%Z) = 2%nat /\
  (forall (c o : nat),
     (c < 2)%nat ->
     (In o (List.nth c (clusters [0; 1; 0; 3]%Z) []) <->
      List.nth_error [0; 1; 0; 3]%Z o = Some (Z.of_nat c))) /\
  (forall (c o : nat),
     In o (List.nth c (clusters [0; 1; 0; 3]%Z) []) -> (c < 2)%nat).
Proof.
  apply (clusters_partition [0; 1; 0; 3]%Z 2).
  - intros c Hc. destruct c as [| [| c]]; [cbn; auto | cbn; auto | lia].
  - cbn. intros [H | [H | [H | [H | []]]]]; discriminate.
Defined.

End CondensedClustering.

(** ** Categorical sampling in log space *)

Module Categorical.
Import Py.

(** Floats as they occur here: an infinity, a real number, or not a
    number. *)
Inductive ext :=
| NegInf
| Fin (r : R)
| PosInf
| NaN.

(** [np.logaddexp] *)
Definition logaddexp (a b : ext) : ext :=
  match a, b with
  | NaN, _ | _, NaN => NaN
  | PosInf, _ | _, PosInf => PosInf
  | NegInf, x | x, NegInf => x
  | Fin x, Fin y => Fin (ln (exp x + exp y))
  end.

(** [np.logaddexp.accumulate] on an array whose first entry is [first]. *)
Fixpoint accumulate (first : ext) (rest : list ext) : list ext :=
  first :: match rest with
           | [] => []
           | x :: rest' => accumulate (logaddexp first x) rest'
           end.

(** [a - total] *)
Definition minus (total a : ext) : ext :=
  match a, total with
  | NaN, _ | _, NaN => NaN
  | NegInf, NegInf | PosInf, PosInf => NaN
  | NegInf, _ => NegInf
  | PosInf, _ => PosInf
  | Fin _, NegInf => PosInf
  | Fin _, PosInf => NegInf
  | Fin x, Fin t => Fin (x - t)
  end.

(** [x >= e] for a real [e]. *)
Definition ge (e : R) (x : ext) : bool :=
  match x with
  | Fin r => if Rle_dec e r then true else false
  | PosInf => true
  | NegInf | NaN => false
  end.

(** Position of the first entry that is at least [e]. *)
Fixpoint first_ge (e : R) (xs : list ext) : option nat :=
  match xs with
  | [] => None
  | x :: xs' => if ge e x then Some 0%nat else option_map S (first_ge e xs')
  end.

(** [sample_categorical_log log_p] when [random.random()] returns [u]. *)
Definition sample_categorical_log (log_p : list ext) (u : R) : result Z :=
  bind (log u) (fun exp_sample =>
  let events := accumulate NegInf log_p in
  let events := List.map (minus (List.last events NegInf)) events in
  match first_ge exp_sample events with
  | Some i => Ok (Z.of_nat i - 1)%Z
  | None => Raise (OtherError "StopIteration")
  end).

(** Sum of the first [k] event weights [exp log_p_j]. *)
Definition cum (rs : list R) (k : nat) : R :=
  Np.sum (List.map exp (List.firstn k rs)).

(** *** The running log-sums *)

Fixpoint running (a : R) (rs : list R) : list R :=
  match rs with
  | [] => []
  | r :: rs' => let a' := ln (exp a + exp r) in a' :: running a' rs'
  end.

Lemma accumulate_fin (rs : list R) :
  forall a : R,
    accumulate (Fin a) (List.map Fin rs) = Fin a :: List.map Fin (running a rs).
Proof.
  induction rs as [| r rs IH]; intros a; [reflexivity |].
  cbn [List.map accumulate logaddexp running]. rewrite IH. reflexivity.
Qed.

Lemma running_length (rs : list R) : forall a, length (running a rs) = length rs.
Proof. induction rs as [| r rs IH]; intros a; cbn; [| rewrite IH]; reflexivity. Qed.

Lemma sum_exp_pos (rs : list R) : 0 <= Np.sum (List.map exp rs).
Proof.
  induction rs as [| r rs IH]; cbn [List.map]; [rewrite PlotTool.sum_nil; lra |].
  rewrite PlotTool.sum_cons. pose proof (exp_pos r). lra.
Qed.

Lemma running_exp (rs : list R) :
  forall (a : R) (k : nat) (e : R),
    List.nth_error (a :: running a rs) k = Some e ->
    exp e = exp a + cum rs k.
Proof.
  induction rs as [| r rs IH]; intros a k e Hk.
  - destruct k as [| k]; [| destruct k; discriminate].
    injection Hk as <-. unfold cum. cbn. lra.
  - destruct k as [| k].
    + injection Hk as <-. unfold cum. cbn. lra.
    + cbn [running List.nth_error] in Hk.
      rewrite (IH _ k e Hk). unfold cum. cbn [List.firstn List.map].
      rewrite PlotTool.sum_cons.
      rewrite exp_ln by (pose proof (exp_pos a); pose proof (exp_pos r); lra).
      ring.
Qed.

(** *** Searching the first entry *)

Lemma first_ge_fin (e : R) (ys : list R) :
  forall k : nat,
    first_ge e (List.map Fin ys) = Some k <->
    (exists y, List.nth_error ys k = Some y /\ e <= y) /\
    (forall j y, (j < k)%nat -> List.nth_error ys j = Some y -> y < e).
Proof.
  induction ys as [| y ys IH]; intros k; cbn [List.map first_ge ge].
  - split; [discriminate | intros [[y' [H _]] _]; destruct k; discriminate].
  - destruct (Rle_dec e y) as [Hle | Hnle].
    + split.
      * intros [= <-]. split; [exists y; auto | intros j y' Hj; lia].
      * intros [[y' [Hk Hy']] Hbefore]. destruct k as [| k]; [reflexivity |].
        specialize (Hbefore 0%nat y (Nat.lt_0_succ k) eq_refl). lra.
    + destruct k as [| k].
      * split.
        -- destruct (first_ge e (List.map Fin ys)); discriminate.
        -- intros [[y' [[= <-] Hy']] _]. contradiction.
      * specialize (IH k). split.
        -- intros H. destruct (first_ge e (List.map Fin ys)) as [k' |] eqn:E;
             [| discriminate].
           injection H as ->. destruct (proj1 IH eq_refl) as [Hk Hbefore].
           split; [exact Hk |].
           intros [| j] y' Hj Hy'; [injection Hy' as <-; lra |].
           apply (Hbefore j y'); [lia | exact Hy'].
        -- intros [Hk Hbefore].
           rewrite (proj2 IH); [reflexivity |].
           split; [exact Hk |].
           intros j y' Hj Hy'. apply (Hbefore (S j) y'); [lia | exact Hy'].
Qed.

(** Some entry is found as soon as one qualifies. *)
Lemma first_ge_exists (e : R) (ys : list R) (k : nat) (y : R) :
  List.nth_error ys k = Some y -> e <= y ->
  exists k', first_ge e (List.map Fin ys) = Some k'.
Proof.
  revert k. induction ys as [| y0 ys IH]; intros k Hk Hy; [destruct k; discriminate |].
  cbn [List.map first_ge ge]. destruct (Rle_dec e y0); [eauto |].
  destruct k as [| k]; [injection Hk as <-; contradiction |].
  destruct (IH k Hk Hy) as [k' ->]. eauto.
Qed.

Lemma nth_error_last_nonempty {A : Type} (l : list A) (x d : A) :
  List.nth_error (x :: l) (length l) = Some (List.last (x :: l) d).
Proof.
  revert x. induction l as [| y l IH]; intros x; [reflexivity |].
  cbn [length List.nth_error]. rewrite IH. reflexivity.
Qed.

Lemma exp_le_mono (a b : R) : a <= b -> exp a <= exp b.
Proof. intros [H | ->]; [left; apply exp_increasing, H | right; reflexivity]. Qed.

Lemma cum_succ_cons (r : R) (rs : list R) (k : nat) :
  cum (r :: rs) (S k) = exp r + cum rs k.
Proof. unfold cum. cbn [List.firstn List.map]. apply PlotTool.sum_cons. Qed.

Lemma cum_mono (rs : list R) :
  forall k k' : nat, (k <= k')%nat -> cum rs k <= cum rs k'.
Proof.
  induction rs as [| r rs IH]; intros k k' Hle.
  - unfold cum. rewrite !List.firstn_nil. lra.
  - destruct k as [| k].
    + replace (cum (r :: rs) 0) with 0 by reflexivity.
      apply sum_exp_pos.
    + destruct k' as [| k']; [lia |]. rewrite !cum_succ_cons.
      specialize (IH k k'). apply Rplus_le_compat_l, IH. lia.
Qed.

Lemma last_map_fin (l : list R) :
  forall x : R,
    List.last (List.map Fin (x :: l)) NegInf = Fin (List.last (x :: l) 0).
Proof.
  induction l as [| y l IH]; intros x; [reflexivity |].
  change (List.last (List.map Fin (x :: y :: l)) NegInf)
    with (List.last (List.map Fin (y :: l)) NegInf).
  change (List.last (x :: y :: l) 0) with (List.last (y :: l) 0).
  apply IH.
Qed.

(** The search result in terms of cumulative weights, for finite
    log-probabilities. *)
Lemma sample_categorical_log_fin (r0 : R) (rs' : list R) (u : R) :
  0 < u < 1 ->
  let rs := r0 :: rs' in
  exists i : nat,
    sample_categorical_log (List.map Fin rs) u = Ok (Z.of_nat i) /\
    (i < length rs)%nat /\
    cum rs i < u * cum rs (length rs) <= cum rs (S i).
Proof.
  intros [Hu0 Hu1] rs.
  set (es := r0 :: running r0 rs').
  set (t := List.last es 0).
  assert (Hes : forall k e, List.nth_error es k = Some e -> exp e = cum rs (S k)).
  { intros k e Hk. unfold rs. rewrite cum_succ_cons.
    apply (running_exp rs' r0 k e Hk). }
  assert (Hlast : List.nth_error es (length rs') = Some t).
  { unfold es, t. rewrite <- (running_length rs' r0) at 1.
    apply nth_error_last_nonempty. }
  assert (Htot : exp t = cum rs (length rs))
    by (rewrite (Hes _ _ Hlast); reflexivity).
  assert (Hpos : 0 < cum rs (length rs)) by (rewrite <- Htot; apply exp_pos).
  assert (Hlnu : ln u < 0) by (rewrite <- ln_1; apply ln_increasing; lra).
  assert (Hevents : accumulate NegInf (List.map Fin rs) = NegInf :: List.map Fin es).
  { unfold rs, es. cbn [List.map accumulate logaddexp]. rewrite accumulate_fin.
    reflexivity. }
  assert (Hshift :
    List.map (minus (List.last (accumulate NegInf (List.map Fin rs)) NegInf))
             (accumulate NegInf (List.map Fin rs))
    = NegInf :: List.map Fin (List.map (fun e => e - t) es)).
  { rewrite Hevents.
    assert (El : List.last (NegInf :: List.map Fin es) NegInf = Fin t).
    { unfold t, es.
      change (List.last (NegInf :: List.map Fin (r0 :: running r0 rs')) NegInf)
        with (List.last (List.map Fin (r0 :: running r0 rs')) NegInf).
      apply last_map_fin. }
    rewrite El.
    change (List.map (minus (Fin t)) (NegInf :: List.map Fin es))
      with (NegInf :: List.map (minus (Fin t)) (List.map Fin es)).
    rewrite !List.map_map. reflexivity. }
  assert (Hfound : exists k, first_ge (ln u)
             (List.map Fin (List.map (fun e => e - t) es)) = Some k).
  { apply (first_ge_exists _ _ (length rs') (t - t)).
    - rewrite List.nth_error_map, Hlast. reflexivity.
    - lra. }
  destruct Hfound as [k Hk].
  destruct (proj1 (first_ge_fin _ _ k) Hk) as [(y & Hy & Hge) Hbefore].
  rewrite List.nth_error_map in Hy.
  destruct (List.nth_error es k) as [e |] eqn:Ee; [| discriminate].
  injection Hy as <-.
  assert (Hklt : (k < length rs)%nat).
  { assert (H : (k < length es)%nat) by (apply List.nth_error_Some; congruence).
    unfold es, rs in *. cbn [length] in *. rewrite running_length in H. exact H. }
  exists k. split; [| split; [exact Hklt |]].
  - unfold sample_categorical_log. rewrite log_ok by exact Hu0. cbn [bind].
    rewrite Hshift. cbn [first_ge ge]. rewrite Hk. cbn [option_map].
    f_equal. lia.
  - assert (Hdiv : forall a, exp (a - t) * cum rs (length rs) = exp a).
    { intros a. unfold Rminus. rewrite exp_plus, exp_Ropp, <- Htot.
      field. apply Rgt_not_eq, exp_pos. }
    split.
    + destruct k as [| k].
      * replace (cum rs 0) with 0 by reflexivity.
        apply Rmult_lt_0_compat; assumption.
      * destruct (List.nth_error es k) as [e' |] eqn:Ee'.
        -- assert (Hlt' : e' - t < ln u).
           { apply (Hbefore k (e' - t)); [lia |].
             rewrite List.nth_error_map, Ee'. reflexivity. }
           apply exp_increasing in Hlt'. rewrite exp_ln in Hlt' by exact Hu0.
           rewrite <- (Hes k e' Ee'), <- (Hdiv e').
           apply Rmult_lt_compat_r; assumption.
        -- apply List.nth_error_None in Ee'.
           assert (H : (S k < length es)%nat) by (apply List.nth_error_Some; congruence).
           lia.
    + apply exp_le_mono in Hge. rewrite exp_ln in Hge by exact Hu0.
      rewrite <- (Hes k e Ee), <- (Hdiv e).
      apply Rmult_le_compat_r; lra.
Qed.

(** X13. For finite log-probabilities (at least one) and a uniform draw
    [0 < u < 1], the sampler returns an index [i] of the array, and it is the
    one at which the cumulative weight first reaches the fraction [u] of the
    total weight. *)
Theorem sample_categorical_log_cumulative (rs : list R) (u : R) :
  rs <> [] -> 0 < u < 1 ->
  exists i : nat,
    sample_categorical_log (List.map Fin rs) u = Ok (Z.of_nat i) /\
    (i < length rs)%nat /\
    cum rs i < u * cum rs (length rs) <= cum rs (S i).
Proof.
  intros Hne Hu. destruct rs as [| r0 rs']; [contradiction |].
  apply sample_categorical_log_fin. exact Hu.
Qed.

Lemma sample_categorical_log_cumulative_witness :
  exists i : nat,
    sample_categorical_log (List.map Fin [0; 0; 0]) (1 / 2) = Ok (Z.of_nat i) /\
    (i < length [0; 0; 0])%nat /\
    cum [0; 0; 0] i < 1 / 2 * cum [0; 0; 0] (length [0; 0; 0]) <= cum [0; 0; 0] (S i).
Proof.
  apply (sample_categorical_log_cumulative [0; 0; 0] (1 / 2)); [discriminate | lra].
Defined.

Lemma cum_shift (c : R) (rs : list R) (k : nat) :
  cum (List.map (fun r => r + c) rs) k = exp c * cum rs k.
Proof.
  unfold cum. rewrite List.firstn_map, List.map_map.
  induction (List.firstn k rs) as [| r l IH]; cbn [List.map].
  - rewrite PlotTool.sum_nil. ring.
  - rewrite !PlotTool.sum_cons, IH, exp_plus. ring.
Qed.

(** X14. The log-probabilities need not be normalised: adding one constant
    to all of them does not change the sampled index. *)
Theorem sample_categorical_log_shift (rs : list R) (c u : R) :
  rs <> [] -> 0 < u < 1 ->
  sample_categorical_log (List.map Fin (List.map (fun r => r + c) rs)) u
    = sample_categorical_log (List.map Fin rs) u.
Proof.
  intros Hne Hu.
  assert (Hne' : List.map (fun r => r + c) rs <> [])
    by (destruct rs; [contradiction | discriminate]).
  destruct rs as [| r0 rs'] eqn:Ers; [contradiction |]. rewrite <- Ers in *.
  assert (H1 := sample_categorical_log_fin r0 rs' u Hu).
  assert (H2 := sample_categorical_log_fin (r0 + c)
                  (List.map (fun r => r + c) rs') u Hu).
  cbv zeta in H1, H2.
  change ((r0 + c) :: List.map (fun r => r + c) rs')
    with (List.map (fun r => r + c) (r0 :: rs')) in H2.
  rewrite <- Ers in H1, H2.
  destruct H1 as (i & -> & Hi & Hlo & Hhi).
  destruct H2 as (j & -> & Hj & Hlo' & Hhi').
  rewrite !cum_shift, length_map in *.
  pose proof (exp_pos c) as Hc.
  assert (Hlo2 : cum rs j < u * cum rs (length rs)) by nra.
  assert (Hhi2 : u * cum rs (length rs) <= cum rs (S j)) by nra.
  f_equal. f_equal.
  destruct (Nat.lt_trichotomy i j) as [Hlt | [-> | Hgt]]; [| reflexivity |].
  - pose proof (cum_mono rs (S i) j Hlt). lra.
  - pose proof (cum_mono rs (S j) i Hgt). lra.
Qed.

Lemma sample_categorical_log_shift_witness :
  sample_categorical_log (List.map Fin (List.map (fun r => r + 5) [0; 1])) (1 / 2)
    = sample_categorical_log (List.map Fin [0; 1]) (1 / 2).
Proof.
  apply (sample_categorical_log_shift [0; 1] 5 (1 / 2)); [discriminate | lra].
Defined.

(** X15. The sampler never returns normally on an empty array, on a draw
    [u = 0], or when every log-probability is minus infinity. *)
Theorem sample_categorical_log_failures (log_p : list ext) (u : R) :
  sample_categorical_log log_p 0 = Raise ValueError /\
  (0 < u -> Forall (fun x => x = NegInf) log_p ->
   sample_categorical_log log_p u = Raise (OtherError "StopIteration")).
Proof.
  split.
  - unfold sample_categorical_log, log.
    destruct (Rlt_dec 0 0); [lra | reflexivity].
  - intros Hu Hall. unfold sample_categorical_log. rewrite log_ok by exact Hu.
    cbn [bind].
    assert (Hacc : accumulate NegInf log_p = List.repeat NegInf (S (length log_p))).
    { induction Hall as [| x l -> _ IH]; [reflexivity |].
      cbn [accumulate logaddexp length List.repeat]. rewrite IH. reflexivity. }
    rewrite Hacc.
    assert (Hlast : List.last (List.repeat NegInf (S (length log_p))) NegInf = NegInf).
    { generalize (length log_p) as n. induction n as [| n IH]; [reflexivity |].
      change (List.last (List.repeat NegInf (S (S n))) NegInf)
        with (List.last (List.repeat NegInf (S n)) NegInf). exact IH. }
    rewrite Hlast.
    assert (Hnone : forall n, first_ge (ln u)
              (List.map (minus NegInf) (List.repeat NegInf n)) = None).
    { induction n as [| n IH]; [reflexivity |].
      cbn [List.repeat List.map minus first_ge ge]. rewrite IH. reflexivity. }
    rewrite Hnone. reflexivity.
Qed.

Lemma sample_categorical_log_failures_witness :
  sample_categorical_log [] (1 / 2) = Raise (OtherError "StopIteration").
Proof.
  apply (proj2 (sample_categorical_log_failures [] (1 / 2))); [lra | constructor].
Defined.

End Categorical.

(** ** Prior mean and covariance builders *)

Module Priors.
Import Py Mat Marginal.

Lemma concat_lengths_agree (G : Graph) (order : list reprname) :
  match prior_covariance_parts G order, prior_mean_parts G order with
  | Ok a, Ok b => length (List.concat a) = length (List.concat b)
  | Raise e, Raise e' => e = e'
  | _, _ => False
  end.
Proof.
  induction order as [| name order IH]; [reflexivity |].
  cbn [prior_covariance_parts prior_mean_parts].
  destruct name; cbn [bind];
    try (destruct (perturbations G) as [perts |]; cbn [bind]);
    try reflexivity;
    destruct (prior_covariance_parts G order) as [a | e],
             (prior_mean_parts G order) as [b | e'];
    cbn [bind]; try contradiction; try exact IH;
    rewrite ?List.concat_app, ?length_app; cbn [List.concat];
    rewrite ?List.app_nil_r, ?length_app, ?IH;
    unfold full; rewrite ?length_map, ?List.repeat_length; try reflexivity.
  f_equal. clear. induction perts as [| p perts IHp]; [reflexivity |].
  cbn [List.map List.concat]. rewrite !length_app, IHp.
  unfold full. rewrite !List.repeat_length. reflexivity.
Qed.

Lemma covariance_parts_built (G : Graph) (order : list reprname) :
  Forall (fun name => name <> PROCESSVAR) order ->
  (In PERT_VALUE order -> perturbations G <> None) ->
  exists a, prior_covariance_parts G order = Ok a.
Proof.
  intros Hnames Hperts. induction Hnames as [| name order Hname Hnames IH];
    [cbn; eauto |].
  destruct IH as [rest Hrest]; [intros Hin; apply Hperts; right; exact Hin |].
  cbn [prior_covariance_parts]. rewrite Hrest.
  destruct name; cbn [bind]; eauto; [| contradiction].
  destruct (perturbations G) as [perts |] eqn:E; cbn [bind]; [eauto |].
  exfalso. apply Hperts; [left; reflexivity | reflexivity].
Qed.

(** X16. For a list of the regression names ([PERT_VALUE] only when the
    graph has perturbations) the prior mean vector and the prior covariance
    (or precision) matrix are both built, and they are conformable: the
    matrix is square with as many rows as the mean has, so their product is
    defined. *)
Theorem prior_mean_and_covariance_conform (G : Graph) (cov : bool)
    (order : list reprname) :
  Forall (fun name => name <> PROCESSVAR) order ->
  (In PERT_VALUE order -> perturbations G <> None) ->
  exists P m : dense,
    build_prior_covariance G cov order = Ok P /\
    build_prior_mean G order = Ok m /\
    nrows P = ncols P /\ ncols P = nrows m /\ ncols m = 1%nat /\
    exists Pm, matmul P m = Ok Pm.
Proof.
  intros Hnames Hperts.
  destruct (covariance_parts_built G order Hnames Hperts) as [a Ha].
  pose proof (concat_lengths_agree G order) as H. rewrite Ha in H.
  unfold build_prior_covariance, build_prior_mean. rewrite Ha.
  destruct (prior_mean_parts G order) as [b | e']; [| contradiction]. cbn [bind].
  assert (Hlen : length (if cov then List.concat a
                         else List.map (fun v => 1 / v) (List.concat a))
                 = length (List.concat b))
    by (destruct cov; rewrite ?length_map; exact H).
  do 2 eexists. split; [reflexivity |]. split; [reflexivity |].
  unfold diag, colvec, matmul. cbn [nrows ncols mk].
  rewrite Hlen, Nat.eqb_refl. repeat split; eauto.
Qed.

Lemma prior_mean_and_covariance_conform_witness :
  exists P m : dense,
    build_prior_covariance RegressCoeff.active_graph false
      [CLUSTER_INTERACTION_VALUE; PERT_VALUE] = Ok P /\
    build_prior_mean RegressCoeff.active_graph
      [CLUSTER_INTERACTION_VALUE; PERT_VALUE] = Ok m /\
    nrows P = ncols P /\ ncols P = nrows m /\ ncols m = 1%nat /\
    exists Pm, matmul P m = Ok Pm.
Proof.
  apply (prior_mean_and_covariance_conform RegressCoeff.active_graph false
           [CLUSTER_INTERACTION_VALUE; PERT_VALUE]).
  - repeat constructor; discriminate.
  - intros _. discriminate.
Defined.

(** A name outside the four regression blocks is rejected. *)
Lemma unknown_name_rejected (G : Graph) (cov : bool) (order : list reprname) :
  build_prior_covariance G cov (PROCESSVAR :: order) = Raise ValueError /\
  build_prior_mean G (PROCESSVAR :: order) = Raise ValueError.
Proof. split; reflexivity. Qed.

End Priors.

(** ** Process variance: initialisation *)

Module ProcessVarInit.
Import Py PyVal ProcessVar.

(** The process-variance node with its update delay. *)
Record Node := {
  pv : ProcessVarGlobal;
  delay : Z
}.

Definition set_prior_dof (self : ProcessVarGlobal) (d : R) : ProcessVarGlobal :=
  {| value := value self; prior_dof := d; prior_scale := prior_scale self;
     dof := dof self; scale := scale self; diag := diag self; prec := prec self;
     there_are_perturbations := there_are_perturbations self |}.

Definition set_prior_scale (self : ProcessVarGlobal) (s : R) : ProcessVarGlobal :=
  {| value := value self; prior_dof := prior_dof self; prior_scale := s;
     dof := dof self; scale := scale self; diag := diag self; prec := prec self;
     there_are_perturbations := there_are_perturbations self |}.

Definition set_perturbations (self : ProcessVarGlobal) (b : bool) : ProcessVarGlobal :=
  {| value := value self; prior_dof := prior_dof self;
     prior_scale := prior_scale self;
     dof := dof self; scale := scale self; diag := diag self; prec := prec self;
     there_are_perturbations := b |}.

(** The noise level behind an automatic scale option. *)
Definition noise_level (scale_option : string) : option R :=
  if (String.eqb scale_option "auto" || String.eqb scale_option "med")%bool
  then Some 0.2
  else if String.eqb scale_option "low" then Some 0.1
  else if String.eqb scale_option "high" then Some 0.3
  else None.

(** "Set the dof". *)
Definition choose_dof (dof_option dof : PyVal.value) (n_lhs : nat) : result R :=
  match dof_option with
  | VStr opt =>
      if String.eqb opt "manual" then
        match numeric dof with
        | None => Raise TypeError
        | Some d => if Rle_dec d 0 then Raise ValueError else Ok d
        end
      else if String.eqb opt "half" then Ok (INR n_lhs)
      else if (String.eqb opt "auto" || String.eqb opt "diffuse")%bool then Ok 2.5
      else Raise ValueError
  | _ => Raise TypeError
  end.

(** "Set the scale", given the prior degrees of freedom just stored. *)
Definition choose_scale (scale_option scale : PyVal.value) (prior_dof : R) : result R :=
  match scale_option with
  | VStr opt =>
      if String.eqb opt "manual" then
        match numeric scale with
        | None => Raise TypeError
        | Some s => if Rle_dec s 0 then Raise ValueError else Ok s
        end
      else
        match noise_level opt with
        | Some noise => div (noise ^ 2 * (prior_dof - 2)) prior_dof
        | None => Raise ValueError
        end
  | _ => Raise TypeError
  end.

Section Initialize.

(** [self.prior.mean()] as a function of the prior's degrees of freedom and
    scale. *)
Variable prior_mean : R -> R -> R.

(** "Set the value"; the type test of the manual branch looks at [dof], so a
    [value] that is not a number reaches the comparison [value <= 0]: it
    raises for [None], strings and tuples, and compares a boolean as 0 or
    1. *)
Definition choose_value (value_option dof_now value_arg : PyVal.value)
    (prior_dof prior_scale : R) : result R :=
  match value_option with
  | VStr opt =>
      if String.eqb opt "manual" then
        match numeric dof_now with
        | None => Raise TypeError
        | Some _ =>
            match value_arg with
            | VInt z => if Rle_dec (IZR z) 0 then Raise ValueError else Ok (IZR z)
            | VFloat v => if Rle_dec v 0 then Raise ValueError else Ok v
            | VBool true => Ok 1
            | VBool false => Raise ValueError
            | _ => Raise TypeError
            end
        end
      else if (String.eqb opt "prior-mean" || String.eqb opt "auto")%bool
      then Ok (prior_mean prior_dof prior_scale)
      else Raise ValueError
  | _ => Raise TypeError
  end.

(** [ProcessVarGlobal.initialize]; [perturbations] tells whether
    [G.perturbations] is set and [n_lhs] is [len(G.data.lhs)]. *)
Definition initialize (data : Data) (n_lhs : nat) (perturbations : bool)
    (self : Node)
    (dof_option scale_option value_option dof_arg scale_arg value_arg delay_arg
       : PyVal.value)
  : Node * result unit :=
  match delay_arg with
  | VInt d =>
      if (d <? 0)%Z then (self, Raise ValueError)
      else
        let self := {| pv := pv self; delay := d |} in
        match choose_dof dof_option dof_arg n_lhs with
        | Raise e => (self, Raise e)
        | Ok dof0 =>
            let self := {| pv := set_prior_dof (pv self) dof0; delay := d |} in
            match choose_scale scale_option scale_arg dof0 with
            | Raise e => (self, Raise e)
            | Ok scale0 =>
                let self := {| pv := set_prior_scale (pv self) scale0; delay := d |} in
                match choose_value value_option (VFloat dof0) value_arg dof0 scale0 with
                | Raise e => (self, Raise e)
                | Ok v =>
                    match rebuild_diag data (set_value (pv self) v) with
                    | (pv', Ok _) =>
                        ({| pv := set_perturbations pv' perturbations; delay := d |},
                         Ok tt)
                    | (pv', Raise e) => ({| pv := pv'; delay := d |}, Raise e)
                    end
                end
            end
        end
  | _ => (self, Raise TypeError)
  end.

Lemma rebuild_diag_keeps_prior (data : Data) (self : ProcessVarGlobal) :
  prior_dof (fst (rebuild_diag data self)) = prior_dof self /\
  prior_scale (fst (rebuild_diag data self)) = prior_scale self /\
  value (fst (rebuild_diag data self)) = value self.
Proof.
  unfold rebuild_diag.
  destruct (zero_inflation_transition_policy data); [| repeat split].
  destruct (Np.mask_index _ _); repeat split.
Qed.

(** What a successful call has stored. *)
Lemma initialize_ok (data : Data) (n_lhs : nat) (perturbations : bool)
    (self self' : Node)
    (dof_option scale_option value_option dof_arg scale_arg value_arg delay_arg
       : PyVal.value) :
  initialize data n_lhs perturbations self dof_option scale_option value_option
    dof_arg scale_arg value_arg delay_arg = (self', Ok tt) ->
  exists (d : Z) (dof0 scale0 v : R),
    delay_arg = VInt d /\ (0 <= d)%Z /\ delay self' = d /\
    choose_dof dof_option dof_arg n_lhs = Ok dof0 /\
    choose_scale scale_option scale_arg dof0 = Ok scale0 /\
    choose_value value_option (VFloat dof0) value_arg dof0 scale0 = Ok v /\
    prior_dof (pv self') = dof0 /\ prior_scale (pv self') = scale0 /\
    value (pv self') = v.
Proof.
  unfold initialize. intros H.
  destruct delay_arg as [| | d | | |]; try discriminate.
  destruct (d <? 0)%Z eqn:Ed; [discriminate |]. apply Z.ltb_ge in Ed.
  destruct (choose_dof dof_option dof_arg n_lhs) as [dof0 |] eqn:Hdof;
    [| discriminate].
  destruct (choose_scale scale_option scale_arg dof0) as [scale0 |] eqn:Hscale;
    [| discriminate].
  destruct (choose_value _ _ _ _ _) as [v |] eqn:Hval; [| discriminate].
  match type of H with
  | context [rebuild_diag data ?s] =>
      destruct (rebuild_diag_keeps_prior data s) as (Hd & Hs & Hv);
      destruct (rebuild_diag data s) as [pv' [[] | e]]
  end; [| discriminate].
  injection H as <-. cbn [fst] in Hd, Hs, Hv.
  exists d, dof0, scale0, v. cbn [pv delay set_perturbations prior_dof prior_scale value].
  cbn [set_value set_prior_scale set_prior_dof pv prior_dof prior_scale value]
    in Hd, Hs, Hv.
  repeat split; auto.
Qed.

(** X17. After a successful initialisation the delay is non-negative, the
    stored degrees of freedom are positive, a manually given scale or value
    is positive, and an automatic scale is the one whose prior mean
    [scale * dof / (dof - 2)] is the square of the noise level (0.2, 0.1 or
    0.3): [scale * dof = noise^2 * (dof - 2)]. The automatic scale is
    positive exactly when the degrees of freedom exceed 2. *)
Theorem initialize_validates (data : Data) (n_lhs : nat) (perturbations : bool)
    (self self' : Node) (dof_opt scale_opt value_opt : string)
    (dof_arg scale_arg value_arg delay_arg : PyVal.value) :
  initialize data n_lhs perturbations self (VStr dof_opt) (VStr scale_opt)
    (VStr value_opt) dof_arg scale_arg value_arg delay_arg = (self', Ok tt) ->
  (0 <= delay self')%Z /\
  (dof_opt = "manual"%string \/ scale_opt <> "manual"%string ->
     0 < prior_dof (pv self')) /\
  (scale_opt = "manual"%string -> 0 < prior_scale (pv self')) /\
  (value_opt = "manual"%string -> 0 < value (pv self')) /\
  (scale_opt <> "manual"%string ->
     exists noise, noise_level scale_opt = Some noise /\
       prior_scale (pv self') * prior_dof (pv self')
         = noise ^ 2 * (prior_dof (pv self') - 2) /\
       (0 < prior_scale (pv self') <-> 2 < prior_dof (pv self'))).
Proof.
  intros H. apply initialize_ok in H
    as (d & dof0 & scale0 & v & _ & Hd & Hdelay & Hdof & Hscale & Hval & <- & <- & <-).
  assert (Hnonneg : 0 <= prior_dof (pv self')).
  { cbn [choose_dof] in Hdof.
    destruct (String.eqb dof_opt "manual").
    - destruct (numeric dof_arg); [| discriminate].
      destruct (Rle_dec r 0); [discriminate |]. injection Hdof as <-. lra.
    - destruct (String.eqb dof_opt "half").
      + injection Hdof as <-. apply pos_INR.
      + destruct (_ || _)%bool; [| discriminate]. injection Hdof as <-. lra. }
  assert (Hauto : scale_opt <> "manual"%string ->
     exists noise, noise_level scale_opt = Some noise /\ 0 < noise /\
       prior_dof (pv self') <> 0 /\
       prior_scale (pv self')
         = noise ^ 2 * (prior_dof (pv self') - 2) / prior_dof (pv self')).
  { intros Hman. cbn [choose_scale] in Hscale.
    destruct (String.eqb scale_opt "manual") eqn:E;
      [apply String.eqb_eq in E; contradiction |].
    destruct (noise_level scale_opt) as [noise |] eqn:Hnoise; [| discriminate].
    exists noise. split; [reflexivity |].
    assert (0 < noise).
    { unfold noise_level in Hnoise.
      destruct (_ || _)%bool; [injection Hnoise as <-; lra |].
      destruct (String.eqb scale_opt "low"); [injection Hnoise as <-; lra |].
      destruct (String.eqb scale_opt "high"); [injection Hnoise as <-; lra |].
      discriminate. }
    unfold div in Hscale.
    destruct (Req_dec_T (prior_dof (pv self')) 0); [discriminate |].
    injection Hscale as <-. auto. }
  split; [lia |]. split; [| split; [| split]].
  - intros [-> | Hman].
    + cbn in Hdof. destruct (numeric dof_arg); [| discriminate].
      destruct (Rle_dec r 0); [discriminate |]. injection Hdof as <-. lra.
    + destruct (Hauto Hman) as (noise & _ & _ & Hnz & _). lra.
  - intros ->. cbn in Hscale. destruct (numeric scale_arg); [| discriminate].
    destruct (Rle_dec r 0); [discriminate |]. injection Hscale as <-. lra.
  - intros ->. cbn in Hval.
    destruct value_arg as [| [|] | z | r | |]; try discriminate.
    + injection Hval as <-. lra.
    + destruct (Rle_dec (IZR z) 0); [discriminate |]. injection Hval as <-. lra.
    + destruct (Rle_dec r 0); [discriminate |]. injection Hval as <-. lra.
  - intros Hman. destruct (Hauto Hman) as (noise & Hnoise & Hpos & Hnz & Hs).
    exists noise. split; [assumption |].
    set (dofv := prior_dof (pv self')) in *.
    assert (Hdpos : 0 < dofv) by lra.
    assert (Hn2 : 0 < noise ^ 2) by (apply pow_lt; assumption).
    split.
    + rewrite Hs. field. assumption.
    + rewrite Hs. split; intros Hlt.
      * destruct (Rlt_le_dec 2 dofv) as [| Hle]; [assumption | exfalso].
        assert (noise ^ 2 * (dofv - 2) / dofv <= 0); [| lra].
        unfold Rdiv. rewrite <- (Rmult_0_l (/ dofv)).
        apply Rmult_le_compat_r; [left; apply Rinv_0_lt_compat; assumption |].
        nra.
      * apply Rdiv_lt_0_compat; [| assumption]. nra.
Qed.

(** The automatic settings: degrees of freedom 2.5, medium noise, value at
    the prior mean. *)
Definition auto_call (data : Data) (self : Node) : Node * result unit :=
  initialize data 0 false self (VStr "auto") (VStr "auto") (VStr "auto")
    VNone VNone VNone (VInt 0).

End Initialize.

(** The mean of a scaled inverse chi-squared prior. *)
Definition sics_mean (dof scale : R) : R := dof * scale / (dof - 2).

Definition sample_data : Data :=
  {| construct_lhs := fun _ => [1]; dt_vec := [1]; sqrt_dt_vec := [1];
     zero_inflation_transition_policy := None;
     rows_to_include_zero_inflation := [] |}.

Definition blank : Node :=
  {| pv := {| value := 0; prior_dof := 0; prior_scale := 0; dof := 0; scale := 0;
              diag := []; prec := []; there_are_perturbations := false |};
     delay := 0 |}.

Definition auto_scale : R := 0.2 ^ 2 * (2.5 - 2) / 2.5.

Definition after_auto : Node :=
  {| pv := {| value := sics_mean 2.5 auto_scale; prior_dof := 2.5;
              prior_scale := auto_scale; dof := 0; scale := 0;
              diag := [sics_mean 2.5 auto_scale / 1];
              prec := [1 / (sics_mean 2.5 auto_scale / 1)];
              there_are_perturbations := false |};
     delay := 0 |}.

Lemma auto_call_runs : auto_call sics_mean sample_data blank = (after_auto, Ok tt).
Proof.
  unfold auto_call, initialize.
  cbn [Z.ltb Z.compare choose_dof String.eqb Ascii.eqb Bool.eqb orb].
  cbn [choose_scale String.eqb Ascii.eqb Bool.eqb noise_level orb].
  rewrite div_ok by lra.
  reflexivity.
Qed.

Lemma initialize_validates_witness :
  auto_call sics_mean sample_data blank = (after_auto, Ok tt) /\
  (0 <= delay after_auto)%Z /\
  0 < prior_scale (pv after_auto).
Proof.
  pose proof (initialize_validates sics_mean sample_data 0 false blank after_auto
                "auto" "auto" "auto" VNone VNone VNone (VInt 0) auto_call_runs)
    as (Hdelay & Hdof & _ & _ & Hauto).
  split; [exact auto_call_runs |]. split; [exact Hdelay |].
  destruct Hauto as (noise & _ & _ & Hsign); [discriminate |].
  apply Hsign. cbn [prior_dof pv after_auto]. lra.
Defined.

End ProcessVarInit.

(** ** Filtering: one Metropolis-Hastings proposal *)

Module FilterStep.
Import Py.
Local Open Scope py_scope.

(** [l[i] = v] with Python's negative indices; out of range raises. *)
Definition setitem {A : Type} (l : list A) (i : Z) (v : A) : result (list A) :=
  let n := Z.of_nat (length l) in
  let j := if (i <? 0)%Z then (n + i)%Z else i in
  if ((0 <=? j)%Z && (j <? n)%Z)%bool then Ok (<[Z.to_nat j := v]> l)
  else Raise IndexError.

(** [M[i, j] = v] on a two-dimensional array stored by rows. *)
Definition setitem2 (M : list (list R)) (i j : Z) (v : R) : result (list (list R)) :=
  let* row := Np.getitem M i in
  let* row' := setitem row j v in
  setitem M i row'.

(** The fields of a [SubjectLogTrajectorySetMP] that [update_single] reads
    and writes.  [curr_x] and [curr_logx] are the views [x[oidx, :]] and
    [logx[oidx, :]] taken by [persistent_run], so an assignment to
    [curr_x[tidx]] is an assignment to [x[oidx, tidx]].  [persistent_run]
    sets [zero_inflation_data] to [None] before the first proposal, so that
    field is not kept. *)
Record SubjectLogTrajectorySetMP := {
  oidx : Z;
  tidx : Z;
  x : list (list R);
  logx : list (list R);
  sum_q : list R;
  proposal_std : R;
  acceptances : Z;
  total_acceptances : Z;
  n_accepted_iter : Z;
  n_props_local : Z;
  n_props_total : Z;
  zero_inflation_transition_policy : option string
}.

Definition with_x (self : SubjectLogTrajectorySetMP) (v : list (list R))
  : SubjectLogTrajectorySetMP :=
  {| oidx := oidx self; tidx := tidx self; x := v; logx := logx self;
     sum_q := sum_q self; proposal_std := proposal_std self;
     acceptances := acceptances self; total_acceptances := total_acceptances self;
     n_accepted_iter := n_accepted_iter self; n_props_local := n_props_local self;
     n_props_total := n_props_total self;
     zero_inflation_transition_policy := zero_inflation_transition_policy self |}.

Definition with_logx (self : SubjectLogTrajectorySetMP) (v : list (list R))
  : SubjectLogTrajectorySetMP :=
  {| oidx := oidx self; tidx := tidx self; x := x self; logx := v;
     sum_q := sum_q self; proposal_std := proposal_std self;
     acceptances := acceptances self; total_acceptances := total_acceptances self;
     n_accepted_iter := n_accepted_iter self; n_props_local := n_props_local self;
     n_props_total := n_props_total self;
     zero_inflation_transition_policy := zero_inflation_transition_policy self |}.

Definition with_sum_q (self : SubjectLogTrajectorySetMP) (v : list R)
  : SubjectLogTrajectorySetMP :=
  {| oidx := oidx self; tidx := tidx self; x := x self; logx := logx self;
     sum_q := v; proposal_std := proposal_std self;
     acceptances := acceptances self; total_acceptances := total_acceptances self;
     n_accepted_iter := n_accepted_iter self; n_props_local := n_props_local self;
     n_props_total := n_props_total self;
     zero_inflation_transition_policy := zero_inflation_transition_policy self |}.

(** [acceptances += 1; total_acceptances += 1; n_accepted_iter += 1] *)
Definition count_acceptance (self : SubjectLogTrajectorySetMP)
  : SubjectLogTrajectorySetMP :=
  {| oidx := oidx self; tidx := tidx self; x := x self; logx := logx self;
     sum_q := sum_q self; proposal_std := proposal_std self;
     acceptances := acceptances self + 1;
     total_acceptances := total_acceptances self + 1;
     n_accepted_iter := n_accepted_iter self + 1;
     n_props_local := n_props_local self;
     n_props_total := n_props_total self;
     zero_inflation_transition_policy := zero_inflation_transition_policy self |}.

(** [n_props_local += 1; n_props_total += 1] *)
Definition count_proposal (self : SubjectLogTrajectorySetMP)
  : SubjectLogTrajectorySetMP :=
  {| oidx := oidx self; tidx := tidx self; x := x self; logx := logx self;
     sum_q := sum_q self; proposal_std := proposal_std self;
     acceptances := acceptances self; total_acceptances := total_acceptances self;
     n_accepted_iter := n_accepted_iter self;
     n_props_local := n_props_local self + 1;
     n_props_total := n_props_total self + 1;
     zero_inflation_transition_policy := zero_inflation_transition_policy self |}.

(** Statements that change the object and may raise: the object after the
    statement and its outcome. *)
Definition stmt (A : Type) : Type :=
  SubjectLogTrajectorySetMP -> SubjectLogTrajectorySetMP * result A.

Definition pure {A : Type} (a : A) : stmt A := fun self => (self, Ok a).

Definition eval {A : Type} (m : SubjectLogTrajectorySetMP -> result A) : stmt A :=
  fun self => (self, m self).

Definition seq {A B : Type} (m : stmt A) (k : A -> stmt B) : stmt B :=
  fun self =>
    match m self with
    | (self', Ok a) => k a self'
    | (self', Raise e) => (self', Raise e)
    end.

Declare Scope stmt_scope.
Delimit Scope stmt_scope with stmt.
Notation "'run*' a ':=' m 'in' k" := (seq m (fun a => k))
  (at level 10, a name, m at level 100, k at level 200) : stmt_scope.

(** An assignment whose right-hand side or target may raise: the object is
    changed only when it does not. *)
Definition assign (f : SubjectLogTrajectorySetMP -> result SubjectLogTrajectorySetMP)
  : stmt unit :=
  fun self =>
    match f self with
    | Ok self' => (self', Ok tt)
    | Raise e => (self, Raise e)
    end.

(** [self.curr_x[self.tidx] = v] *)
Definition set_curr_x (v : R) : stmt unit :=
  assign (fun self =>
    let* M := setitem2 (x self) (oidx self) (tidx self) v in Ok (with_x self M)).

(** [self.curr_logx[self.tidx] = v] *)
Definition set_curr_logx (v : R) : stmt unit :=
  assign (fun self =>
    let* M := setitem2 (logx self) (oidx self) (tidx self) v in
    Ok (with_logx self M)).

(** [self.sum_q[self.tidx] = self.sum_q[self.tidx] + d] *)
Definition add_sum_q (f : R -> R) : stmt unit :=
  assign (fun self =>
    let* s := Np.getitem (sum_q self) (tidx self) in
    let* q := setitem (sum_q self) (tidx self) (f s) in
    Ok (with_sum_q self q)).

Section UpdateSingle.

(** [pl.random.misc.fast_sample_normal(mean, std)] and
    [pl.random.misc.fast_sample_standard_uniform()] as they answer in this
    call. *)
Variable fast_sample_normal : R -> R -> result R.
Variable fast_sample_standard_uniform : R.

(** The three log-likelihood terms that [persistent_run] has bound to
    [self.forward_loglik], [self.reverse_loglik] and [self.data_loglik];
    they read the object and leave it as it is. *)
Variable forward_loglik reverse_loglik data_loglik :
  SubjectLogTrajectorySetMP -> result R.

(** [aaa + bbb + ddd] with [do_forward] and [do_reverse] both true. *)
Definition loglik (self : SubjectLogTrajectorySetMP) : result R :=
  let* aaa := forward_loglik self in
  let* bbb := reverse_loglik self in
  let* ddd := data_loglik self in
  Ok (aaa + bbb + ddd).

(** The object once the proposal has been written into it. *)
Definition write_proposal (prev_x_value x_new logx_new : R) : stmt unit :=
  (run* _ := set_curr_x x_new in
   run* _ := set_curr_logx logx_new in
   add_sum_q (fun s => s - prev_x_value + x_new))%stmt.

Definition reject (prev_x_value prev_logx_value x_new : R) : stmt unit :=
  (run* _ := add_sum_q (fun s => s + prev_x_value - x_new) in
   run* _ := set_curr_x prev_x_value in
   set_curr_logx prev_logx_value)%stmt.

Definition accept (x_new logx_new : R) : stmt unit :=
  (run* _ := set_curr_x x_new in
   run* _ := set_curr_logx logx_new in
   fun self => (count_acceptance self, Ok tt))%stmt.

(** [update_single].  With a zero-inflation policy the method subscripts
    [zero_inflation_data], which is [None] ('ignore'), or raises
    [NotImplementedError] (any other policy). *)
Definition update_single : stmt unit :=
  fun self =>
  match zero_inflation_transition_policy self with
  | Some policy =>
      if String.eqb policy "ignore" then (self, Raise TypeError)
      else (self, Raise NotImplementedError)
  | None =>
      (run* mu := eval (fun self => Np.getitem2 (logx self) (oidx self) (tidx self)) in
       run* logx_new := eval (fun self => fast_sample_normal mu (proposal_std self)) in
       let x_new := exp logx_new in
       run* prev_logx_value :=
         eval (fun self => Np.getitem2 (logx self) (oidx self) (tidx self)) in
       run* prev_x_value :=
         eval (fun self => Np.getitem2 (x self) (oidx self) (tidx self)) in
       run* l_old := eval loglik in
       run* _ := write_proposal prev_x_value x_new logx_new in
       run* l_new := eval loglik in
       let r_accept := l_new - l_old in
       run* log_r := eval (fun _ => log fast_sample_standard_uniform) in
       run* _ := (if Rgt_dec log_r r_accept
                  then reject prev_x_value prev_logx_value x_new
                  else accept x_new logx_new) in
       fun self => (count_proposal self, Ok tt))%stmt self
  end.

(** *** Indexing *)

(** The position that a Python index denotes in a sequence of length [n]. *)
Definition pos (n : nat) (i : Z) : option nat :=
  let j := if (i <? 0)%Z then (Z.of_nat n + i)%Z else i in
  if ((0 <=? j)%Z && (j <? Z.of_nat n)%Z)%bool then Some (Z.to_nat j) else None.

Lemma nth_error_lookup {A : Type} (l : list A) (i : nat) : nth_error l i = l !! i.
Proof. revert i. induction l as [| a l IH]; intros [| i]; cbn; auto. Qed.

Lemma pos_lt (n : nat) (i : Z) (j : nat) : pos n i = Some j -> (j < n)%nat.
Proof.
  unfold pos. destruct (_ && _)%bool eqn:E; [| discriminate].
  apply andb_true_iff in E as [E1 E2]. apply Z.leb_le in E1. apply Z.ltb_lt in E2.
  intros [= <-]. lia.
Qed.

Lemma pos_nonneg (n : nat) (i : Z) (j : nat) :
  (0 <= i)%Z -> pos n i = Some j -> j = Z.to_nat i.
Proof.
  intros Hi. unfold pos.
  destruct (i <? 0)%Z eqn:E; [apply Z.ltb_lt in E; lia |].
  destruct (_ && _)%bool; [| discriminate]. intros [= <-]. reflexivity.
Qed.

Lemma getitem_pos {A : Type} (l : list A) (i : Z) (a : A) :
  Np.getitem l i = Ok a <-> exists j, pos (length l) i = Some j /\ l !! j = Some a.
Proof.
  unfold Np.getitem, pos. destruct (_ && _)%bool.
  - rewrite nth_error_lookup. split.
    + destruct (l !! _) eqn:E; [| discriminate]. intros [= ->]. eauto.
    + intros (j & [= <-] & ->). reflexivity.
  - split; [discriminate | intros (j & Hj & _); discriminate].
Qed.

Lemma setitem_pos {A : Type} (l : list A) (i : Z) (v : A) (l' : list A) :
  setitem l i v = Ok l' <-> exists j, pos (length l) i = Some j /\ l' = <[j := v]> l.
Proof.
  unfold setitem, pos. destruct (_ && _)%bool.
  - split; [intros [= <-]; eauto | intros (j & [= <-] & ->); reflexivity].
  - split; [discriminate | intros (j & Hj & _); discriminate].
Qed.

Lemma getitem2_pos (M : list (list R)) (i j : Z) (a : R) :
  Np.getitem2 M i j = Ok a <->
  exists o t row, pos (length M) i = Some o /\ M !! o = Some row /\
                  pos (length row) j = Some t /\ row !! t = Some a.
Proof.
  unfold Np.getitem2. split.
  - destruct (Np.getitem M i) as [row |] eqn:E; [| discriminate]. cbn [bind].
    intros H. apply getitem_pos in E as (o & Ho & Hrow).
    apply getitem_pos in H as (t & Ht & Ha). exists o, t, row. auto.
  - intros (o & t & row & Ho & Hrow & Ht & Ha).
    assert (E : Np.getitem M i = Ok row) by (apply getitem_pos; eauto).
    rewrite E. cbn [bind]. apply getitem_pos. eauto.
Qed.

Lemma setitem2_pos (M : list (list R)) (i j : Z) (v : R) (M' : list (list R)) :
  setitem2 M i j v = Ok M' <->
  exists o t row, pos (length M) i = Some o /\ M !! o = Some row /\
                  pos (length row) j = Some t /\ M' = <[o := <[t := v]> row]> M.
Proof.
  unfold setitem2. split.
  - destruct (Np.getitem M i) as [row |] eqn:E; [| discriminate]. cbn [bind].
    destruct (setitem row j v) as [row' |] eqn:E'; [| discriminate]. cbn [bind].
    intros H. apply getitem_pos in E as (o & Ho & Hrow).
    apply setitem_pos in E' as (t & Ht & ->).
    apply setitem_pos in H as (o' & Ho' & ->).
    rewrite Ho in Ho'. injection Ho' as <-. exists o, t, row. auto.
  - intros (o & t & row & Ho & Hrow & Ht & ->).
    assert (E : Np.getitem M i = Ok row) by (apply getitem_pos; eauto).
    rewrite E. cbn [bind].
    assert (E' : setitem row j v = Ok (<[t := v]> row)) by (apply setitem_pos; eauto).
    rewrite E'. cbn [bind]. apply setitem_pos. eauto.
Qed.

(** Writing an entry, then reading it. *)
Lemma getitem2_setitem2 (M M' : list (list R)) (i j : Z) (v : R) :
  setitem2 M i j v = Ok M' -> Np.getitem2 M' i j = Ok v.
Proof.
  intros H. apply setitem2_pos in H as (o & t & row & Ho & Hrow & Ht & ->).
  apply getitem2_pos. exists o, t, (<[t := v]> row).
  rewrite !length_insert. split; [exact Ho |].
  split; [apply list_lookup_insert_eq; eapply pos_lt; exact Ho |].
  split; [exact Ht |]. apply list_lookup_insert_eq. eapply pos_lt; exact Ht.
Qed.

(** Writing an entry, then writing back the value it had. *)
Lemma setitem2_restore (M M1 M2 : list (list R)) (i j : Z) (v old : R) :
  Np.getitem2 M i j = Ok old ->
  setitem2 M i j v = Ok M1 -> setitem2 M1 i j old = Ok M2 -> M2 = M.
Proof.
  intros Hget H1 H2.
  apply getitem2_pos in Hget as (o & t & row & Ho & Hrow & Ht & Hold).
  apply setitem2_pos in H1 as (o1 & t1 & row1 & Ho1 & Hrow1 & Ht1 & ->).
  rewrite Ho in Ho1. injection Ho1 as <-.
  rewrite Hrow in Hrow1. injection Hrow1 as <-.
  rewrite Ht in Ht1. injection Ht1 as <-.
  apply setitem2_pos in H2 as (o2 & t2 & row2 & Ho2 & Hrow2 & Ht2 & ->).
  rewrite length_insert, Ho in Ho2. injection Ho2 as <-.
  rewrite list_lookup_insert_eq in Hrow2 by (eapply pos_lt; exact Ho).
  injection Hrow2 as <-.
  rewrite length_insert, Ht in Ht2. injection Ht2 as <-.
  rewrite !list_insert_insert_eq.
  rewrite (list_insert_id row t old Hold). apply list_insert_id. exact Hrow.
Qed.

Lemma setitem2_twice (M M1 M2 : list (list R)) (i j : Z) (v : R) :
  setitem2 M i j v = Ok M1 -> setitem2 M1 i j v = Ok M2 -> M2 = M1.
Proof.
  intros H1 H2. apply (setitem2_restore M1 M2 M2 i j v v).
  - eapply getitem2_setitem2; exact H1.
  - exact H2.
  - assert (Hget : Np.getitem2 M2 i j = Ok v) by (eapply getitem2_setitem2; exact H2).
    apply getitem2_pos in Hget as (o & t & row & Ho & Hrow & Ht & Hv).
    apply setitem2_pos. exists o, t, row. repeat split; auto.
    rewrite (list_insert_id row t v Hv). symmetry. apply list_insert_id. exact Hrow.
Qed.

(** *** Running statements *)

Lemma seq_ok {A B : Type} (m : stmt A) (k : A -> stmt B)
    (self self' : SubjectLogTrajectorySetMP) (b : B) :
  seq m k self = (self', Ok b) ->
  exists a mid, m self = (mid, Ok a) /\ k a mid = (self', Ok b).
Proof.
  unfold seq. destruct (m self) as [mid [a | e]]; [eauto | discriminate].
Qed.

Lemma eval_ok {A : Type} (f : SubjectLogTrajectorySetMP -> result A)
    (self mid : SubjectLogTrajectorySetMP) (a : A) :
  eval f self = (mid, Ok a) -> mid = self /\ f self = Ok a.
Proof. unfold eval. intros [= <- ->]. auto. Qed.

Lemma assign_ok (f : SubjectLogTrajectorySetMP -> result SubjectLogTrajectorySetMP)
    (self self' : SubjectLogTrajectorySetMP) (u : unit) :
  assign f self = (self', Ok u) -> f self = Ok self'.
Proof.
  unfold assign. destruct (f self); [| discriminate]. intros [= <-]. reflexivity.
Qed.

Ltac step H :=
  let a := fresh "a" in let mid := fresh "mid" in
  let H1 := fresh "Hrun" in
  apply seq_ok in H as (a & mid & H1 & H).

Lemma set_curr_x_ok (v : R) (self self' : SubjectLogTrajectorySetMP) (u : unit) :
  set_curr_x v self = (self', Ok u) ->
  exists M, setitem2 (x self) (oidx self) (tidx self) v = Ok M /\ self' = with_x self M.
Proof.
  intros H. unfold set_curr_x in H. apply assign_ok in H.
  destruct (setitem2 _ _ _ _) as [M |]; [| discriminate].
  injection H as <-. eauto.
Qed.

Lemma set_curr_logx_ok (v : R) (self self' : SubjectLogTrajectorySetMP) (u : unit) :
  set_curr_logx v self = (self', Ok u) ->
  exists M, setitem2 (logx self) (oidx self) (tidx self) v = Ok M /\
            self' = with_logx self M.
Proof.
  intros H. unfold set_curr_logx in H. apply assign_ok in H.
  destruct (setitem2 _ _ _ _) as [M |]; [| discriminate].
  injection H as <-. eauto.
Qed.

Lemma add_sum_q_ok (f : R -> R) (self self' : SubjectLogTrajectorySetMP) (u : unit) :
  add_sum_q f self = (self', Ok u) ->
  exists t s, pos (length (sum_q self)) (tidx self) = Some t /\
              sum_q self !! t = Some s /\
              self' = with_sum_q self (<[t := f s]> (sum_q self)).
Proof.
  intros H. unfold add_sum_q in H. apply assign_ok in H.
  destruct (Np.getitem _ _) as [s |] eqn:E; [| discriminate]. cbn [bind] in H.
  destruct (setitem _ _ _) as [q |] eqn:E'; [| discriminate]. cbn [bind] in H.
  injection H as <-. apply getitem_pos in E as (t & Ht & Hs).
  apply setitem_pos in E' as (t' & Ht' & ->).
  rewrite Ht in Ht'. injection Ht' as <-. eauto.
Qed.

(** What a proposal that has been written looks like. *)
Record written (self proposed : SubjectLogTrajectorySetMP)
    (prev_x_value x_new logx_new : R) : Prop := {
  written_x : setitem2 (x self) (oidx self) (tidx self) x_new = Ok (x proposed);
  written_logx :
    setitem2 (logx self) (oidx self) (tidx self) logx_new = Ok (logx proposed);
  written_sum_q :
    exists t s, pos (length (sum_q self)) (tidx self) = Some t /\
                sum_q self !! t = Some s /\
                sum_q proposed = <[t := s - prev_x_value + x_new]> (sum_q self);
  written_rest :
    proposed = with_sum_q (with_logx (with_x self (x proposed)) (logx proposed))
                          (sum_q proposed)
}.

Lemma write_proposal_ok (prev_x_value x_new logx_new : R)
    (self proposed : SubjectLogTrajectorySetMP) (u : unit) :
  write_proposal prev_x_value x_new logx_new self = (proposed, Ok u) ->
  written self proposed prev_x_value x_new logx_new.
Proof.
  unfold write_proposal. intros H. step H. step H.
  apply set_curr_x_ok in Hrun as (M1 & HM1 & ->).
  apply set_curr_logx_ok in Hrun0 as (M2 & HM2 & ->).
  apply add_sum_q_ok in H as (t & s & Ht & Hs & ->).
  cbn in *. constructor; cbn; eauto.
Qed.

(** The outcome of a call that returns. *)
Inductive verdict := Accepted | Rejected.

Record returned (self self' proposed : SubjectLogTrajectorySetMP)
    (prev_x_value logx_new l_old l_new : R) (v : verdict) : Prop := {
  ret_policy : zero_inflation_transition_policy self = None;
  ret_draw :
    exists mu, Np.getitem2 (logx self) (oidx self) (tidx self) = Ok mu /\
               fast_sample_normal mu (proposal_std self) = Ok logx_new;
  ret_prev : Np.getitem2 (x self) (oidx self) (tidx self) = Ok prev_x_value;
  ret_write :
    write_proposal prev_x_value (exp logx_new) logx_new self = (proposed, Ok tt);
  ret_written : written self proposed prev_x_value (exp logx_new) logx_new;
  ret_l_old : loglik self = Ok l_old;
  ret_l_new : loglik proposed = Ok l_new;
  ret_uniform : 0 < fast_sample_standard_uniform;
  ret_verdict :
    match v with
    | Accepted =>
        ln fast_sample_standard_uniform <= l_new - l_old /\
        self' = count_proposal (count_acceptance proposed)
    | Rejected =>
        l_new - l_old < ln fast_sample_standard_uniform /\
        self' = count_proposal self
    end
}.

Lemma with_same (self : SubjectLogTrajectorySetMP) :
  with_sum_q (with_logx (with_x self (x self)) (logx self)) (sum_q self) = self.
Proof. destruct self. reflexivity. Qed.

Lemma update_single_returns (self self' : SubjectLogTrajectorySetMP) :
  update_single self = (self', Ok tt) ->
  exists proposed prev_x_value logx_new l_old l_new v,
    returned self self' proposed prev_x_value logx_new l_old l_new v.
Proof.
  unfold update_single. intros H.
  destruct (zero_inflation_transition_policy self) as [policy |] eqn:Hpol.
  { destruct (String.eqb policy "ignore"); discriminate. }
  apply seq_ok in H as (mu & ? & Hmu & H). apply eval_ok in Hmu as [-> Hmu].
  apply seq_ok in H as (logx_new & ? & Hdraw & H).
  apply eval_ok in Hdraw as [-> Hdraw].
  apply seq_ok in H as (prev_logx_value & ? & Hprev_logx & H).
  apply eval_ok in Hprev_logx as [-> Hprev_logx].
  apply seq_ok in H as (prev_x_value & ? & Hprev_x & H).
  apply eval_ok in Hprev_x as [-> Hprev_x].
  apply seq_ok in H as (l_old & ? & Hold & H). apply eval_ok in Hold as [-> Hold].
  apply seq_ok in H as ([] & proposed & Hrun & H).
  pose proof (write_proposal_ok _ _ _ _ _ _ Hrun) as Hw.
  apply seq_ok in H as (l_new & ? & Hnew & H). apply eval_ok in Hnew as [-> Hnew].
  apply seq_ok in H as (log_r & ? & Hlog & H). apply eval_ok in Hlog as [-> Hlog].
  assert (Hu : 0 < fast_sample_standard_uniform /\
               log_r = ln fast_sample_standard_uniform).
  { unfold log in Hlog. destruct (Rlt_dec 0 fast_sample_standard_uniform);
      [injection Hlog as <-; auto | discriminate]. }
  destruct Hu as [Hu ->].
  apply seq_ok in H as ([] & final & Hrun0 & H). injection H as <-.
  destruct (Rgt_dec (ln fast_sample_standard_uniform) (l_new - l_old)) as [Hgt | Hle].
  - (* reject *)
    exists proposed, prev_x_value, logx_new, l_old, l_new, Rejected.
    constructor; eauto. split; [exact Hgt |]. f_equal.
    unfold reject in Hrun0. step Hrun0. step Hrun0.
    apply add_sum_q_ok in Hrun1 as (t & s & Ht & Hs & ->).
    apply set_curr_x_ok in Hrun2 as (M1 & HM1 & ->).
    apply set_curr_logx_ok in Hrun0 as (M2 & HM2 & ->).
    cbn in HM1, HM2.
    destruct Hw as [Hwx Hwl (t' & s' & Ht' & Hs' & Hq) Hrest].
    assert (Ho : oidx proposed = oidx self) by (rewrite Hrest; reflexivity).
    assert (Hti : tidx proposed = tidx self) by (rewrite Hrest; reflexivity).
    rewrite Ho, Hti in HM1, HM2. rewrite Hti in Ht.
    rewrite Hq, length_insert, Ht' in Ht. injection Ht as <-.
    rewrite Hq, list_lookup_insert_eq in Hs by (eapply pos_lt; exact Ht').
    injection Hs as <-.
    rewrite (setitem2_restore _ _ _ _ _ _ _ Hprev_x Hwx HM1).
    rewrite (setitem2_restore _ _ _ _ _ _ _ Hprev_logx Hwl HM2).
    rewrite Hq, list_insert_insert_eq.
    replace (s' - prev_x_value + exp logx_new + prev_x_value - exp logx_new)
      with s' by lra.
    rewrite (list_insert_id _ _ _ Hs').
    rewrite Hrest. destruct self; reflexivity.
  - (* accept *)
    exists proposed, prev_x_value, logx_new, l_old, l_new, Accepted.
    constructor; eauto. split; [lra |]. f_equal.
    unfold accept in Hrun0. step Hrun0. step Hrun0.
    apply set_curr_x_ok in Hrun1 as (M1 & HM1 & ->).
    apply set_curr_logx_ok in Hrun2 as (M2 & HM2 & ->).
    injection Hrun0 as <-. cbn in HM2.
    destruct Hw as [Hwx Hwl _ Hrest].
    assert (Ho : oidx proposed = oidx self) by (rewrite Hrest; reflexivity).
    assert (Hti : tidx proposed = tidx self) by (rewrite Hrest; reflexivity).
    rewrite Ho, Hti in HM1, HM2.
    rewrite (setitem2_twice _ _ _ _ _ _ Hwx HM1).
    rewrite (setitem2_twice _ _ _ _ _ _ Hwl HM2).
    clear. destruct proposed; reflexivity.
Qed.

(** X18. A call of [update_single] that returns has drawn a proposal
    [logx_new], written it and [exp logx_new] into the trajectory, and
    compared the log-likelihoods [l_old] before and [l_new] after the write
    with the logarithm of a positive uniform draw [u].  If
    [ln u <= l_new - l_old] the proposal is kept: the entry holds
    [logx_new] and [exp logx_new] and the three acceptance counters go up by
    one.  Otherwise the trajectory, its logarithm and the column totals are
    exactly what they were and the acceptance counters are unchanged.  Both
    proposal counters go up by one in either case. *)
Theorem update_single_accept_or_restore (self self' : SubjectLogTrajectorySetMP) :
  update_single self = (self', Ok tt) ->
  exists (prev_x_value logx_new l_old l_new : R) (proposed : SubjectLogTrajectorySetMP),
    Np.getitem2 (x self) (oidx self) (tidx self) = Ok prev_x_value /\
    write_proposal prev_x_value (exp logx_new) logx_new self = (proposed, Ok tt) /\
    loglik self = Ok l_old /\ loglik proposed = Ok l_new /\
    0 < fast_sample_standard_uniform /\
    n_props_local self' = (n_props_local self + 1)%Z /\
    n_props_total self' = (n_props_total self + 1)%Z /\
    ((ln fast_sample_standard_uniform <= l_new - l_old /\
      Np.getitem2 (logx self') (oidx self) (tidx self) = Ok logx_new /\
      Np.getitem2 (x self') (oidx self) (tidx self) = Ok (exp logx_new) /\
      acceptances self' = (acceptances self + 1)%Z /\
      total_acceptances self' = (total_acceptances self + 1)%Z /\
      n_accepted_iter self' = (n_accepted_iter self + 1)%Z)
     \/
     (l_new - l_old < ln fast_sample_standard_uniform /\
      x self' = x self /\ logx self' = logx self /\ sum_q self' = sum_q self /\
      acceptances self' = acceptances self /\
      total_acceptances self' = total_acceptances self /\
      n_accepted_iter self' = n_accepted_iter self)).
Proof.
  intros H.
  apply update_single_returns in H
    as (proposed & prev_x_value & logx_new & l_old & l_new & v & Hret).
  destruct Hret as [Hpol Hdraw Hprev Hwrite Hw Hold Hnew Hu Hv].
  exists prev_x_value, logx_new, l_old, l_new, proposed.
  destruct Hw as [Hwx Hwl Hq Hrest].
  assert (Hcount : n_props_local proposed = n_props_local self /\
                   n_props_total proposed = n_props_total self /\
                   acceptances proposed = acceptances self /\
                   total_acceptances proposed = total_acceptances self /\
                   n_accepted_iter proposed = n_accepted_iter self)
    by (rewrite Hrest; repeat split; reflexivity).
  destruct Hcount as (Hc1 & Hc2 & Hc3 & Hc4 & Hc5).
  repeat (split; [assumption |]).
  destruct v; destruct Hv as [Hcmp ->]; cbn.
  - split; [congruence |]. split; [congruence |]. left.
    split; [exact Hcmp |].
    split; [eapply getitem2_setitem2; exact Hwl |].
    split; [eapply getitem2_setitem2; exact Hwx |].
    repeat split; congruence.
  - split; [reflexivity |]. split; [reflexivity |]. right. repeat split. exact Hcmp.
Qed.

(** *** The column totals *)

(** [sum_q[t]] is the total of column [t] of [x]. *)
Definition column_sums_agree (self : SubjectLogTrajectorySetMP) : Prop :=
  forall (t : nat) (s : R),
    sum_q self !! t = Some s ->
    exists col, Np.column (x self) (Z.of_nat t) = Ok col /\ Np.sum col = s.

Lemma getitem_nat {A : Type} (l : list A) (k : nat) :
  Np.getitem l (Z.of_nat k)
    = match l !! k with Some a => Ok a | None => Raise IndexError end.
Proof.
  destruct (l !! k) as [a |] eqn:E.
  - apply Filter.nth_error_getitem. rewrite nth_error_lookup. exact E.
  - unfold Np.getitem. apply lookup_ge_None in E.
    destruct (Z.of_nat k <? 0)%Z eqn:Hneg; [apply Z.ltb_lt in Hneg; lia |].
    destruct (_ && _)%bool eqn:Hb; [| reflexivity].
    apply andb_true_iff in Hb as [_ Hb]. apply Z.ltb_lt in Hb. lia.
Qed.

Lemma insert_cons_0 {A : Type} (a v : A) (l : list A) :
  <[0%nat := v]> (a :: l) = v :: l.
Proof. reflexivity. Qed.

Lemma insert_cons_S {A : Type} (a v : A) (l : list A) (o : nat) :
  <[S o := v]> (a :: l) = a :: <[o := v]> l.
Proof. reflexivity. Qed.

Lemma column_insert_ne (M : list (list R)) (o t k : nat) (row : list R) (v : R) :
  M !! o = Some row -> k <> t ->
  Np.column (<[o := <[t := v]> row]> M) (Z.of_nat k) = Np.column M (Z.of_nat k).
Proof.
  revert o. induction M as [| r M IH]; intros o Hrow Hk; [discriminate |].
  destruct o as [| o]; cbn in Hrow.
  - injection Hrow as ->. rewrite insert_cons_0. cbn [Np.column].
    rewrite !getitem_nat.
    rewrite list_lookup_insert_ne by congruence. reflexivity.
  - rewrite insert_cons_S. cbn [Np.column].
    rewrite (IH o Hrow Hk). reflexivity.
Qed.

Lemma column_insert_eq (M : list (list R)) (o t : nat) (row col : list R) (v : R) :
  M !! o = Some row -> (t < length row)%nat ->
  Np.column M (Z.of_nat t) = Ok col ->
  Np.column (<[o := <[t := v]> row]> M) (Z.of_nat t) = Ok (<[o := v]> col) /\
  col !! o = row !! t.
Proof.
  revert o col. induction M as [| r M IH]; intros o col Hrow Ht Hcol; [discriminate |].
  cbn [Np.column] in Hcol.
  destruct (Np.getitem r (Z.of_nat t)) as [a |] eqn:Ea; [| discriminate].
  cbn [bind] in Hcol.
  destruct (Np.column M (Z.of_nat t)) as [c |] eqn:Ec; [| discriminate].
  cbn [bind] in Hcol. injection Hcol as <-.
  destruct o as [| o]; cbn in Hrow.
  - injection Hrow as ->. rewrite !insert_cons_0. cbn [Np.column].
    rewrite getitem_nat, list_lookup_insert_eq by exact Ht. cbn [bind].
    rewrite Ec. cbn [bind]. split; [reflexivity |].
    rewrite getitem_nat in Ea. destruct (row !! t); [| discriminate].
    injection Ea as ->. reflexivity.
  - rewrite !insert_cons_S. cbn [Np.column]. rewrite Ea. cbn [bind].
    destruct (IH o c Hrow Ht eq_refl) as [E1 E2].
    rewrite E1. cbn [bind]. split; [reflexivity | exact E2].
Qed.

Lemma sum_insert (l : list R) (o : nat) (p v : R) :
  l !! o = Some p -> Np.sum (<[o := v]> l) = Np.sum l - p + v.
Proof.
  revert o. induction l as [| a l IH]; intros o Hp; [discriminate |].
  destruct o as [| o]; cbn in Hp.
  - injection Hp as ->. rewrite insert_cons_0. cbn [Np.sum fold_right]. lra.
  - rewrite insert_cons_S.
    change (Np.sum (a :: <[o:=v]> l)) with (a + Np.sum (<[o:=v]> l)).
    change (Np.sum (a :: l)) with (a + Np.sum l).
    rewrite (IH o Hp). lra.
Qed.

(** X19. [update_single] keeps [sum_q] equal to the column totals of [x]:
    if every [sum_q[t]] is the sum of column [t] before a call that
    returns, it is so afterwards, whether the proposal was kept or not. *)
Theorem update_single_keeps_column_sums (self self' : SubjectLogTrajectorySetMP) :
  update_single self = (self', Ok tt) ->
  (0 <= oidx self)%Z -> (0 <= tidx self)%Z ->
  column_sums_agree self -> column_sums_agree self'.
Proof.
  intros H Ho Ht Hagree.
  apply update_single_returns in H
    as (proposed & prev_x_value & logx_new & l_old & l_new & v & Hret).
  destruct Hret as [Hpol Hdraw Hprev Hwrite Hw Hold Hnew Hu Hv].
  destruct v; destruct Hv as [_ ->]; [| exact Hagree].
  destruct Hw as [Hwx _ (t & s & Hpos & Hs & Hq) _].
  apply getitem2_pos in Hprev as (o & t1 & row & Hpo & Hrow & Hpt & Hprev).
  apply setitem2_pos in Hwx as (o' & t' & row' & Hpo' & Hrow' & Hpt' & Hx).
  rewrite Hpo in Hpo'. injection Hpo' as <-.
  rewrite Hrow in Hrow'. injection Hrow' as <-.
  rewrite Hpt in Hpt'. injection Hpt' as <-.
  apply pos_nonneg in Hpos; [| exact Ht].
  pose proof (pos_lt _ _ _ Hpt) as Hlt.
  apply pos_nonneg in Hpt; [| exact Ht]. subst t t1.
  set (t := Z.to_nat (tidx self)) in *.
  intros k s1 Hk. cbn in Hk |- *. rewrite Hq in Hk. rewrite Hx.
  destruct (decide (k = t)) as [-> | Hne].
  - rewrite list_lookup_insert_eq in Hk by (eapply lookup_lt_Some; exact Hs).
    injection Hk as <-.
    destruct (Hagree t s Hs) as (col & Hcol & Hsum).
    destruct (column_insert_eq _ o t row col (exp logx_new) Hrow Hlt Hcol)
      as [Hcol' Hentry].
    exists (<[o := exp logx_new]> col). split; [exact Hcol' |].
    rewrite (sum_insert col o prev_x_value) by congruence. lra.
  - rewrite list_lookup_insert_ne in Hk by congruence.
    rewrite column_insert_ne by assumption. apply Hagree. exact Hk.
Qed.

End UpdateSingle.

(** One taxon at one time point, a proposal one proposal standard deviation
    above the current value, a uniform draw of one and constant
    log-likelihoods: the proposal is kept. *)
Definition sample_sampler : SubjectLogTrajectorySetMP :=
  {| oidx := 0; tidx := 0; x := [[1]]; logx := [[0]]; sum_q := [1];
     proposal_std := 1; acceptances := 0; total_acceptances := 0;
     n_accepted_iter := 0; n_props_local := 0; n_props_total := 0;
     zero_inflation_transition_policy := None |}.

Definition sample_normal (mean std : R) : result R := Ok (mean + std).

Definition flat_loglik (self : SubjectLogTrajectorySetMP) : result R := Ok 0.

Definition sample_after : SubjectLogTrajectorySetMP :=
  {| oidx := 0; tidx := 0; x := [[exp (0 + 1)]]; logx := [[0 + 1]];
     sum_q := [1 - 1 + exp (0 + 1)];
     proposal_std := 1; acceptances := 1; total_acceptances := 1;
     n_accepted_iter := 1; n_props_local := 1; n_props_total := 1;
     zero_inflation_transition_policy := None |}.

Lemma sample_run :
  update_single sample_normal 1 flat_loglik flat_loglik flat_loglik sample_sampler
    = (sample_after, Ok tt).
Proof.
  unfold update_single, seq, eval.
  cbn [zero_inflation_transition_policy sample_sampler logx x oidx tidx
       proposal_std sample_normal loglik flat_loglik bind].
  replace (Np.getitem2 [[0]] 0 0) with (Ok 0) by reflexivity.
  replace (Np.getitem2 [[1]] 0 0) with (Ok 1) by reflexivity.
  replace (write_proposal 1 (exp (0 + 1)) (0 + 1) sample_sampler)
    with (with_sum_q (with_logx (with_x sample_sampler [[exp (0 + 1)]]) [[0 + 1]])
            [1 - 1 + exp (0 + 1)], Ok tt) by reflexivity.
  rewrite log_ok by lra.
  destruct (Rgt_dec (ln 1) (0 + 0 + 0 - (0 + 0 + 0))) as [Hgt |];
    [rewrite ln_1 in Hgt; lra |].
  reflexivity.
Qed.

Lemma update_single_accept_or_restore_witness :
  update_single sample_normal 1 flat_loglik flat_loglik flat_loglik sample_sampler
    = (sample_after, Ok tt) /\
  n_props_total sample_after = (n_props_total sample_sampler + 1)%Z.
Proof.
  split; [exact sample_run |].
  destruct (update_single_accept_or_restore sample_normal 1 flat_loglik flat_loglik
              flat_loglik sample_sampler sample_after sample_run)
    as (p & l & lo & ln & pr & _ & _ & _ & _ & _ & _ & Htotal & _).
  exact Htotal.
Defined.

Lemma update_single_keeps_column_sums_witness :
  column_sums_agree sample_sampler /\ column_sums_agree sample_after.
Proof.
  assert (H0 : column_sums_agree sample_sampler).
  { intros [| t] s Hs; [| discriminate]. injection Hs as <-.
    exists [1]. split; [reflexivity |]. cbn. lra. }
  split; [exact H0 |].
  apply (update_single_keeps_column_sums sample_normal 1 flat_loglik flat_loglik
           flat_loglik sample_sampler sample_after sample_run); cbn; (lia || exact H0).
Defined.

End FilterStep.

(** ** Filtering: the perturbation windows of a subject *)

Module Windows.
Import Py.
Local Open Scope py_scope.

(** [self.t2tidx], filled by [for tidx, t in enumerate(self.times)]: of two
    equal times the later index stays. *)
Fixpoint t2tidx_from (i : nat) (times : list R) (t : R) : option nat :=
  match times with
  | [] => None
  | a :: rest =>
      match t2tidx_from (S i) rest t with
      | Some j => Some j
      | None => if Req_dec_T a t then Some i else None
      end
  end.

Definition t2tidx (times : list R) (t : R) : option nat := t2tidx_from 0 times t.

(** [arr[a:b] = v] on a one-dimensional integer array, with Python's
    treatment of negative and overlong bounds. *)
Definition slice_assign (arr : list Z) (a b v : Z) : list Z :=
  let n := Z.of_nat (length arr) in
  let clip := fun k : Z => if (k <? 0)%Z then Z.max (k + n) 0 else Z.min k n in
  imap (fun i x =>
          if ((clip a <=? Z.of_nat i)%Z && (Z.of_nat i <? clip b)%Z)%bool
          then v else x) arr.

(** A loop whose body may raise. *)
Fixpoint for_each {S A : Type} (body : S -> A -> result S) (s : S) (l : list A)
  : result S :=
  match l with
  | [] => Ok s
  | a :: l' => let* s' := body s a in for_each body s' l'
  end.

Section Initialize.

(** [np.searchsorted(self.times, t)] *)
Variable searchsorted : list R -> R -> Z.

(** [if t == self.times[-1] or t == self.times[0]: raise ValueError] *)
Definition endpoint_guard (times : list R) (t : R) : result unit :=
  let* last := Np.getitem times (-1) in
  if Req_dec_T t last then Raise ValueError
  else
    let* first := Np.getitem times 0 in
    if Req_dec_T t first then Raise ValueError else Ok tt.

(** The body of the loop over [self.pert_starts]. *)
Definition mark_start (times : list R) (in_pert_transition : list bool) (t : R)
  : result (list bool) :=
  let* _ := endpoint_guard times t in
  let* latest := Loess.np_max times in
  if Rlt_dec latest t then Ok in_pert_transition
  else
    let tidx := match t2tidx times t with
                | None => searchsorted times t
                | Some i => Z.of_nat i
                end in
    FilterStep.setitem in_pert_transition tidx true.

(** The body of the loop over [self.pert_ends]. *)
Definition mark_end (times : list R) (in_pert_transition : list bool) (t : R)
  : result (list bool) :=
  let* _ := endpoint_guard times t in
  let* earliest := Loess.np_min times in
  if Rlt_dec t earliest then Ok in_pert_transition
  else
    let* latest := Loess.np_max times in
    if Rlt_dec latest t then Ok in_pert_transition
    else
      let tidx := match t2tidx times t with
                  | None => (searchsorted times t - 1)%Z
                  | Some i => Z.of_nat i
                  end in
      FilterStep.setitem in_pert_transition tidx true.

(** [start_tidx, end_tidx] of one perturbation: from the dictionary, or from
    [searchsorted] when a lookup fails. *)
Definition window (times : list R) (start_t end_t : R) : Z * Z :=
  match t2tidx times start_t, t2tidx times end_t with
  | Some s, Some e => ((Z.of_nat s + 1)%Z, Z.of_nat e)
  | _, _ => (searchsorted times start_t, (searchsorted times end_t - 1)%Z)
  end.

(** The loop "Make the fully in perturbation times", from perturbation
    [pidx] on. *)
Fixpoint fill (times : list R) (fully_in_pert : list Z) (pidx : Z)
    (perts : list (R * R)) : list Z :=
  match perts with
  | [] => fully_in_pert
  | (start_t, end_t) :: perts' =>
      let '(a, b) := window times start_t end_t in
      fill times (slice_assign fully_in_pert a b pidx) (pidx + 1) perts'
  end.

(** [np.sum(self.in_pert_transition)] *)
Definition count_true (l : list bool) : nat :=
  length (List.filter (fun b : bool => b) l).

(** The perturbation part of [SubjectLogTrajectorySetMP.initialize]:
    [perts] pairs [pert_starts[pidx]] with [pert_ends[pidx]]; the result is
    [(in_pert_transition, fully_in_pert)]. *)
Definition initialize_perturbations (times : list R) (perts : list (R * R))
  : result (list bool * list Z) :=
  let n_timepoints := length times in
  let in_pert_transition := replicate n_timepoints false in
  let fully_in_pert := replicate n_timepoints (-1)%Z in
  let* in_pert_transition :=
    for_each (mark_start times) in_pert_transition (List.map fst perts) in
  let* in_pert_transition :=
    for_each (mark_end times) in_pert_transition (List.map snd perts) in
  if Nat.even (count_true in_pert_transition)
  then Ok (in_pert_transition, fill times fully_in_pert 0 perts)
  else Raise ValueError.

(** *** Sampled, separated windows *)

(** Strictly increasing sampling times. *)
Definition increasing (times : list R) : Prop :=
  forall (i j : nat) (a b : R),
    times !! i = Some a -> times !! j = Some b -> (i < j)%nat -> a < b.

(** Windows given by the indices of their first and last time point: each
    starts after the first time point, ends before the last one and after
    it starts. *)
Definition proper (n : nat) (ws : list (nat * nat)) : Prop :=
  Forall (fun w => (0 < fst w)%nat /\ (fst w < snd w)%nat /\ (S (snd w) < n)%nat) ws.

(** No two windows share a time point. *)
Fixpoint separated (ws : list (nat * nat)) : Prop :=
  match ws with
  | [] => True
  | w :: ws' =>
      Forall (fun w' => (snd w < fst w')%nat \/ (snd w' < fst w)%nat) ws' /\
      separated ws'
  end.

(** The start and end times of the windows. *)
Definition times_of (times : list R) (ws : list (nat * nat)) : list (R * R) :=
  List.map (fun w => (List.nth (fst w) times 0, List.nth (snd w) times 0)) ws.

Lemma t2tidx_from_spec (times : list R) :
  forall (i0 : nat) (t : R) (j : nat),
    t2tidx_from i0 times t = Some j ->
    (i0 <= j)%nat /\ times !! (j - i0)%nat = Some t.
Proof.
  induction times as [| a rest IH]; intros i0 t j H; [discriminate |].
  cbn [t2tidx_from] in H.
  destruct (t2tidx_from (S i0) rest t) as [j' |] eqn:E.
  - injection H as <-. destruct (IH _ _ _ E) as [Hle Hl]. split; [lia |].
    replace (j' - i0)%nat with (S (j' - S i0)) by lia. exact Hl.
  - destruct (Req_dec_T a t) as [-> |]; [| discriminate]. injection H as <-.
    split; [lia |]. rewrite Nat.sub_diag. reflexivity.
Qed.

Lemma t2tidx_from_some (times : list R) :
  forall (i0 k : nat) (t : R),
    times !! k = Some t -> exists j, t2tidx_from i0 times t = Some j.
Proof.
  induction times as [| a rest IH]; intros i0 k t H; [discriminate |].
  cbn [t2tidx_from]. destruct k as [| k]; cbn in H.
  - injection H as ->. destruct (t2tidx_from (S i0) rest t); [eauto |].
    destruct (Req_dec_T t t); [eauto | contradiction].
  - destruct (IH (S i0) k t H) as [j ->]. eauto.
Qed.

Lemma t2tidx_increasing (times : list R) (k : nat) (t : R) :
  increasing times -> times !! k = Some t -> t2tidx times t = Some k.
Proof.
  intros Hinc Hk. destruct (t2tidx_from_some times 0 k t Hk) as [j Hj].
  unfold t2tidx. rewrite Hj. f_equal.
  apply t2tidx_from_spec in Hj as [_ Hj]. rewrite Nat.sub_0_r in Hj.
  destruct (Nat.lt_trichotomy j k) as [Hlt | [-> | Hlt]]; [| reflexivity |].
  - pose proof (Hinc _ _ _ _ Hj Hk Hlt). lra.
  - pose proof (Hinc _ _ _ _ Hk Hj Hlt). lra.
Qed.

Lemma nth_time (times : list R) (k : nat) :
  (k < length times)%nat -> times !! k = Some (List.nth k times 0).
Proof.
  intros Hk. destruct (lookup_lt_is_Some_2 times k Hk) as [t Ht].
  rewrite Ht. f_equal. symmetry. apply nth_lookup_Some with (d := 0). exact Ht.
Qed.

Lemma endpoint_guard_ok (times : list R) (k : nat) (t : R) :
  increasing times -> times !! k = Some t ->
  (0 < k)%nat -> (S k < length times)%nat ->
  endpoint_guard times t = Ok tt.
Proof.
  intros Hinc Hk H0 Hn. unfold endpoint_guard.
  assert (Hlast : Np.getitem times (-1)
                  = Ok (List.nth (length times - 1) times 0)).
  { apply FilterStep.getitem_pos. exists (length times - 1)%nat. split.
    - unfold FilterStep.pos. cbn [Z.ltb Z.compare].
      replace ((0 <=? Z.of_nat (length times) + -1)%Z
               && (Z.of_nat (length times) + -1 <? Z.of_nat (length times))%Z)%bool
        with true by (symmetry; apply andb_true_iff; split;
                      [apply Z.leb_le | apply Z.ltb_lt]; lia).
      f_equal. lia.
    - apply nth_time. lia. }
  assert (Hfirst : Np.getitem times 0 = Ok (List.nth 0 times 0)).
  { apply (Filter.nth_error_getitem times 0). rewrite FilterStep.nth_error_lookup.
    apply nth_time. lia. }
  rewrite Hlast. cbn [bind].
  assert (Hl : times !! (length times - 1)%nat
               = Some (List.nth (length times - 1) times 0)) by (apply nth_time; lia).
  assert (Hf : times !! 0%nat = Some (List.nth 0 times 0)) by (apply nth_time; lia).
  destruct (Req_dec_T t _) as [E |].
  { assert (Hlt : (k < length times - 1)%nat) by lia.
    pose proof (Hinc _ _ _ _ Hk Hl Hlt). lra. }
  rewrite Hfirst. cbn [bind].
  destruct (Req_dec_T t _) as [E |]; [| reflexivity].
  pose proof (Hinc _ _ _ _ Hf Hk H0). lra.
Qed.

Lemma within_extremes (times : list R) (k : nat) (t : R) :
  times !! k = Some t ->
  exists mn mx, Loess.np_min times = Ok mn /\ Loess.np_max times = Ok mx /\
                mn <= t <= mx.
Proof.
  intros Hk. destruct times as [| a rest] eqn:E; [discriminate |]. rewrite <- E in *.
  assert (Hmin : exists mn, Loess.np_min times = Ok mn) by (rewrite E; cbn; eauto).
  assert (Hmax : exists mx, Loess.np_max times = Ok mx) by (rewrite E; cbn; eauto).
  destruct Hmin as [mn Hmin]. destruct Hmax as [mx Hmax].
  exists mn, mx. split; [exact Hmin |]. split; [exact Hmax |].
  pose proof (Loess.np_min_max_bounds times mn mx Hmin Hmax) as Hb.
  rewrite Forall_lookup in Hb. exact (Hb k t Hk).
Qed.

Lemma setitem_nat {A : Type} (l : list A) (k : nat) (v : A) :
  (k < length l)%nat -> FilterStep.setitem l (Z.of_nat k) v = Ok (<[k := v]> l).
Proof.
  intros Hk. apply FilterStep.setitem_pos. exists k. split; [| reflexivity].
  unfold FilterStep.pos.
  destruct (Z.of_nat k <? 0)%Z eqn:E; [apply Z.ltb_lt in E; lia |].
  replace ((0 <=? Z.of_nat k)%Z && (Z.of_nat k <? Z.of_nat (length l))%Z)%bool
    with true by (symmetry; apply andb_true_iff; split;
                  [apply Z.leb_le | apply Z.ltb_lt]; lia).
  rewrite Nat2Z.id. reflexivity.
Qed.

Lemma mark_start_ok (times : list R) (l : list bool) (k : nat) :
  increasing times -> (0 < k)%nat -> (S k < length times)%nat ->
  length l = length times ->
  mark_start times l (List.nth k times 0) = Ok (<[k := true]> l).
Proof.
  intros Hinc H0 Hn Hlen. unfold mark_start.
  assert (Hk : times !! k = Some (List.nth k times 0)) by (apply nth_time; lia).
  rewrite (endpoint_guard_ok times k _ Hinc Hk H0 Hn). cbn [bind].
  destruct (within_extremes times k _ Hk) as (mn & mx & _ & -> & Hb). cbn [bind].
  destruct (Rlt_dec mx _); [lra |].
  rewrite (t2tidx_increasing times k _ Hinc Hk). apply setitem_nat. lia.
Qed.

Lemma mark_end_ok (times : list R) (l : list bool) (k : nat) :
  increasing times -> (0 < k)%nat -> (S k < length times)%nat ->
  length l = length times ->
  mark_end times l (List.nth k times 0) = Ok (<[k := true]> l).
Proof.
  intros Hinc H0 Hn Hlen. unfold mark_end.
  assert (Hk : times !! k = Some (List.nth k times 0)) by (apply nth_time; lia).
  rewrite (endpoint_guard_ok times k _ Hinc Hk H0 Hn). cbn [bind].
  destruct (within_extremes times k _ Hk) as (mn & mx & -> & -> & Hb). cbn [bind].
  destruct (Rlt_dec _ mn); [lra |]. destruct (Rlt_dec mx _); [lra |].
  rewrite (t2tidx_increasing times k _ Hinc Hk). apply setitem_nat. lia.
Qed.

(** The array with the listed positions set. *)
Fixpoint set_all (l : list bool) (ks : list nat) : list bool :=
  match ks with
  | [] => l
  | k :: ks' => set_all (<[k := true]> l) ks'
  end.

Lemma set_all_length (ks : list nat) :
  forall l : list bool, length (set_all l ks) = length l.
Proof.
  induction ks as [| k ks IH]; intros l; cbn [set_all]; [reflexivity |].
  rewrite IH. apply length_insert.
Qed.

Lemma set_all_app (ks ks' : list nat) :
  forall l : list bool, set_all l (ks ++ ks') = set_all (set_all l ks) ks'.
Proof. induction ks as [| k ks IH]; intros l; cbn; [reflexivity | apply IH]. Qed.

Lemma set_all_lookup (ks : list nat) :
  forall (l : list bool) (k : nat),
    set_all l ks !! k = Some true <->
    (k ∈ ks /\ (k < length l)%nat) \/ l !! k = Some true.
Proof.
  induction ks as [| k0 ks IH]; intros l k; cbn [set_all].
  - split; [auto | intros [[H _] | H]; [inversion H | exact H]].
  - rewrite IH, length_insert, list_lookup_insert_Some, elem_of_cons.
    split.
    + intros [[H1 H2] | [(-> & _ & H) | [_ H]]]; auto.
    + intros [[[-> | H1] H2] | H]; auto.
      destruct (decide (k0 = k)) as [-> | Hne]; [| auto].
      right. left. repeat split. eapply lookup_lt_Some; exact H.
Qed.

Lemma count_true_insert (l : list bool) :
  forall k : nat, l !! k = Some false ->
                  count_true (<[k := true]> l) = S (count_true l).
Proof.
  induction l as [| b l IH]; intros k Hk; [discriminate |].
  destruct k as [| k]; cbn in Hk.
  - injection Hk as ->. reflexivity.
  - change (<[S k := true]> (b :: l)) with (b :: <[k := true]> l).
    unfold count_true in *. cbn [List.filter].
    destruct b; cbn [length]; rewrite (IH k Hk); reflexivity.
Qed.

Lemma count_set_all (ks : list nat) :
  forall l : list bool,
    NoDup ks -> (forall k, k ∈ ks -> l !! k = Some false) ->
    count_true (set_all l ks) = (count_true l + length ks)%nat.
Proof.
  induction ks as [| k0 ks IH]; intros l Hnd Hfalse; cbn [set_all length].
  - lia.
  - apply NoDup_cons in Hnd as [Hnotin Hnd].
    rewrite IH; [| exact Hnd |].
    + rewrite count_true_insert by (apply Hfalse; left). lia.
    + intros k Hk. rewrite list_lookup_insert_ne by (intros ->; contradiction).
      apply Hfalse. right. exact Hk.
Qed.

Lemma count_true_replicate (n : nat) : count_true (replicate n false) = 0%nat.
Proof. induction n as [| n IH]; [reflexivity | exact IH]. Qed.

Lemma starts_ok (times : list R) (ws : list (nat * nat)) :
  increasing times -> proper (length times) ws ->
  forall l : list bool,
    length l = length times ->
    for_each (mark_start times) l (List.map fst (times_of times ws))
      = Ok (set_all l (List.map fst ws)).
Proof.
  intros Hinc Hp. induction Hp as [| w ws (H0 & H1 & H2) Hp IH]; intros l Hlen;
    cbn [times_of List.map for_each set_all fst]; [reflexivity |].
  rewrite mark_start_ok by (assumption || lia). cbn [bind].
  apply IH. rewrite length_insert. exact Hlen.
Qed.

Lemma ends_ok (times : list R) (ws : list (nat * nat)) :
  increasing times -> proper (length times) ws ->
  forall l : list bool,
    length l = length times ->
    for_each (mark_end times) l (List.map snd (times_of times ws))
      = Ok (set_all l (List.map snd ws)).
Proof.
  intros Hinc Hp. induction Hp as [| w ws (H0 & H1 & H2) Hp IH]; intros l Hlen;
    cbn [times_of List.map for_each set_all snd]; [reflexivity |].
  rewrite mark_end_ok by (assumption || lia). cbn [bind].
  apply IH. rewrite length_insert. exact Hlen.
Qed.

Lemma marks_of (ws : list (nat * nat)) (k : nat) :
  k ∈ List.map fst ws ++ List.map snd ws <->
  exists w, w ∈ ws /\ (k = fst w \/ k = snd w).
Proof.
  rewrite elem_of_app. change (List.map fst ws) with (fst <$> ws).
  change (List.map snd ws) with (snd <$> ws). rewrite !list_elem_of_fmap.
  split.
  - intros [(w & -> & Hw) | (w & -> & Hw)]; eauto.
  - intros (w & Hw & [-> | ->]); eauto.
Qed.

Lemma marks_nodup (n : nat) (ws : list (nat * nat)) :
  proper n ws -> separated ws -> NoDup (List.map fst ws ++ List.map snd ws).
Proof.
  intros Hp. induction Hp as [| w ws (H0 & H1 & H2) Hp IH]; intros Hsep;
    [constructor |].
  destruct Hsep as [Hw Hsep]. specialize (IH Hsep).
  assert (Hfresh : forall k, k ∈ List.map fst ws ++ List.map snd ws ->
                             k <> fst w /\ k <> snd w).
  { intros k Hk. apply marks_of in Hk as (w' & Hw' & Hk).
    rewrite Forall_forall in Hw. specialize (Hw w' Hw').
    unfold proper in Hp. rewrite Forall_forall in Hp.
    destruct (Hp w' Hw') as (_ & Hlt & _). lia. }
  cbn [List.map]. rewrite <- app_comm_cons. apply NoDup_cons. split.
  - rewrite elem_of_app, elem_of_cons. intros [Hin | [Heq | Hin]].
    + destruct (Hfresh (fst w)) as [Hne _]; [| congruence].
      apply elem_of_app. left. exact Hin.
    + lia.
    + destruct (Hfresh (fst w)) as [Hne _]; [| congruence].
      apply elem_of_app. right. exact Hin.
  - rewrite <- Permutation_middle.
    apply NoDup_cons. split; [| exact IH].
    intros Hin. destruct (Hfresh (snd w) Hin) as [_ Hne]. congruence.
Qed.

(** *** The interior of the windows *)

Lemma slice_assign_length (arr : list Z) (a b v : Z) :
  length (slice_assign arr a b v) = length arr.
Proof. unfold slice_assign. apply length_imap. Qed.

Lemma slice_assign_lookup (arr : list Z) (a b : nat) (v : Z) (k : nat) :
  (a <= length arr)%nat -> (b <= length arr)%nat ->
  slice_assign arr (Z.of_nat a) (Z.of_nat b) v !! k
    = (fun x => if ((a <=? k)%nat && (k <? b)%nat)%bool then v else x) <$> arr !! k.
Proof.
  intros Ha Hb. unfold slice_assign. rewrite list_lookup_imap.
  destruct (arr !! k) as [x |]; [| reflexivity]. cbn. f_equal.
  destruct (Z.of_nat a <? 0)%Z eqn:Ea; [apply Z.ltb_lt in Ea; lia |].
  destruct (Z.of_nat b <? 0)%Z eqn:Eb; [apply Z.ltb_lt in Eb; lia |].
  rewrite !Z.min_l by lia.
  replace (Z.of_nat a <=? Z.of_nat k)%Z with (a <=? k)%nat
    by (destruct (Nat.leb_spec a k), (Z.leb_spec (Z.of_nat a) (Z.of_nat k));
        (reflexivity || lia)).
  replace (Z.of_nat k <? Z.of_nat b)%Z with (k <? b)%nat
    by (destruct (Nat.ltb_spec k b), (Z.ltb_spec (Z.of_nat k) (Z.of_nat b));
        (reflexivity || lia)).
  reflexivity.
Qed.

Lemma window_sampled (times : list R) (s e : nat) :
  increasing times -> (s < length times)%nat -> (e < length times)%nat ->
  window times (List.nth s times 0) (List.nth e times 0)
    = ((Z.of_nat s + 1)%Z, Z.of_nat e).
Proof.
  intros Hinc Hs He. unfold window.
  rewrite (t2tidx_increasing times s) by (assumption || (apply nth_time; lia)).
  rewrite (t2tidx_increasing times e) by (assumption || (apply nth_time; lia)).
  reflexivity.
Qed.

Lemma fill_spec (times : list R) (ws : list (nat * nat)) :
  increasing times -> proper (length times) ws -> separated ws ->
  forall (arr : list Z) (p0 : Z),
    length arr = length times ->
    length (fill times arr p0 (times_of times ws)) = length times /\
    forall k : nat,
      (forall (p : nat) (w : nat * nat),
         ws !! p = Some w -> (fst w < k < snd w)%nat ->
         fill times arr p0 (times_of times ws) !! k = Some (p0 + Z.of_nat p)%Z) /\
      ((forall w, w ∈ ws -> ~ (fst w < k < snd w)%nat) ->
       fill times arr p0 (times_of times ws) !! k = arr !! k).
Proof.
  intros Hinc Hp. induction Hp as [| w ws (H0 & H1 & H2) Hp IH];
    intros Hsep arr p0 Hlen.
  - cbn. split; [exact Hlen |]. intros k. split; [intros p w Hw; discriminate | auto].
  - destruct Hsep as [Hw Hsep].
    cbn [times_of List.map fill]. fold (times_of times ws).
    rewrite window_sampled by (assumption || lia).
    replace (Z.of_nat (fst w) + 1)%Z with (Z.of_nat (S (fst w))) by lia.
    set (arr' := slice_assign arr (Z.of_nat (S (fst w))) (Z.of_nat (snd w)) p0).
    assert (Hlen' : length arr' = length times)
      by (unfold arr'; rewrite slice_assign_length; exact Hlen).
    destruct (IH Hsep arr' (p0 + 1)%Z Hlen') as [Hl Hk]. split; [exact Hl |].
    assert (Harr' : forall k, arr' !! k
              = (fun x => if ((S (fst w) <=? k)%nat && (k <? snd w)%nat)%bool
                          then p0 else x) <$> arr !! k).
    { intros k. unfold arr'. apply slice_assign_lookup; lia. }
    intros k. destruct (Hk k) as [Hin Hout]. split.
    + intros [| p] w' Hw' Hbetween; cbn in Hw'.
      * injection Hw' as <-. rewrite Hout.
        -- rewrite Harr'.
           destruct (lookup_lt_is_Some_2 arr k) as [x ->]; [lia |].
           cbn [fmap option_fmap option_map].
           replace ((S (fst w) <=? k)%nat && (k <? snd w)%nat)%bool with true
             by (symmetry; apply andb_true_iff; split;
                 [apply Nat.leb_le | apply Nat.ltb_lt]; lia).
           f_equal. lia.
        -- intros w' Hw'' Hb. rewrite Forall_forall in Hw.
           specialize (Hw w' Hw''). lia.
      * rewrite (Hin p w' Hw' Hbetween). f_equal. lia.
    + intros Hnone. rewrite Hout.
      * rewrite Harr'. destruct (arr !! k) as [x |]; [| reflexivity].
        cbn [fmap option_fmap option_map].
        replace ((S (fst w) <=? k)%nat && (k <? snd w)%nat)%bool with false;
          [reflexivity |].
        symmetry. apply andb_false_iff.
        destruct (Nat.leb_spec (S (fst w)) k); [| auto].
        destruct (Nat.ltb_spec k (snd w)); [| auto].
        exfalso. apply (Hnone w); [left | lia].
      * intros w' Hw''. apply Hnone. right. exact Hw''.
Qed.

Lemma initialize_perturbations_spec (times : list R) (ws : list (nat * nat)) :
  increasing times -> proper (length times) ws -> separated ws ->
  exists (in_pert_transition : list bool) (fully_in_pert : list Z),
    initialize_perturbations times (times_of times ws)
      = Ok (in_pert_transition, fully_in_pert) /\
    length in_pert_transition = length times /\
    length fully_in_pert = length times /\
    (forall k : nat,
       in_pert_transition !! k = Some true <->
       exists w, w ∈ ws /\ (k = fst w \/ k = snd w)) /\
    (forall (k p : nat) (w : nat * nat),
       ws !! p = Some w -> (fst w < k < snd w)%nat ->
       fully_in_pert !! k = Some (Z.of_nat p)) /\
    (forall k : nat,
       (k < length times)%nat ->
       (forall w, w ∈ ws -> ~ (fst w < k < snd w)%nat) ->
       fully_in_pert !! k = Some (-1)%Z).
Proof.
  intros Hinc Hp Hsep.
  set (n := length times).
  set (marks := List.map fst ws ++ List.map snd ws).
  exists (set_all (replicate n false) marks),
         (fill times (replicate n (-1)%Z) 0 (times_of times ws)).
  assert (Hrun : initialize_perturbations times (times_of times ws)
                 = Ok (set_all (replicate n false) marks,
                       fill times (replicate n (-1)%Z) 0 (times_of times ws))).
  { unfold initialize_perturbations. fold n.
    rewrite (starts_ok times ws Hinc Hp) by apply length_replicate. cbn [bind].
    rewrite (ends_ok times ws Hinc Hp)
      by (rewrite set_all_length; apply length_replicate).
    cbn [bind]. rewrite <- set_all_app. fold marks.
    rewrite count_set_all.
    - rewrite count_true_replicate. unfold marks.
      rewrite length_app, !length_map.
      replace (0 + (length ws + length ws))%nat with (2 * length ws)%nat by lia.
      rewrite Nat.even_mul. reflexivity.
    - apply (marks_nodup n); assumption.
    - intros k Hk. apply marks_of in Hk as (w & Hw & Hk).
      unfold proper in Hp. rewrite Forall_forall in Hp.
      destruct (Hp w Hw) as (H0 & H1 & H2).
      apply lookup_replicate_2. fold n in H2. lia. }
  destruct (fill_spec times ws Hinc Hp Hsep (replicate n (-1)%Z) 0
              (length_replicate _ _)) as [Hlen Hfill].
  split; [exact Hrun |].
  split; [rewrite set_all_length; apply length_replicate |].
  split; [exact Hlen |].
  split; [| split].
  - intros k. rewrite set_all_lookup. unfold marks. rewrite marks_of. split.
    + intros [[H _] | H]; [exact H |].
      apply lookup_replicate in H as [H _]. discriminate.
    + intros (w & Hw & Hk). left. split; [eauto |].
      unfold proper in Hp. rewrite Forall_forall in Hp.
      destruct (Hp w Hw) as (H0 & H1 & H2). rewrite length_replicate. fold n in H2. lia.
  - intros k p w Hw Hb. destruct (Hfill k) as [Hin _].
    rewrite (Hin p w Hw Hb). f_equal.
  - intros k Hk Hnone. destruct (Hfill k) as [_ Hout].
    rewrite (Hout Hnone). apply lookup_replicate_2. exact Hk.
Qed.

(** X20. For strictly increasing sampling times and perturbations that
    start and end at sampled time points other than the first and the last
    one, end after they start and share no time point, the perturbation
    part of [initialize] succeeds: [in_pert_transition] is true exactly at
    the first and last time point of each perturbation, and
    [fully_in_pert] holds the perturbation index strictly between them and
    [-1] everywhere else. *)
Theorem initialize_perturbations_windows (times : list R) (ws : list (nat * nat)) :
  increasing times -> proper (length times) ws -> separated ws ->
  exists (in_pert_transition : list bool) (fully_in_pert : list Z),
    initialize_perturbations times (times_of times ws)
      = Ok (in_pert_transition, fully_in_pert) /\
    length in_pert_transition = length times /\
    length fully_in_pert = length times /\
    (forall k : nat,
       in_pert_transition !! k = Some true <->
       exists w, w ∈ ws /\ (k = fst w \/ k = snd w)) /\
    (forall (k p : nat) (w : nat * nat),
       ws !! p = Some w -> (fst w < k < snd w)%nat ->
       fully_in_pert !! k = Some (Z.of_nat p)) /\
    (forall k : nat,
       (k < length times)%nat ->
       (forall w, w ∈ ws -> ~ (fst w < k < snd w)%nat) ->
       fully_in_pert !! k = Some (-1)%Z).
Proof. apply initialize_perturbations_spec. Qed.

(** *** The growth rates that the windows select *)

Lemma separated_elem (ws : list (nat * nat)) (w w' : nat * nat) :
  separated ws -> w ∈ ws -> w' ∈ ws ->
  w = w' \/ (snd w < fst w')%nat \/ (snd w' < fst w)%nat.
Proof.
  induction ws as [| w0 ws IH]; intros Hsep Hw Hw'; [inversion Hw |].
  destruct Hsep as [H0 Hsep]. rewrite Forall_forall in H0.
  apply elem_of_cons in Hw as [-> | Hw]; apply elem_of_cons in Hw' as [-> | Hw'].
  - left. reflexivity.
  - right. exact (H0 w' Hw').
  - right. destruct (H0 w Hw) as [H | H]; [right | left]; exact H.
  - apply IH; assumption.
Qed.

Lemma separated_lookup (ws : list (nat * nat)) :
  forall (p q : nat) (w w' : nat * nat),
    separated ws -> ws !! p = Some w -> ws !! q = Some w' -> p <> q ->
    (snd w < fst w')%nat \/ (snd w' < fst w)%nat.
Proof.
  induction ws as [| w0 ws IH]; intros p q w w' Hsep Hp Hq Hne; [discriminate |].
  destruct Hsep as [H0 Hsep]. rewrite Forall_forall in H0.
  destruct p as [| p], q as [| q]; cbn in Hp, Hq.
  - contradiction.
  - injection Hp as <-. apply H0. eapply list_elem_of_lookup_2; exact Hq.
  - injection Hq as <-. destruct (H0 w); [eapply list_elem_of_lookup_2; exact Hp | |];
      [right | left]; assumption.
  - apply (IH p q); auto.
Qed.

Lemma classify (ws : list (nat * nat)) (k : nat) :
  (exists p w, ws !! p = Some w /\ (fst w <= k <= snd w)%nat) \/
  (forall w, w ∈ ws -> ~ (fst w <= k <= snd w)%nat).
Proof.
  induction ws as [| w0 ws IH].
  - right. intros w Hw. inversion Hw.
  - destruct (le_dec (fst w0) k) as [H1 |];
      [destruct (le_dec k (snd w0)) as [H2 |] |].
    + left. exists 0%nat, w0. auto.
    + destruct IH as [(p & w & Hp & Hk) | Hnone].
      * left. exists (S p), w. auto.
      * right. intros w [-> | Hw]%elem_of_cons; [lia | auto].
    + destruct IH as [(p & w & Hp & Hk) | Hnone].
      * left. exists (S p), w. auto.
      * right. intros w [-> | Hw]%elem_of_cons; [lia | auto].
Qed.

Lemma getitem_lookup {A : Type} (l : list A) (k : nat) (a : A) :
  l !! k = Some a -> Np.getitem l (Z.of_nat k) = Ok a.
Proof. intros H. rewrite FilterStep.getitem_nat, H. reflexivity. Qed.

(** Windows that span at least two sampling intervals. *)
Definition roomy (ws : list (nat * nat)) : Prop :=
  Forall (fun w => (fst w + 2 <= snd w)%nat) ws.

Lemma set_attrs_windows_spec (times : list R) (ws : list (nat * nat))
    (sub : Filter.Subject) (o k : nat) (g : R) (row : list R) :
  increasing times -> proper (length times) ws -> separated ws -> roomy ws ->
  initialize_perturbations times (times_of times ws)
    = Ok (Filter.in_pert_transition sub, Filter.fully_in_pert sub) ->
  Filter.there_are_perturbations sub = true ->
  Filter.master_growth_rate sub !! o = Some g ->
  Filter.perturbations sub !! o = Some row ->
  length row = length ws ->
  (k < length times)%nat ->
  exists attrs : Filter.timepoint_attrs,
    Filter.set_attrs_for_timepoint sub (Z.of_nat o) (Z.of_nat k) = Ok attrs /\
    (forall (p : nat) (w : nat * nat) (m : R),
       ws !! p = Some w -> row !! p = Some m ->
       ((fst w <= k < snd w)%nat ->
        Filter.forward_growth_rate attrs = g * (1 + m)) /\
       ((fst w < k <= snd w)%nat ->
        Filter.reverse_growth_rate attrs = g * (1 + m))) /\
    ((forall w, w ∈ ws -> ~ (fst w <= k < snd w)%nat) ->
     Filter.forward_growth_rate attrs = g) /\
    ((forall w, w ∈ ws -> ~ (fst w < k <= snd w)%nat) ->
     Filter.reverse_growth_rate attrs = g).
Proof.
  intros Hinc Hp Hsep Hroomy Hinit Hthere Hg Hrow Hlen Hk.
  destruct (initialize_perturbations_spec times ws Hinc Hp Hsep)
    as (ipt & fip & Hrun & Hl1 & Hl2 & Hipt & Hin & Hout).
  rewrite Hrun in Hinit. injection Hinit as Eipt Efip.
  assert (Hg' : Np.getitem (Filter.master_growth_rate sub) (Z.of_nat o) = Ok g)
    by (apply getitem_lookup; exact Hg).
  assert (Hpert : forall p m, row !! p = Some m ->
            Filter.growth_rate_on_pert sub (Z.of_nat o) (Z.of_nat p)
              = Ok (g * (1 + m))).
  { intros p m Hm. unfold Filter.growth_rate_on_pert, Np.getitem2.
    rewrite Hg'. cbn [bind].
    rewrite (getitem_lookup _ _ _ Hrow). cbn [bind].
    rewrite (getitem_lookup _ _ _ Hm). reflexivity. }
  assert (Hfalse : forall j, (j < length times)%nat ->
            (forall w, w ∈ ws -> j <> fst w /\ j <> snd w) ->
            ipt !! j = Some false).
  { intros j Hj Hno. destruct (lookup_lt_is_Some_2 ipt j) as [[|] Hb]; [lia | | exact Hb].
    apply Hipt in Hb as (w & Hw & Hjw). destruct (Hno w Hw). lia. }
  assert (Htrue : forall w, w ∈ ws ->
            ipt !! fst w = Some true /\ ipt !! snd w = Some true).
  { intros w Hw. split; apply Hipt; exists w; auto. }
  unfold proper in Hp. rewrite Forall_forall in Hp.
  unfold roomy in Hroomy. rewrite Forall_forall in Hroomy.
  assert (Hsame : forall p w p' w', ws !! p = Some w -> ws !! p' = Some w' ->
            (fst w <= k <= snd w)%nat -> (fst w' <= k <= snd w')%nat -> p = p').
  { intros p w p' w' Hw Hw' H1 H2. destruct (decide (p = p')) as [| Hne]; [assumption |].
    destruct (separated_lookup ws p p' w w' Hsep Hw Hw' Hne); lia. }
  unfold Filter.set_attrs_for_timepoint. rewrite Hg', Hthere. cbn [bind].
  rewrite <- Eipt, <- Efip.
  destruct (classify ws k) as [(p & w & Hw & Hkw) | Hnone].
  - assert (Hwin : w ∈ ws) by (eapply list_elem_of_lookup_2; exact Hw).
    destruct (Hp w Hwin) as (H0 & H1 & H2). pose proof (Hroomy w Hwin) as H3.
    destruct (lookup_lt_is_Some_2 row p) as [m Hm];
      [rewrite Hlen; eapply lookup_lt_Some; exact Hw |].
    assert (Helse : forall w', w' ∈ ws -> w' = w \/ (snd w < fst w')%nat
                                          \/ (snd w' < fst w)%nat).
    { intros w' Hw'. destruct (separated_elem ws w w' Hsep Hwin Hw') as [-> | H];
        [left; reflexivity | right; exact H]. }
    assert (Hcase : k = fst w \/ (fst w < k < snd w)%nat \/ k = snd w) by lia.
    destruct Hcase as [-> | [Hmid | ->]].
    + (* the first time point of the window *)
      destruct (Htrue w Hwin) as [Ht _].
      rewrite (getitem_lookup _ _ _ Ht). cbn [bind].
      replace (Z.of_nat (fst w) - 1)%Z with (Z.of_nat (fst w - 1)) by lia.
      rewrite (getitem_lookup fip (fst w - 1) (-1)%Z).
      2:{ apply Hout; [lia |]. intros w' Hw' Hb.
          destruct (Helse w' Hw') as [-> | Hs]; [lia |].
          destruct (Hp w' Hw') as (_ & Hlt & _). lia. }
      cbn [bind Z.eqb Pos.eqb negb].
      replace (Z.of_nat (fst w) + 1)%Z with (Z.of_nat (S (fst w))) by lia.
      rewrite (getitem_lookup fip (S (fst w)) (Z.of_nat p))
        by (apply (Hin _ p w Hw); lia).
      cbn [bind]. rewrite (Hpert p m Hm). cbn [bind].
      eexists. split; [reflexivity |]. cbn. split; [| split].
      * intros p' w' m' Hw' Hm'. split; intros Hb.
        -- assert (p = p') by (apply (Hsame p w p' w'); auto; lia). subst p'.
           congruence.
        -- assert (p = p') by (apply (Hsame p w p' w'); auto; lia). subst p'.
           assert (w' = w) by congruence. subst w'. lia.
      * intros Hno. exfalso. apply (Hno w Hwin). lia.
      * reflexivity.
    + (* strictly inside the window *)
      rewrite (getitem_lookup ipt k false).
      2:{ apply Hfalse; [exact Hk |]. intros w' Hw'.
          destruct (Helse w' Hw') as [-> | Hs]; [lia |].
          destruct (Hp w' Hw') as (_ & Hlt & _). lia. }
      cbn [bind].
      rewrite (getitem_lookup fip k (Z.of_nat p)) by (apply (Hin _ p w Hw); lia).
      cbn [bind].
      replace (negb (Z.of_nat p =? -1)%Z) with true
        by (symmetry; apply negb_true_iff, Z.eqb_neq; lia).
      rewrite (Hpert p m Hm). cbn [bind].
      eexists. split; [reflexivity |]. cbn. split; [| split].
      * intros p' w' m' Hw' Hm'.
        split; intros Hb;
          (assert (p = p') by (apply (Hsame p w p' w'); auto; lia); subst p';
           congruence).
      * intros Hno. exfalso. apply (Hno w Hwin). lia.
      * intros Hno. exfalso. apply (Hno w Hwin). lia.
    + (* the last time point of the window *)
      destruct (Htrue w Hwin) as [_ Ht].
      rewrite (getitem_lookup _ _ _ Ht). cbn [bind].
      replace (Z.of_nat (snd w) - 1)%Z with (Z.of_nat (snd w - 1)) by lia.
      rewrite (getitem_lookup fip (snd w - 1) (Z.of_nat p))
        by (apply (Hin _ p w Hw); lia).
      cbn [bind].
      replace (negb (Z.of_nat p =? -1)%Z) with true
        by (symmetry; apply negb_true_iff, Z.eqb_neq; lia).
      rewrite (Hpert p m Hm). cbn [bind].
      eexists. split; [reflexivity |]. cbn. split; [| split].
      * intros p' w' m' Hw' Hm'. split; intros Hb.
        -- assert (p = p') by (apply (Hsame p w p' w'); auto; lia). subst p'.
           assert (w' = w) by congruence. subst w'. lia.
        -- assert (p = p') by (apply (Hsame p w p' w'); auto; lia). subst p'.
           congruence.
      * reflexivity.
      * intros Hno. exfalso. apply (Hno w Hwin). lia.
  - (* outside every window *)
    rewrite (getitem_lookup ipt k false).
    2:{ apply Hfalse; [exact Hk |]. intros w Hw. specialize (Hnone w Hw).
        destruct (Hp w Hw) as (_ & Hlt & _). lia. }
    cbn [bind].
    rewrite (getitem_lookup fip k (-1)%Z).
    2:{ apply Hout; [exact Hk |]. intros w Hw Hb. apply (Hnone w Hw). lia. }
    cbn [bind Z.eqb Pos.eqb negb].
    eexists. split; [reflexivity |]. cbn. split; [| split]; [| reflexivity..].
    intros p w m Hw Hm. split; intros Hb; exfalso;
      (apply (Hnone w); [eapply list_elem_of_lookup_2; exact Hw | lia]).
Qed.

(** X21. With the arrays of the previous theorem (windows that moreover
    span at least two sampling intervals), [set_attrs_for_timepoint]
    selects for taxon [o] at time index [k] the growth rate
    [g * (1 + m)], [m] the magnitude of perturbation [p] on the taxon, as
    the forward rate exactly when [k] lies in [[start_p, end_p)] and as the
    reverse rate exactly when [k] lies in [(start_p, end_p]]; outside all
    windows both are the plain growth rate [g]. *)
Theorem growth_rates_follow_windows (times : list R) (ws : list (nat * nat))
    (sub : Filter.Subject) (o k : nat) (g : R) (row : list R) :
  increasing times -> proper (length times) ws -> separated ws -> roomy ws ->
  initialize_perturbations times (times_of times ws)
    = Ok (Filter.in_pert_transition sub, Filter.fully_in_pert sub) ->
  Filter.there_are_perturbations sub = true ->
  Filter.master_growth_rate sub !! o = Some g ->
  Filter.perturbations sub !! o = Some row ->
  length row = length ws ->
  (k < length times)%nat ->
  exists attrs : Filter.timepoint_attrs,
    Filter.set_attrs_for_timepoint sub (Z.of_nat o) (Z.of_nat k) = Ok attrs /\
    (forall (p : nat) (w : nat * nat) (m : R),
       ws !! p = Some w -> row !! p = Some m ->
       ((fst w <= k < snd w)%nat ->
        Filter.forward_growth_rate attrs = g * (1 + m)) /\
       ((fst w < k <= snd w)%nat ->
        Filter.reverse_growth_rate attrs = g * (1 + m))) /\
    ((forall w, w ∈ ws -> ~ (fst w <= k < snd w)%nat) ->
     Filter.forward_growth_rate attrs = g) /\
    ((forall w, w ∈ ws -> ~ (fst w < k <= snd w)%nat) ->
     Filter.reverse_growth_rate attrs = g).
Proof. apply set_attrs_windows_spec. Qed.

Lemma classify_forward (ws : list (nat * nat)) (k : nat) :
  (exists p w, ws !! p = Some w /\ (fst w <= k < snd w)%nat) \/
  (forall w, w ∈ ws -> ~ (fst w <= k < snd w)%nat).
Proof.
  induction ws as [| w0 ws IH].
  - right. intros w Hw. inversion Hw.
  - destruct (le_dec (fst w0) k) as [H1 |];
      [destruct (lt_dec k (snd w0)) as [H2 |] |].
    + left. exists 0%nat, w0. auto.
    + destruct IH as [(p & w & Hp & Hk) | Hnone].
      * left. exists (S p), w. auto.
      * right. intros w [-> | Hw]%elem_of_cons; [lia | auto].
    + destruct IH as [(p & w & Hp & Hk) | Hnone].
      * left. exists (S p), w. auto.
      * right. intros w [-> | Hw]%elem_of_cons; [lia | auto].
Qed.

Lemma transition_rates_spec (times : list R) (ws : list (nat * nat))
    (sub : Filter.Subject) (o k : nat) (g : R) (row : list R) :
  increasing times -> proper (length times) ws -> separated ws -> roomy ws ->
  initialize_perturbations times (times_of times ws)
    = Ok (Filter.in_pert_transition sub, Filter.fully_in_pert sub) ->
  Filter.there_are_perturbations sub = true ->
  Filter.master_growth_rate sub !! o = Some g ->
  Filter.perturbations sub !! o = Some row ->
  length row = length ws ->
  (S k < length times)%nat ->
  exists here next : Filter.timepoint_attrs,
    Filter.set_attrs_for_timepoint sub (Z.of_nat o) (Z.of_nat k) = Ok here /\
    Filter.set_attrs_for_timepoint sub (Z.of_nat o) (Z.of_nat k + 1) = Ok next /\
    Filter.forward_growth_rate here = Filter.reverse_growth_rate next.
Proof.
  intros Hinc Hp Hsep Hroomy Hinit Hthere Hg Hrow Hlen Hk.
  destruct (set_attrs_windows_spec times ws sub o k g row Hinc Hp Hsep Hroomy Hinit
              Hthere Hg Hrow Hlen) as (here & Hhere & Hin & Hfwd & _); [lia |].
  destruct (set_attrs_windows_spec times ws sub o (S k) g row Hinc Hp Hsep Hroomy
              Hinit Hthere Hg Hrow Hlen Hk) as (next & Hnext & Hin' & _ & Hrev).
  exists here, next. split; [exact Hhere |].
  split; [replace (Z.of_nat k + 1)%Z with (Z.of_nat (S k)) by lia; exact Hnext |].
  destruct (classify_forward ws k) as [(p & w & Hw & Hkw) | Hnone].
  - destruct (lookup_lt_is_Some_2 row p) as [m Hm];
      [rewrite Hlen; eapply lookup_lt_Some; exact Hw |].
    destruct (Hin p w m Hw Hm) as [Hf _]. destruct (Hin' p w m Hw Hm) as [_ Hr].
    rewrite Hf by exact Hkw. rewrite Hr by lia. reflexivity.
  - rewrite Hfwd by exact Hnone. rewrite Hrev; [reflexivity |].
    intros w Hw Hb. apply (Hnone w Hw). lia.
Qed.

(** X22. Under the same conditions the two ends of a transition agree on
    its growth rate: the forward rate chosen at time index [k] is the
    reverse rate chosen at [k + 1]. *)
Theorem transition_rates_consistent (times : list R) (ws : list (nat * nat))
    (sub : Filter.Subject) (o k : nat) (g : R) (row : list R) :
  increasing times -> proper (length times) ws -> separated ws -> roomy ws ->
  initialize_perturbations times (times_of times ws)
    = Ok (Filter.in_pert_transition sub, Filter.fully_in_pert sub) ->
  Filter.there_are_perturbations sub = true ->
  Filter.master_growth_rate sub !! o = Some g ->
  Filter.perturbations sub !! o = Some row ->
  length row = length ws ->
  (S k < length times)%nat ->
  exists here next : Filter.timepoint_attrs,
    Filter.set_attrs_for_timepoint sub (Z.of_nat o) (Z.of_nat k) = Ok here /\
    Filter.set_attrs_for_timepoint sub (Z.of_nat o) (Z.of_nat k + 1) = Ok next /\
    Filter.forward_growth_rate here = Filter.reverse_growth_rate next.
Proof. apply transition_rates_spec. Qed.

(** *** The transition density seen from both ends *)

Section Loglik.

(** [pl.random.normal.logpdf] *)
Variable pl_normal_logpdf : R -> R -> R -> result R.

(** [default_reverse_loglik]: from the previous time point to the current
    one. *)
Definition default_reverse_loglik (sub : Filter.Subject) (oidx tidx : Z)
    (Axj : R) (attrs : Filter.timepoint_attrs) : result R :=
  let prev_tidx := (tidx - 1)%Z in
  let* logmu :=
    Filter.compute_dynamics sub oidx prev_tidx Axj (Filter.reverse_growth_rate attrs) in
  let* value := Np.getitem2 (Filter.logx sub) oidx tidx in
  let* pv_std := Filter.curr_pv_std sub oidx in
  let* sqrt_dt := Np.getitem (Filter.sqrt_dts sub) prev_tidx in
  Ok (Filter.logpdf_or_fallback pl_normal_logpdf value logmu (pv_std * sqrt_dt)).

(** X27. Under the conditions of the previous theorems every transition
    density is the same from both of its ends: with the interaction term
    that [persistent_run] carries over from the previous time point, the
    reverse log-likelihood at time index [k + 1] is the forward
    log-likelihood at [k], as a value or as the same exception. *)
Theorem reverse_is_previous_forward (times : list R) (ws : list (nat * nat))
    (sub : Filter.Subject) (o k : nat) (g : R) (row : list R)
    (forward_interaction_vals : R) :
  increasing times -> proper (length times) ws -> separated ws -> roomy ws ->
  initialize_perturbations times (times_of times ws)
    = Ok (Filter.in_pert_transition sub, Filter.fully_in_pert sub) ->
  Filter.there_are_perturbations sub = true ->
  Filter.master_growth_rate sub !! o = Some g ->
  Filter.perturbations sub !! o = Some row ->
  length row = length ws ->
  (S k < length times)%nat ->
  exists here next : Filter.timepoint_attrs,
    Filter.set_attrs_for_timepoint sub (Z.of_nat o) (Z.of_nat k) = Ok here /\
    Filter.set_attrs_for_timepoint sub (Z.of_nat o) (Z.of_nat k + 1) = Ok next /\
    let reverse_interaction_vals := forward_interaction_vals in
    default_reverse_loglik sub (Z.of_nat o) (Z.of_nat k + 1)
      reverse_interaction_vals next
    = Filter.default_forward_loglik pl_normal_logpdf sub (Z.of_nat o) (Z.of_nat k)
        forward_interaction_vals here.
Proof.
  intros Hinc Hp Hsep Hroomy Hinit Hthere Hg Hrow Hlen Hk.
  destruct (transition_rates_spec times ws sub o k g row Hinc Hp Hsep Hroomy Hinit
              Hthere Hg Hrow Hlen Hk) as (here & next & Hhere & Hnext & Hrate).
  exists here, next. split; [exact Hhere |]. split; [exact Hnext |].
  cbn zeta. unfold default_reverse_loglik, Filter.default_forward_loglik.
  replace (Z.of_nat k + 1 - 1)%Z with (Z.of_nat k) by lia.
  rewrite Hrate. reflexivity.
Qed.

End Loglik.

End Initialize.

(** Five daily samples and one perturbation from day 1 to day 3. *)
Definition sample_times : list R := [0; 1; 2; 3; 4].
Definition sample_windows : list (nat * nat) := [(1%nat, 3%nat)].
Definition no_search (times : list R) (t : R) : Z := 0%Z.

Lemma sample_times_increasing : increasing sample_times.
Proof.
  intros i j a b Hi Hj Hlt. unfold sample_times in *.
  destruct i as [| [| [| [| [| i]]]]]; destruct j as [| [| [| [| [| j]]]]];
    cbn in Hi, Hj; try discriminate; try lia;
    injection Hi as <-; injection Hj as <-; lra.
Qed.

Lemma sample_windows_proper : proper (length sample_times) sample_windows.
Proof. repeat constructor; cbn; lia. Qed.

Lemma sample_windows_separated : separated sample_windows.
Proof. cbn. split; [constructor | exact I]. Qed.

Lemma sample_windows_roomy : roomy sample_windows.
Proof. repeat constructor. Qed.

Lemma initialize_perturbations_windows_witness :
  exists (in_pert_transition : list bool) (fully_in_pert : list Z),
    initialize_perturbations no_search sample_times
      (times_of sample_times sample_windows)
      = Ok (in_pert_transition, fully_in_pert) /\
    in_pert_transition !! 1%nat = Some true /\
    fully_in_pert !! 2%nat = Some 0%Z /\
    fully_in_pert !! 3%nat = Some (-1)%Z.
Proof.
  destruct (initialize_perturbations_windows no_search sample_times sample_windows
              sample_times_increasing sample_windows_proper sample_windows_separated)
    as (ipt & fip & Hrun & _ & _ & Hipt & Hin & Hout).
  exists ipt, fip. split; [exact Hrun |]. split; [| split].
  - apply Hipt. exists (1%nat, 3%nat). split; [left | left; reflexivity].
  - apply (Hin 2%nat 0%nat (1%nat, 3%nat)); [reflexivity | cbn; lia].
  - apply Hout; [cbn; lia |].
    intros w [-> | Hw]%elem_of_cons; [cbn; lia | inversion Hw].
Defined.

(** A subject with one taxon whose perturbation arrays are the ones that
    the initialisation computes. *)
Definition sample_subject (init : result (list bool * list Z)) : Filter.Subject :=
  {| Filter.times := sample_times;
     Filter.x := [[1; 1; 1; 1; 1]]; Filter.logx := [[0; 0; 0; 0; 0]];
     Filter.there_are_perturbations := true;
     Filter.in_pert_transition := match init with Ok (a, _) => a | Raise _ => [] end;
     Filter.fully_in_pert := match init with Ok (_, b) => b | Raise _ => [] end;
     Filter.master_growth_rate := [1];
     Filter.self_interactions := [1]; Filter.interactions := [[0]];
     Filter.perturbations := [[0.5]];
     Filter.pv := Filter.PvGlobal 1 |}.

Lemma growth_rates_follow_windows_witness :
  exists attrs : Filter.timepoint_attrs,
    Filter.set_attrs_for_timepoint
      (sample_subject (initialize_perturbations no_search sample_times
                         (times_of sample_times sample_windows))) 0 2 = Ok attrs /\
    Filter.forward_growth_rate attrs = 1 * (1 + 0.5) /\
    Filter.reverse_growth_rate attrs = 1 * (1 + 0.5).
Proof.
  set (sub := sample_subject _).
  assert (Hinit : initialize_perturbations no_search sample_times
                    (times_of sample_times sample_windows)
                  = Ok (Filter.in_pert_transition sub, Filter.fully_in_pert sub)).
  { unfold sub.
    destruct (initialize_perturbations_spec no_search sample_times sample_windows
                sample_times_increasing sample_windows_proper
                sample_windows_separated) as (ipt & fip & -> & _).
    reflexivity. }
  destruct (growth_rates_follow_windows no_search sample_times sample_windows sub
              0%nat 2%nat 1 [0.5]
              sample_times_increasing sample_windows_proper sample_windows_separated
              sample_windows_roomy Hinit eq_refl eq_refl eq_refl eq_refl)
    as (attrs & Hrun & Hwin & _); [cbn; lia |].
  exists attrs. split; [exact Hrun |].
  destruct (Hwin 0%nat (1%nat, 3%nat) 0.5 eq_refl eq_refl) as [Hf Hr].
  split; [apply Hf | apply Hr]; cbn; lia.
Defined.

Lemma transition_rates_consistent_witness :
  exists here next : Filter.timepoint_attrs,
    Filter.set_attrs_for_timepoint
      (sample_subject (initialize_perturbations no_search sample_times
                         (times_of sample_times sample_windows))) 0 3 = Ok here /\
    Filter.set_attrs_for_timepoint
      (sample_subject (initialize_perturbations no_search sample_times
                         (times_of sample_times sample_windows))) 0 (3 + 1) = Ok next /\
    Filter.forward_growth_rate here = Filter.reverse_growth_rate next.
Proof.
  set (sub := sample_subject _).
  assert (Hinit : initialize_perturbations no_search sample_times
                    (times_of sample_times sample_windows)
                  = Ok (Filter.in_pert_transition sub, Filter.fully_in_pert sub)).
  { unfold sub.
    destruct (initialize_perturbations_spec no_search sample_times sample_windows
                sample_times_increasing sample_windows_proper
                sample_windows_separated) as (ipt & fip & -> & _).
    reflexivity. }
  apply (transition_rates_consistent no_search sample_times sample_windows sub
           0%nat 3%nat 1 [0.5]
           sample_times_increasing sample_windows_proper sample_windows_separated
           sample_windows_roomy Hinit eq_refl eq_refl eq_refl eq_refl).
  cbn. lia.
Defined.

Definition pylab_missing (value mean std : R) : result R :=
  Raise (OtherError "pylab").

Lemma reverse_is_previous_forward_witness :
  exists here next : Filter.timepoint_attrs,
    Filter.set_attrs_for_timepoint
      (sample_subject (initialize_perturbations no_search sample_times
                         (times_of sample_times sample_windows))) 0 1 = Ok here /\
    Filter.set_attrs_for_timepoint
      (sample_subject (initialize_perturbations no_search sample_times
                         (times_of sample_times sample_windows))) 0 (1 + 1) = Ok next /\
    default_reverse_loglik pylab_missing
      (sample_subject (initialize_perturbations no_search sample_times
                         (times_of sample_times sample_windows))) 0 (1 + 1) 0 next
    = Filter.default_forward_loglik pylab_missing
        (sample_subject (initialize_perturbations no_search sample_times
                           (times_of sample_times sample_windows))) 0 1 0 here.
Proof.
  set (sub := sample_subject _).
  assert (Hinit : initialize_perturbations no_search sample_times
                    (times_of sample_times sample_windows)
                  = Ok (Filter.in_pert_transition sub, Filter.fully_in_pert sub)).
  { unfold sub.
    destruct (initialize_perturbations_spec no_search sample_times sample_windows
                sample_times_increasing sample_windows_proper
                sample_windows_separated) as (ipt & fip & -> & _).
    reflexivity. }
  apply (reverse_is_previous_forward no_search pylab_missing sample_times sample_windows
           sub 0%nat 1%nat 1 [0.5] 0
           sample_times_increasing sample_windows_proper sample_windows_separated
           sample_windows_roomy Hinit eq_refl eq_refl eq_refl eq_refl).
  cbn. lia.
Defined.

End Windows.

(** ** The forward transition density under perturbation windows *)

Module Transitions.
Import Py Windows.






Section Density.

(** [np.searchsorted] and [pl.random.normal.logpdf]; the latter, when it
    answers, answers with the normal log-density that [_normal_logpdf]
    spells out. *)
Variable searchsorted : list R -> R -> Z.
Variable pl_normal_logpdf : R -> R -> R -> result R.
Hypothesis pl_normal_logpdf_agrees :
  forall value mean std r,
    pl_normal_logpdf value mean std = Ok r ->
    r = Filter._normal_logpdf value mean std.



End Density.

(** *** Five daily samples, one taxon *)









End Transitions.

(** ** Hyperpriors: conjugate updates *)

Module Hyperpriors.
Import Py.
Local Open Scope py_scope.

(** A normally distributed node with a normal prior. *)
Record NormalNode := {
  value : R;
  mean : R;
  var : R;
  prior_mean : R;
  prior_var : R;
  sample_iter : Z;
  delay : Z
}.

Definition set_value (self : NormalNode) (v : R) : NormalNode :=
  {| value := v; mean := mean self; var := var self;
     prior_mean := prior_mean self; prior_var := prior_var self;
     sample_iter := sample_iter self; delay := delay self |}.

Definition set_var (self : NormalNode) (v : R) : NormalNode :=
  {| value := value self; mean := mean self; var := v;
     prior_mean := prior_mean self; prior_var := prior_var self;
     sample_iter := sample_iter self; delay := delay self |}.

Definition set_mean (self : NormalNode) (m : R) : NormalNode :=
  {| value := value self; mean := m; var := var self;
     prior_mean := prior_mean self; prior_var := prior_var self;
     sample_iter := sample_iter self; delay := delay self |}.

(** A node with a scaled inverse chi-squared posterior and prior. *)
Record SicsNode := {
  sics_value : R;
  dof : R;
  scale : R;
  prior_dof : R;
  prior_scale : R;
  sics_sample_iter : Z;
  sics_delay : Z
}.

Section Updates.

(** [self.sample()] of a normal node (from its mean and variance),
    [self.prior.sample()], and [self.sample()] of a scaled inverse
    chi-squared node (from its degrees of freedom and scale). *)
Variable normal_sample : R -> R -> R.
Variable prior_sample : R -> R -> R.
Variable sics_sample : R -> R -> R.

(** The Gibbs step shared by [PriorMeanInteractions.update] and
    [PriorMeanPerturbationSingle.update]: [x] are the values whose mean is
    learned and [variance] is their prior variance. *)
Definition gibbs_mean (self : NormalNode) (x : list R) (variance : R)
  : NormalNode * result unit :=
  match
    (let* prec := div 1 variance in
     let* prior_prec := div 1 (prior_var self) in
     let* var' := div 1 (prior_prec + INR (length x) * prec) in
     Ok (prec, prior_prec, var'))
  with
  | Raise e => (self, Raise e)
  | Ok (prec, prior_prec, var') =>
      let self := set_var self var' in
      let self :=
        set_mean self (var self * (prior_mean self * prior_prec + Np.sum x * prec)) in
      (set_value self (normal_sample (mean self) (var self)), Ok tt)
  end.

(** [PriorMeanInteractions.update] *)
Definition PriorMeanInteractions_update (self : NormalNode)
    (num_pos_indicators : Z) (x : list R) (prior_var_interactions : R)
  : NormalNode * result unit :=
  if (sample_iter self <? delay self)%Z then (self, Ok tt)
  else if (num_pos_indicators =? 0)%Z
  then (set_value self (prior_sample (prior_mean self) (prior_var self)), Ok tt)
  else gibbs_mean self x prior_var_interactions.

(** [PriorMeanPerturbationSingle.update] *)
Definition PriorMeanPerturbationSingle_update (self : NormalNode)
    (x : list R) (magnitude_prior_var : R) : NormalNode * result unit :=
  if (sample_iter self <? delay self)%Z then (self, Ok tt)
  else gibbs_mean self x magnitude_prior_var.

(** The step shared by [PriorVarInteractions.update] and
    [PriorVarPerturbationSingle.update]: [x] are the values whose variance
    is learned and [mu] is their prior mean. *)
Definition gibbs_var (self : SicsNode) (x : list R) (mu : R)
  : SicsNode * result unit :=
  if (sics_sample_iter self <? sics_delay self)%Z then (self, Ok tt)
  else
    let se := Np.sum (Np.square (List.map (fun v => v - mu) x)) in
    let n := INR (length x) in
    let dof' := prior_dof self + n in
    match div (prior_scale self * prior_dof self + se) dof' with
    | Raise e =>
        ({| sics_value := sics_value self; dof := dof'; scale := scale self;
            prior_dof := prior_dof self; prior_scale := prior_scale self;
            sics_sample_iter := sics_sample_iter self;
            sics_delay := sics_delay self |}, Raise e)
    | Ok scale' =>
        ({| sics_value := sics_sample dof' scale'; dof := dof'; scale := scale';
            prior_dof := prior_dof self; prior_scale := prior_scale self;
            sics_sample_iter := sics_sample_iter self;
            sics_delay := sics_delay self |}, Ok tt)
    end.

(** [PriorVarInteractions.update] and [PriorVarPerturbationSingle.update] *)
Definition PriorVarInteractions_update := gibbs_var.
Definition PriorVarPerturbationSingle_update := gibbs_var.

Lemma INR_length_pos {A : Type} (x : list A) : x <> [] -> 0 < INR (length x).
Proof.
  intros Hx. destruct x as [| a x]; [contradiction |].
  apply lt_0_INR. cbn. lia.
Qed.

(** X23. Once the delay has passed, for positive variances and at least one
    value, both mean updates succeed and leave the precision-weighted
    posterior: with [w = variance / (variance + n * prior_var)], strictly
    between 0 and 1, the posterior mean is
    [w * prior_mean + (1 - w) * (sum x / n)], the posterior variance is
    [w * prior_var] (so the precisions add up), and the value is drawn from
    that mean and variance. *)
Theorem posterior_mean_is_weighted (self : NormalNode) (x : list R) (variance : R) :
  (delay self <= sample_iter self)%Z ->
  0 < variance -> 0 < prior_var self -> x <> [] ->
  let n := INR (length x) in
  let w := variance / (variance + n * prior_var self) in
  exists self' : NormalNode,
    PriorMeanPerturbationSingle_update self x variance = (self', Ok tt) /\
    (forall num_pos_indicators : Z,
       num_pos_indicators <> 0%Z ->
       PriorMeanInteractions_update self num_pos_indicators x variance
         = (self', Ok tt)) /\
    0 < w < 1 /\
    mean self' = w * prior_mean self + (1 - w) * (Np.sum x / n) /\
    var self' = w * prior_var self /\
    / var self' = / prior_var self + n / variance /\
    value self' = normal_sample (mean self') (var self').
Proof.
  intros Hdelay Hv Hpv Hx n w.
  assert (Hn : 0 < n) by (apply INR_length_pos; exact Hx).
  assert (Hden : 0 < variance + n * prior_var self) by nra.
  assert (Hprec : 0 < 1 / prior_var self + n * (1 / variance)).
  { apply Rplus_lt_0_compat; [apply Rdiv_lt_0_compat; lra |].
    apply Rmult_lt_0_compat; [exact Hn | apply Rdiv_lt_0_compat; lra]. }
  assert (Hrun : gibbs_mean self x variance
    = (set_value
         (set_mean (set_var self (1 / (1 / prior_var self + n * (1 / variance))))
            (1 / (1 / prior_var self + n * (1 / variance))
             * (prior_mean self * (1 / prior_var self)
                + Np.sum x * (1 / variance))))
         (normal_sample
            (1 / (1 / prior_var self + n * (1 / variance))
             * (prior_mean self * (1 / prior_var self)
                + Np.sum x * (1 / variance)))
            (1 / (1 / prior_var self + n * (1 / variance)))), Ok tt)).
  { unfold gibbs_mean. rewrite (div_ok 1 variance) by lra. cbn [bind].
    rewrite (div_ok 1 (prior_var self)) by lra. cbn [bind].
    fold n. rewrite div_ok by lra. reflexivity. }
  eexists. split; [| split; [| split; [| split; [| split; [| split]]]]].
  - unfold PriorMeanPerturbationSingle_update.
    replace (sample_iter self <? delay self)%Z with false
      by (symmetry; apply Z.ltb_ge; exact Hdelay).
    exact Hrun.
  - intros k Hk. unfold PriorMeanInteractions_update.
    replace (sample_iter self <? delay self)%Z with false
      by (symmetry; apply Z.ltb_ge; exact Hdelay).
    replace (k =? 0)%Z with false by (symmetry; apply Z.eqb_neq; exact Hk).
    exact Hrun.
  - unfold w. split; [apply Rdiv_lt_0_compat; lra |].
    apply (Rmult_lt_reg_r (variance + n * prior_var self)); [exact Hden |].
    unfold Rdiv. rewrite Rmult_assoc, Rinv_l by lra. nra.
  - cbn [mean set_value set_mean set_var prior_mean var]. unfold w. field. lra.
  - cbn [mean set_value set_mean set_var prior_var var]. unfold w. field. lra.
  - cbn [mean set_value set_mean set_var prior_var var]. field. lra.
  - reflexivity.
Qed.

(** X24. Once the delay has passed, for a positive prior scale and positive
    prior degrees of freedom both variance updates succeed with
    [dof = prior_dof + n] and a positive scale; with at least one value the
    scale lies between the prior scale and the mean squared deviation of the
    values from their prior mean, and with no value it is the prior scale.
    Before the delay the node is left as it is. *)
Theorem posterior_scale_between (self : SicsNode) (x : list R) (mu : R) :
  0 < prior_dof self -> 0 < prior_scale self ->
  let n := INR (length x) in
  let se := Np.sum (Np.square (List.map (fun v => v - mu) x)) in
  ((sics_sample_iter self < sics_delay self)%Z ->
   PriorVarInteractions_update self x mu = (self, Ok tt) /\
   PriorVarPerturbationSingle_update self x mu = (self, Ok tt)) /\
  ((sics_delay self <= sics_sample_iter self)%Z ->
   exists self' : SicsNode,
     PriorVarInteractions_update self x mu = (self', Ok tt) /\
     PriorVarPerturbationSingle_update self x mu = (self', Ok tt) /\
     dof self' = prior_dof self + n /\
     0 < scale self' /\
     sics_value self' = sics_sample (dof self') (scale self') /\
     (x <> [] ->
      Rmin (prior_scale self) (se / n) <= scale self'
        <= Rmax (prior_scale self) (se / n)) /\
     (x = [] -> scale self' = prior_scale self)).
Proof.
  intros Hdof Hscale n se.
  unfold PriorVarInteractions_update, PriorVarPerturbationSingle_update.
  split.
  - intros Hearly. unfold gibbs_var.
    replace (sics_sample_iter self <? sics_delay self)%Z with true
      by (symmetry; apply Z.ltb_lt; exact Hearly).
    split; reflexivity.
  - intros Hlate.
    assert (Hn : 0 <= n) by apply pos_INR.
    assert (Hse : 0 <= se) by apply Np.sum_square_nonneg.
    assert (Hrun : gibbs_var self x mu
      = ({| sics_value := sics_sample (prior_dof self + n)
              ((prior_scale self * prior_dof self + se) / (prior_dof self + n));
            dof := prior_dof self + n;
            scale := (prior_scale self * prior_dof self + se) / (prior_dof self + n);
            prior_dof := prior_dof self; prior_scale := prior_scale self;
            sics_sample_iter := sics_sample_iter self;
            sics_delay := sics_delay self |}, Ok tt)).
    { unfold gibbs_var.
      replace (sics_sample_iter self <? sics_delay self)%Z with false
        by (symmetry; apply Z.ltb_ge; exact Hlate).
      fold se. fold n. rewrite div_ok by lra. reflexivity. }
    eexists. split; [exact Hrun |]. split; [exact Hrun |].
    cbn [dof scale sics_value].
    split; [reflexivity |].
    assert (Hpos : 0 < (prior_scale self * prior_dof self + se) / (prior_dof self + n)).
    { apply Rdiv_lt_0_compat; [| lra].
      apply Rplus_lt_le_0_compat; [apply Rmult_lt_0_compat; assumption | exact Hse]. }
    split; [exact Hpos |]. split; [reflexivity |]. split.
    + intros Hx. assert (Hn' : 0 < n) by (apply INR_length_pos; exact Hx).
      set (s := (prior_scale self * prior_dof self + se) / (prior_dof self + n)).
      set (mse := se / n).
      assert (Es : s * (prior_dof self + n)
                   = prior_scale self * prior_dof self + mse * n)
        by (unfold s, mse; field; lra).
      unfold Rmin, Rmax. destruct (Rle_dec (prior_scale self) mse) as [Hle | Hgt].
      * split; nra.
      * split; nra.
    + intros ->. unfold n, se. cbn. field. lra.
Qed.

End Updates.

(** A prior mean 0 with variance 4, two values 1 and 3 of variance 2. *)
Definition sample_normal_node : NormalNode :=
  {| value := 0; mean := 0; var := 1; prior_mean := 0; prior_var := 4;
     sample_iter := 5; delay := 0 |}.

Definition draw_mean (mean var : R) : R := mean.

Lemma posterior_mean_is_weighted_witness :
  exists self' : NormalNode,
    PriorMeanPerturbationSingle_update draw_mean sample_normal_node [1; 3] 2
      = (self', Ok tt) /\
    var self' = 2 / (2 + INR 2 * 4) * 4.
Proof.
  destruct (posterior_mean_is_weighted draw_mean draw_mean sample_normal_node [1; 3] 2)
    as (self' & Hrun & _ & _ & _ & Hvar & _).
  - cbn. lia.
  - lra.
  - cbn. lra.
  - discriminate.
  - exists self'. split; [exact Hrun | exact Hvar].
Defined.

Definition sample_sics_node : SicsNode :=
  {| sics_value := 1; dof := 1; scale := 1; prior_dof := 2; prior_scale := 1;
     sics_sample_iter := 5; sics_delay := 0 |}.

Lemma posterior_scale_between_witness :
  exists self' : SicsNode,
    PriorVarInteractions_update draw_mean sample_sics_node [1; 3] 0 = (self', Ok tt) /\
    0 < scale self'.
Proof.
  destruct (posterior_scale_between draw_mean sample_sics_node [1; 3] 0)
    as [_ Hlate]; [cbn; lra | cbn; lra |].
  destruct Hlate as (self' & Hrun & _ & _ & Hpos & _); [cbn; lia |].
  exists self'. split; [exact Hrun | exact Hpos].
Defined.

End Hyperpriors.

(** ** Model comparison: the scale of the ground truth *)

Module PlotScale.
Import Py PlotTool.

(** Row [t] of [tr] multiplied by [cs[t]]. *)
Definition scale_rows (cs : list R) (tr : array) : array :=
  zip_with (fun c row => List.map (Rmult c) row) cs tr.

(** [trs] is [tr] with every row multiplied by a non-zero factor. *)
Definition rescaling (tr trs : array) : Prop :=
  exists cs : list R,
    length cs = length tr /\ Forall (fun c => c <> 0) cs /\ trs = scale_rows cs tr.

Lemma sum_scale (c : R) (row : list R) :
  Np.sum (List.map (Rmult c) row) = c * Np.sum row.
Proof.
  induction row as [| v row IH]; [cbn; lra |].
  cbn [List.map]. rewrite !sum_cons, IH. lra.
Qed.

Lemma normalize_rows_scale (tr trs : array) :
  rescaling tr trs -> nonzero_rows tr -> normalize_rows trs = normalize_rows tr.
Proof.
  intros (cs & Hlen & Hcs & ->). revert cs Hlen Hcs.
  induction tr as [| row tr IH]; intros cs Hlen Hcs Hnz.
  - destruct cs; reflexivity.
  - destruct cs as [| c cs]; [discriminate |].
    apply Forall_cons_iff in Hcs as [Hc Hcs].
    apply Forall_cons_iff in Hnz as [Hrow Hnz].
    injection Hlen as Hlen.
    cbn [scale_rows zip_with normalize_rows List.map].
    f_equal; [| apply IH; assumption].
    rewrite sum_scale, List.map_map. apply List.map_ext. intros v. field.
    split; assumption.
Qed.

Section Tool.

Variable pkl_load : string -> result (list array).
Variable dataset : string.

Lemma compute_rmses_from_scale (model : string) (Y Ys : list array) :
  Forall2 rescaling Y Ys -> Forall nonzero_rows Y ->
  forall i : nat,
    snd (compute_rmses_from pkl_load dataset model i Ys)
      = snd (compute_rmses_from pkl_load dataset model i Y) /\
    (forall rs, snd (compute_rmses_from pkl_load dataset model i Y) = Ok rs ->
                fst (compute_rmses_from pkl_load dataset model i Ys)
                  = fst (compute_rmses_from pkl_load dataset model i Y)).
Proof.
  intros Hres. induction Hres as [| tr trs Y Ys Htr Hres IH]; intros Hnz i.
  - split; [reflexivity | intros; reflexivity].
  - apply Forall_cons_iff in Hnz as [Hrow Hnz].
    cbn [compute_rmses_from]. rewrite (normalize_rows_scale tr trs Htr Hrow).
    destruct (bind (load_prediction pkl_load dataset i model)
                   (rmse_of (normalize_rows tr))) as [r | e].
    + destruct (IH Hnz (S i)) as [Hsnd Hfst].
      destruct (compute_rmses_from pkl_load dataset model (S i) Ys) as [Ys' [rs' | e']];
        destruct (compute_rmses_from pkl_load dataset model (S i) Y) as [Y' [rs | e]];
        cbn [fst snd] in *; try discriminate.
      * injection Hsnd as ->. split; [reflexivity |].
        intros ? _. f_equal. apply (Hfst rs). reflexivity.
      * split; [exact Hsnd | discriminate].
    + split; [reflexivity | discriminate].
Qed.

Lemma run_models_scale (m : string) (ms : list string) (Y Ys : list array)
    (results : list (string * R)) :
  Forall2 rescaling Y Ys -> Forall nonzero_rows Y ->
  snd (run_models pkl_load dataset (m :: ms) Ys results)
    = snd (run_models pkl_load dataset (m :: ms) Y results) /\
  (forall rs, snd (run_models pkl_load dataset (m :: ms) Y results) = Ok rs ->
              fst (run_models pkl_load dataset (m :: ms) Ys results)
                = fst (run_models pkl_load dataset (m :: ms) Y results)).
Proof.
  intros Hres Hnz. cbn [run_models]. unfold compute_rmses.
  destruct (compute_rmses_from_scale m Y Ys Hres Hnz 0) as [Hsnd Hfst].
  destruct (compute_rmses_from pkl_load dataset m 0 Ys) as [Ys' [rs' | e']];
    destruct (compute_rmses_from pkl_load dataset m 0 Y) as [Y' [rs | e]];
    cbn [fst snd] in *; try discriminate.
  - injection Hsnd as ->. rewrite (Hfst rs eq_refl). split; [reflexivity | auto].
  - injection Hsnd as ->. split; [reflexivity | discriminate].
Qed.

(** X25. The table of errors does not depend on the scale of the ground
    truth: multiplying every row (timepoint) of every replicate by its own
    non-zero factor, for instance giving absolute instead of relative
    abundances, gives the same outcome of the model comparison for every
    model and for the constant baseline, the same table or the same
    exception, and after a run that succeeds the same normalised
    trajectories are left behind. *)
Theorem results_scale_invariant (Y Ys : list array) :
  Forall2 rescaling Y Ys -> Forall nonzero_rows Y ->
  snd (dataset_results pkl_load dataset Ys) = snd (dataset_results pkl_load dataset Y) /\
  (forall table,
     snd (dataset_results pkl_load dataset Y) = Ok table ->
     fst (dataset_results pkl_load dataset Ys)
       = fst (dataset_results pkl_load dataset Y)).
Proof.
  intros Hres Hnz. unfold dataset_results, models.
  destruct (run_models_scale "clv" ["glv"; "glv-ra"; "alr"; "lra"]%string Y Ys []
              Hres Hnz) as [Hsnd Hfst].
  destruct (run_models pkl_load dataset _ Ys []) as [Ys' [rs' | e']];
    destruct (run_models pkl_load dataset _ Y []) as [Y' [rs | e]];
    cbn [fst snd] in *; try discriminate.
  - injection Hsnd as ->. rewrite (Hfst rs eq_refl).
    split; [reflexivity | auto].
  - split; [exact Hsnd | discriminate].
Qed.

End Tool.

Definition scaled_truth : list array :=
  List.map (scale_rows [2; 3]) sample_truth.

Lemma results_scale_invariant_witness :
  snd (dataset_results perfect_cache "bucci_diet" scaled_truth)
    = snd (dataset_results perfect_cache "bucci_diet" sample_truth).
Proof.
  apply (results_scale_invariant perfect_cache "bucci_diet" sample_truth scaled_truth).
  - repeat constructor. exists [2; 3]. split; [reflexivity |].
    split; [| reflexivity]. repeat constructor; lra.
  - repeat constructor; cbn; lra.
Defined.

End PlotScale.

(** ** Joint update: how the draw is split *)

Module JointLayout.
Import Py Marginal RegressCoeff.

(** Number of switched-on clusters over all perturbations: [len(pert_mag)]. *)
Definition total_on (perts : list Perturbation) : nat :=
  List.fold_right Nat.add 0%nat (List.map num_on_clusters perts).

Definition has (k : reprname) (rhs : list reprname) : bool :=
  List.existsb (fun k' => match k, k' with
                          | CLUSTER_INTERACTION_VALUE, CLUSTER_INTERACTION_VALUE => true
                          | PERT_VALUE, PERT_VALUE => true
                          | _, _ => false
                          end) rhs.

Lemma pert_blocks_length (perts : list Perturbation) :
  length (List.concat
            (List.map (fun p => full (num_on_clusters p) (magnitude_prior_mean p))
                      perts)) = total_on perts.
Proof.
  induction perts as [| p perts IH]; [reflexivity |].
  cbn [List.map List.concat]. rewrite List.length_app, IH.
  unfold full. rewrite List.repeat_length. reflexivity.
Qed.

Lemma joint_rhs_cases (self : RegressCoeff) (rhs : list reprname) :
  joint_rhs self = Ok rhs ->
  rhs = [] \/ rhs = [CLUSTER_INTERACTION_VALUE] \/
  (_there_are_perturbations self = true /\
   (rhs = [PERT_VALUE] \/ rhs = [CLUSTER_INTERACTION_VALUE; PERT_VALUE])).
Proof.
  unfold joint_rhs. intros H.
  destruct (_there_are_perturbations self).
  - destruct (pert_mag self) as [pm |]; [| discriminate]. injection H as <-.
    destruct (delay (interactions self) <=? sample_iter (interactions self))%Z,
             (delay pm <=? sample_iter pm)%Z; cbn; auto.
  - injection H as <-.
    destruct (delay (interactions self) <=? sample_iter (interactions self))%Z; auto.
Qed.

(** X26. After a joint draw the sample is cut exactly along the blocks for
    which the priors were stacked: when [value] is as long as the prior
    mean vector built for the keys being sampled, the interactions receive
    the first [num_pos_indicators] entries (if they are being sampled) and
    the perturbation magnitudes receive the remaining entries, as many as
    there are switched-on perturbation clusters (if they are being
    sampled); the two pieces together are the whole draw. *)
Theorem joint_draw_split (G : Graph) (self : RegressCoeff) (rhs : list reprname)
    (parts : list (list R)) (value : list R) :
  joint_rhs self = Ok rhs ->
  prior_mean_parts G rhs = Ok parts ->
  length value = length (List.concat parts) ->
  exists vi vp : list R,
    value = List.app vi vp /\
    length vi = (if has CLUSTER_INTERACTION_VALUE rhs
                 then num_pos_indicators G else 0%nat) /\
    (forall perts, perturbations G = Some perts ->
       length vp = if has PERT_VALUE rhs then total_on perts else 0%nat) /\
    (has PERT_VALUE rhs = false -> vp = []) /\
    assign_joint G self rhs value
      = List.app
          (if has CLUSTER_INTERACTION_VALUE rhs then [SetInteractionValues vi] else [])
          (if has PERT_VALUE rhs
           then [SetPertValues vp; GrowthDesignUpdateValue] else []).
Proof.
  intros Hrhs Hparts Hlen.
  destruct (joint_rhs_cases self rhs Hrhs) as [-> | [-> | [Hthere [-> | ->]]]].
  - cbn in Hparts. injection Hparts as <-. cbn in Hlen.
    destruct value; [| discriminate].
    exists [], []. cbn. repeat split; auto.
    rewrite andb_false_r. reflexivity.
  - cbn in Hparts. injection Hparts as <-.
    cbn [List.concat List.app] in Hlen. rewrite List.app_nil_r in Hlen.
    unfold full in Hlen. rewrite List.repeat_length in Hlen.
    exists value, []. rewrite List.app_nil_r. cbn [has List.existsb orb].
    split; [reflexivity |]. split; [exact Hlen |].
    split; [intros; reflexivity |]. split; [reflexivity |].
    unfold assign_joint. cbn [List.existsb orb andb].
    rewrite andb_false_r. rewrite <- Hlen, List.firstn_all. reflexivity.
  - cbn [prior_mean_parts] in Hparts.
    destruct (perturbations G) as [perts |] eqn:Hperts; [| discriminate].
    cbn in Hparts. injection Hparts as <-.
    rewrite List.app_nil_r, pert_blocks_length in Hlen.
    exists [], value. cbn [has List.existsb orb List.app].
    split; [reflexivity |]. split; [reflexivity |].
    split; [intros perts' [= <-]; exact Hlen |]. split; [discriminate |].
    unfold assign_joint. cbn [List.existsb orb andb]. rewrite Hthere.
    reflexivity.
  - cbn [prior_mean_parts] in Hparts.
    destruct (perturbations G) as [perts |] eqn:Hperts; [| discriminate].
    cbn in Hparts. injection Hparts as <-.
    cbn [List.concat] in Hlen. rewrite !List.length_app in Hlen.
    rewrite List.app_nil_r, pert_blocks_length in Hlen.
    unfold full in Hlen at 1. rewrite List.repeat_length in Hlen. cbn in Hlen.
    exists (List.firstn (num_pos_indicators G) value),
           (List.skipn (num_pos_indicators G) value).
    cbn [has List.existsb orb].
    split; [symmetry; apply List.firstn_skipn |].
    split; [rewrite List.length_firstn; lia |].
    split; [intros perts' [= <-]; rewrite List.length_skipn; lia |].
    split; [discriminate |].
    unfold assign_joint. cbn [List.existsb orb andb]. rewrite Hthere.
    reflexivity.
Qed.

Lemma joint_draw_split_witness :
  exists vi vp : list R,
    [7; 9] = List.app vi vp /\
    assign_joint active_graph joint_self [CLUSTER_INTERACTION_VALUE; PERT_VALUE] [7; 9]
      = [SetInteractionValues vi; SetPertValues vp; GrowthDesignUpdateValue].
Proof.
  destruct (joint_draw_split active_graph joint_self
              [CLUSTER_INTERACTION_VALUE; PERT_VALUE] [[0]; [0]] [7; 9]
              eq_refl eq_refl eq_refl) as (vi & vp & Hsplit & _ & _ & _ & Hassign).
  exists vi, vp. split; [exact Hsplit | exact Hassign].
Defined.

End JointLayout.

(** ** Filtering: tuning the proposal *)

Module Proposals.
Import Py.

(** The fields of a [SubjectLogTrajectorySetMP] that [update_proposals]
    reads and writes. *)
Record Tuner := {
  sample_iter : Z;
  end_iter : Z;
  trace_iter : Z;
  delay : Z;
  tune : Z;
  add_trace : bool;
  acceptances : Z;
  n_props_total : Z;
  n_props_local : Z;
  proposal_std : R;
  target_acceptance_rate : R
}.

Definition stop_tracing (self : Tuner) : Tuner :=
  {| sample_iter := sample_iter self; end_iter := end_iter self;
     trace_iter := trace_iter self; delay := delay self; tune := tune self;
     add_trace := false;
     acceptances := acceptances self; n_props_total := n_props_total self;
     n_props_local := n_props_local self; proposal_std := proposal_std self;
     target_acceptance_rate := target_acceptance_rate self |}.

(** The new proposal scale with the two counters reset. *)
Definition retuned (self : Tuner) (std : R) : Tuner :=
  {| sample_iter := sample_iter self; end_iter := end_iter self;
     trace_iter := trace_iter self; delay := delay self; tune := tune self;
     add_trace := add_trace self;
     acceptances := 0; n_props_total := n_props_total self;
     n_props_local := 0; proposal_std := std;
     target_acceptance_rate := target_acceptance_rate self |}.

(** Is this an iteration at which the proposal is adjusted? *)
Definition tuning_iteration (self : Tuner) : bool :=
  ((trace_iter self - delay self =? tune self)%Z
   && (0 <? sample_iter self - delay self)%Z)%bool.

Definition adjusted_std (self : Tuner) (acc_rate : R) : R :=
  if Rlt_dec acc_rate 0.1 then proposal_std self * 0.01
  else if Rlt_dec acc_rate (target_acceptance_rate self)
       then proposal_std self / sqrt 1.5
       else proposal_std self * sqrt 1.5.

(** [update_proposals] *)
Definition update_proposals (self : Tuner) : Tuner * result unit :=
  if (end_iter self <? sample_iter self)%Z then (stop_tracing self, Ok tt)
  else if (sample_iter self =? 0)%Z then (self, Ok tt)
  else if tuning_iteration self then
    match div (IZR (acceptances self)) (IZR (n_props_total self)) with
    | Raise e => (self, Raise e)
    | Ok acc_rate => (retuned self (adjusted_std self acc_rate), Ok tt)
    end
  else (self, Ok tt).

Lemma sqrt_1_5_gt_1 : 1 < sqrt 1.5.
Proof. rewrite <- sqrt_1 at 1. apply sqrt_lt_1; lra. Qed.

(** X28. A call of [update_proposals] that returns keeps the proposal scale
    positive and never touches the total number of proposals.  Past
    [end_iter] it only switches tracing off, and outside a tuning iteration
    it changes nothing.  At a tuning iteration the acceptance rate is taken
    as [acceptances / n_props_total]; the scale is made strictly smaller
    when that rate is below 0.1 or below the target and strictly larger
    otherwise, and [acceptances] and [n_props_local] are reset to 0.  With
    no proposal made so far the call raises [ZeroDivisionError]. *)
Theorem update_proposals_tunes (self : Tuner) :
  0 < proposal_std self ->
  let out := update_proposals self in
  let self' := fst out in
  0 < proposal_std self' /\ n_props_total self' = n_props_total self /\
  ((end_iter self < sample_iter self)%Z -> out = (stop_tracing self, Ok tt)) /\
  ((sample_iter self <= end_iter self)%Z ->
   (sample_iter self = 0%Z \/ tuning_iteration self = false) ->
   out = (self, Ok tt)) /\
  ((sample_iter self <= end_iter self)%Z -> sample_iter self <> 0%Z ->
   tuning_iteration self = true ->
   (n_props_total self = 0%Z -> out = (self, Raise ZeroDivisionError)) /\
   (n_props_total self <> 0%Z ->
    let acc_rate := IZR (acceptances self) / IZR (n_props_total self) in
    snd out = Ok tt /\ acceptances self' = 0%Z /\ n_props_local self' = 0%Z /\
    (acc_rate < Rmax 0.1 (target_acceptance_rate self) ->
     proposal_std self' < proposal_std self) /\
    (Rmax 0.1 (target_acceptance_rate self) <= acc_rate ->
     proposal_std self < proposal_std self'))).
Proof.
  intros Hpos out self'. pose proof sqrt_1_5_gt_1 as Hs.
  assert (Hadj : forall r, 0 < adjusted_std self r).
  { intros r. unfold adjusted_std.
    destruct (Rlt_dec r 0.1); [nra |].
    destruct (Rlt_dec r (target_acceptance_rate self));
      [apply Rdiv_lt_0_compat; lra | nra]. }
  assert (Hless : proposal_std self / sqrt 1.5 < proposal_std self).
  { apply (Rmult_lt_reg_r (sqrt 1.5)); [lra |].
    unfold Rdiv. rewrite Rmult_assoc, Rinv_l by lra. nra. }
  unfold self', out, update_proposals.
  destruct (end_iter self <? sample_iter self)%Z eqn:Eend.
  { apply Z.ltb_lt in Eend. cbn. repeat split; auto; intros; lia. }
  apply Z.ltb_ge in Eend.
  destruct (sample_iter self =? 0)%Z eqn:Ezero.
  { apply Z.eqb_eq in Ezero. cbn. repeat split; auto; intros; lia. }
  apply Z.eqb_neq in Ezero.
  destruct (tuning_iteration self) eqn:Etune.
  2:{ cbn. repeat split; auto; intros; (lia || discriminate). }
  unfold div. destruct (Req_dec_T (IZR (n_props_total self)) 0) as [E0 | Hne].
  - apply eq_IZR in E0. cbn.
    split; [exact Hpos |]. split; [reflexivity |].
    split; [intros; lia |].
    split; [intros _ [H | H]; [lia | discriminate] |].
    intros _ _ _. split; [reflexivity | intros H; contradiction].
  - cbn [fst snd retuned proposal_std n_props_total acceptances n_props_local].
    split; [apply Hadj |]. split; [reflexivity |].
    split; [intros; lia |].
    split; [intros _ [H | H]; [lia | discriminate] |].
    intros _ _ _. split; [intros E0; rewrite E0 in Hne; contradiction |].
    intros _. cbn zeta.
    set (acc_rate := IZR (acceptances self) / IZR (n_props_total self)).
    split; [reflexivity |]. split; [reflexivity |]. split; [reflexivity |].
    unfold adjusted_std, Rmax.
    destruct (Rle_dec 0.1 (target_acceptance_rate self)) as [Hle | Hgt];
      destruct (Rlt_dec acc_rate 0.1);
      destruct (Rlt_dec acc_rate (target_acceptance_rate self));
      split; intros H; try lra; try nra.
Qed.

(** A scale of 0.4 at the end of a tuning interval with 3 acceptances in 10
    proposals and a target rate of 0.44. *)
Definition sample_tuner : Tuner :=
  {| sample_iter := 50; end_iter := 1000; trace_iter := 50; delay := 0;
     tune := 50; add_trace := true; acceptances := 3; n_props_total := 10;
     n_props_local := 10; proposal_std := 0.4; target_acceptance_rate := 0.44 |}.

Lemma update_proposals_tunes_witness :
  0 < proposal_std (fst (update_proposals sample_tuner)) /\
  proposal_std (fst (update_proposals sample_tuner)) < proposal_std sample_tuner.
Proof.
  destruct (update_proposals_tunes sample_tuner) as (Hpos & _ & _ & _ & Htune);
    [cbn; lra |].
  split; [exact Hpos |].
  destruct Htune as [_ Hrate]; [cbn; lia | cbn; lia | reflexivity |].
  destruct Hrate as (_ & _ & _ & Hsmaller & _); [cbn; lia |].
  apply Hsmaller. cbn [acceptances n_props_total sample_tuner target_acceptance_rate].
  unfold Rmax. destruct (Rle_dec 0.1 0.44); lra.
Defined.

End Proposals.

(** ** Concentration of the cluster prior *)

Module Concentration.
Import Py.
Local Open Scope py_scope.

(** The concentration parameter with its gamma posterior and prior. *)
Record Concentration := {
  value : R;
  shape : R;
  scale : R;
  prior_shape : R;
  prior_scale : R;
  n_iter : Z;
  sample_iter : Z;
  delay : Z
}.

Definition with_posterior (self : Concentration) (shape' scale' : R) : Concentration :=
  {| value := value self; shape := shape'; scale := scale';
     prior_shape := prior_shape self; prior_scale := prior_scale self;
     n_iter := n_iter self; sample_iter := sample_iter self; delay := delay self |}.

Definition with_scale (self : Concentration) (scale' : R) : Concentration :=
  with_posterior self (shape self) scale'.

Definition with_shape (self : Concentration) (shape' : R) : Concentration :=
  with_posterior self shape' (scale self).

Definition with_value (self : Concentration) (v : R) : Concentration :=
  {| value := v; shape := shape self; scale := scale self;
     prior_shape := prior_shape self; prior_scale := prior_scale self;
     n_iter := n_iter self; sample_iter := sample_iter self; delay := delay self |}.

Section Update.

(** The random draws of iteration [i]: [npr.beta(a, b)],
    [np.random.choice([0,1], p=[p0, p1])] for probabilities that NumPy
    accepts, and [self.sample()] from the stored shape and scale. *)
Variable beta : nat -> R -> R -> result R.
Variable choice : nat -> R -> R -> Z.
Variable gamma_sample : nat -> R -> R -> result R.

(** [np.random.choice([0,1], p=pi_eta/np.sum(pi_eta))]: NumPy refuses
    probabilities that are not numbers or are negative. *)
Definition random_choice (i : nat) (pi0 pi1 : R) : result Z :=
  let total := pi0 + pi1 in
  if Req_dec_T total 0 then Raise ValueError
  else if Rlt_dec (pi0 / total) 0 then Raise ValueError
  else if Rlt_dec (pi1 / total) 0 then Raise ValueError
  else Ok (choice i (pi0 / total) (pi1 / total)).

(** One pass of the loop body; [k] is [len(clustering)] and [n] is
    [G.data.n_asvs].  The divisor [1/prior_scale - log(eta)] is a NumPy
    float, so dividing by it does not raise. *)
Definition iteration (k n : Z) (i : nat) (self : Concentration)
  : Concentration * result unit :=
  match beta i (value self + 1) (IZR n) with
  | Raise e => (self, Raise e)
  | Ok eta =>
      match div 1 (prior_scale self) with
      | Raise e => (self, Raise e)
      | Ok rate =>
          let pi0 := (prior_shape self + IZR k - 1) / (rate - ln eta) in
          let self := with_scale self (1 / (rate - ln eta)) in
          let self := with_shape self (prior_shape self + IZR k) in
          match random_choice i pi0 (IZR n) with
          | Raise e => (self, Raise e)
          | Ok c =>
              let self := if (c =? 0)%Z then self
                          else with_shape self (shape self - 1) in
              match gamma_sample i (shape self) (scale self) with
              | Raise e => (self, Raise e)
              | Ok v => (with_value self v, Ok tt)
              end
          end
      end
  end.

(** [for i in range(self.n_iter)], from iteration [i] on with [todo]
    iterations left. *)
Fixpoint loop (k n : Z) (i todo : nat) (self : Concentration)
  : Concentration * result unit :=
  match todo with
  | O => (self, Ok tt)
  | S todo' =>
      match iteration k n i self with
      | (self', Ok _) => loop k n (S i) todo' self'
      | (self', Raise e) => (self', Raise e)
      end
  end.

(** [Concentration.update] *)
Definition update (k n : Z) (self : Concentration) : Concentration * result unit :=
  if (sample_iter self <? delay self)%Z then (self, Ok tt)
  else loop k n 0 (Z.to_nat (n_iter self)) self.

(** What holds after every completed pass. *)
Record sampled (k : Z) (self0 self : Concentration) : Prop := {
  sampled_shape :
    shape self = prior_shape self0 + IZR k \/
    shape self = prior_shape self0 + IZR k - 1;
  sampled_shape_pos : 0 < shape self;
  sampled_scale : 0 < scale self < prior_scale self0;
  sampled_value : 0 < value self;
  sampled_prior_shape : prior_shape self = prior_shape self0;
  sampled_prior_scale : prior_scale self = prior_scale self0
}.

Section WellBehaved.

Variables k n : Z.
Hypothesis k_pos : (1 <= k)%Z.
Hypothesis n_pos : (1 <= n)%Z.

(** The samplers answer for valid parameters: a beta draw lies strictly
    between 0 and 1 and a gamma draw is positive. *)
Hypothesis beta_ok :
  forall i a b, 0 < a -> 0 < b -> exists eta, beta i a b = Ok eta /\ 0 < eta < 1.
Hypothesis gamma_ok :
  forall i sh sc, 0 < sh -> 0 < sc -> exists v, gamma_sample i sh sc = Ok v /\ 0 < v.

Lemma iteration_ok (i : nat) (self0 self : Concentration) :
  0 < prior_shape self0 -> 0 < prior_scale self0 ->
  prior_shape self = prior_shape self0 -> prior_scale self = prior_scale self0 ->
  -1 < value self ->
  exists self', iteration k n i self = (self', Ok tt) /\ sampled k self0 self'.
Proof.
  intros Ha Hb Ea Eb Hv. unfold iteration.
  assert (Hk : 1 <= IZR k) by (apply IZR_le in k_pos; exact k_pos).
  assert (Hn : 1 <= IZR n) by (apply IZR_le in n_pos; exact n_pos).
  destruct (beta_ok i (value self + 1) (IZR n)) as (eta & -> & Heta); [lra | lra |].
  cbn [with_shape with_scale with_posterior shape scale prior_shape prior_scale].
  rewrite Eb, Ea. rewrite div_ok by lra.
  assert (Hln : ln eta < 0) by (rewrite <- ln_1; apply ln_increasing; lra).
  assert (Hrate : 0 < 1 / prior_scale self0) by (apply Rdiv_lt_0_compat; lra).
  set (d := 1 / prior_scale self0 - ln eta).
  assert (Hd : 0 < d) by (unfold d; lra).
  assert (Hpi0 : 0 < (prior_shape self0 + IZR k - 1) / d)
    by (apply Rdiv_lt_0_compat; lra).
  set (pi0 := (prior_shape self0 + IZR k - 1) / d) in *.
  assert (Hscale : 0 < 1 / d < prior_scale self0).
  { split; [apply Rdiv_lt_0_compat; lra |].
    apply (Rmult_lt_reg_r d); [exact Hd |].
    unfold Rdiv. rewrite Rmult_assoc, Rinv_l by lra.
    unfold d. unfold Rdiv in Hrate.
    assert (E : prior_scale self0 * (1 * / prior_scale self0) = 1) by (field; lra).
    nra. }
  unfold random_choice.
  destruct (Req_dec_T (pi0 + IZR n) 0) as [E |]; [lra |].
  destruct (Rlt_dec (pi0 / (pi0 + IZR n)) 0) as [Hneg |].
  { assert (0 < pi0 / (pi0 + IZR n)) by (apply Rdiv_lt_0_compat; lra). lra. }
  destruct (Rlt_dec (IZR n / (pi0 + IZR n)) 0) as [Hneg |].
  { assert (0 < IZR n / (pi0 + IZR n)) by (apply Rdiv_lt_0_compat; lra). lra. }
  set (c := choice i _ _).
  destruct (c =? 0)%Z.
  - cbn [with_shape with_scale with_posterior shape scale].
    destruct (gamma_ok i (prior_shape self0 + IZR k) (1 / d)) as (v & -> & Hvpos);
      [lra | lra |].
    eexists. split; [reflexivity |].
    constructor; cbn; auto; lra.
  - cbn [with_shape with_scale with_posterior shape scale].
    destruct (gamma_ok i (prior_shape self0 + IZR k - 1) (1 / d)) as (v & -> & Hvpos);
      [lra | lra |].
    eexists. split; [reflexivity |].
    constructor; cbn; auto; lra.
Qed.

Lemma loop_ok (todo : nat) :
  forall (i : nat) (self0 self : Concentration),
    0 < prior_shape self0 -> 0 < prior_scale self0 ->
    sampled k self0 self ->
    exists self', loop k n i todo self = (self', Ok tt) /\ sampled k self0 self'.
Proof.
  induction todo as [| todo IH]; intros i self0 self Ha Hb Hs; cbn [loop].
  - eauto.
  - destruct Hs as [_ _ _ Hv Ea Eb].
    destruct (iteration_ok i self0 self Ha Hb Ea Eb) as (self1 & -> & Hs1); [lra |].
    apply IH; assumption.
Qed.

(** X29. When every beta draw lies strictly between 0 and 1 and every gamma
    draw is positive, an update past its delay with at least one iteration,
    at least one cluster and one taxon, a positive prior shape and scale
    and a current value above [-1] runs to its end, and leaves a valid
    gamma posterior: the shape is [prior_shape + k] or
    [prior_shape + k - 1] and positive, the scale is positive and below
    the prior scale, the sampled value is positive, and the prior is
    untouched. *)
Theorem update_leaves_valid_posterior (self : Concentration) :
  (delay self <= sample_iter self)%Z -> (1 <= n_iter self)%Z ->
  0 < prior_shape self -> 0 < prior_scale self -> -1 < value self ->
  exists self' : Concentration,
    update k n self = (self', Ok tt) /\
    (shape self' = prior_shape self + IZR k \/
     shape self' = prior_shape self + IZR k - 1) /\
    0 < shape self' /\
    0 < scale self' < prior_scale self /\
    0 < value self' /\
    prior_shape self' = prior_shape self /\ prior_scale self' = prior_scale self.
Proof.
  intros Hdelay Hiter Ha Hb Hv. unfold update.
  replace (sample_iter self <? delay self)%Z with false
    by (symmetry; apply Z.ltb_ge; exact Hdelay).
  destruct (Z.to_nat (n_iter self)) as [| todo] eqn:E; [lia |].
  cbn [loop].
  destruct (iteration_ok 0 self self Ha Hb eq_refl eq_refl Hv) as (self1 & -> & Hs1).
  destruct (loop_ok todo 1 self self1 Ha Hb Hs1) as (self' & Hrun & Hs).
  exists self'. split; [exact Hrun |].
  destruct Hs as [H1 H2 H3 H4 H5 H6]. repeat split; tauto.
Qed.

End WellBehaved.

End Update.

(** Draws that do not depend on their parameters, and a prior with shape
    and scale 1 for three clusters of ten taxa. *)
Definition fixed_beta (i : nat) (a b : R) : result R := Ok 0.5.
Definition fixed_choice (i : nat) (p0 p1 : R) : Z := 1%Z.
Definition fixed_gamma (i : nat) (sh sc : R) : result R := Ok 1.

Definition sample_concentration : Concentration :=
  {| value := 1; shape := 1; scale := 1; prior_shape := 1; prior_scale := 1;
     n_iter := 20; sample_iter := 3; delay := 0 |}.

Lemma update_leaves_valid_posterior_witness :
  exists self' : Concentration,
    update fixed_beta fixed_choice fixed_gamma 3 10 sample_concentration
      = (self', Ok tt) /\
    0 < scale self' < 1.
Proof.
  destruct (update_leaves_valid_posterior fixed_beta fixed_choice fixed_gamma 3 10)
    with (self := sample_concentration)
    as (self' & Hrun & _ & _ & Hscale & _).
  - lia.
  - lia.
  - intros i a b _ _. exists 0.5. split; [reflexivity | lra].
  - intros i sh sc _ _. exists 1. split; [reflexivity | lra].
  - cbn. lia.
  - cbn. lia.
  - cbn. lra.
  - cbn. lra.
  - cbn. lra.
  - exists self'. split; [exact Hrun | exact Hscale].
Defined.

End Concentration.

(** ** The two collapsed marginals *)

Module MarginalAgreement.
Import Py Mat Safety Marginal.

Section Routines.

Variable pl_math_log_det : dense -> result R.
Variable np_linalg_pinv : dense -> result dense.
Variable scipy_linalg_pinv : dense -> result dense.
Variable scipy_linalg_inv : dense -> result dense.

Definition indicator_marginal :=
  calculate_marginal_loglikelihood pl_math_log_det np_linalg_pinv scipy_linalg_pinv
    scipy_linalg_inv.

Definition assignment_marginal :=
  calculate_marginal_loglikelihood_slow pl_math_log_det np_linalg_pinv
    scipy_linalg_pinv scipy_linalg_inv.

(** The entries that both routines return. *)
Definition shared_keys : list string :=
  ["ret"; "beta_logdet"; "priorvar_logdet"; "bEb"; "bEbprior"]%string.

(** X30. The marginal used for the interaction indicators and the one used
    for the cluster assignments are the same quantity: on the graph in which
    indicator [idx] has been set to [val], the cluster-assignment routine
    raises the same exception and leaves the same files as the indicator
    routine called with [idx] and [val], or both return and agree on
    [ret], [beta_logdet], [priorvar_logdet], [bEb] and [bEbprior]. *)
Theorem marginal_routines_agree (G : Graph) (var : variable) (idx : nat)
    (val : bool) (w : world) :
  (idx < length (indicators G))%nat ->
  let G' := set_indicators G (<[idx := val]> (indicators G)) in
  match indicator_marginal G var idx val w, assignment_marginal G' var w with
  | (w1, Ok (G1, d1)), (w2, Ok d2) =>
      w1 = w2 /\ G1 = G' /\
      Forall (fun key => d1 !! key = d2 !! key) shared_keys
  | (w1, Raise e1), (w2, Raise e2) => w1 = w2 /\ e1 = e2
  | _, _ => False
  end.
Proof.
  intros Hidx G'.
  unfold indicator_marginal, assignment_marginal,
    calculate_marginal_loglikelihood, calculate_marginal_loglikelihood_slow.
  replace (negb (idx <? length (indicators G))%nat) with false
    by (symmetry; apply negb_false_iff, Nat.ltb_lt; exact Hidx).
  fold G'.
  destruct (build_prior_covariance_rhs G' false) as [P HP].
  destruct (build_prior_covariance_rhs G' true) as [V HV].
  destruct (build_prior_mean_rhs G') as [m Hm].
  unfold cbind, lift, ret. rewrite HP, HV, Hm.
  destruct (Nat.eqb (ncols (construct_rhs G' (indicators G') (rhs_keys G'))) 0).
  - split; [reflexivity |]. split; [reflexivity |].
    unfold shared_keys. repeat constructor.
  - destruct (marginalize _ _ _ _ _ _ _ _ _ _ _ w)
      as [w' [[[[[XTP beta_prec] beta_mean] beta_logdet] priorvar_logdet] | e]];
      [| split; reflexivity].
    destruct (quadratic_form m P) as [a | e]; [| split; reflexivity].
    destruct (quadratic_form beta_mean beta_prec) as [b | e]; [| split; reflexivity].
    split; [reflexivity |]. split; [reflexivity |].
    unfold shared_keys. repeat constructor; simplify_map_eq; try reflexivity.
    do 2 f_equal. lra.
Qed.

End Routines.

Lemma marginal_routines_agree_witness :
  let G' := set_indicators RegressCoeff.active_graph
              (<[0%nat := true]> (indicators RegressCoeff.active_graph)) in
  match indicator_marginal (failing 0) (failing 1) (failing 2) (failing 3)
          RegressCoeff.active_graph sample_var 0 true empty_world,
        assignment_marginal (failing 0) (failing 1) (failing 2) (failing 3)
          G' sample_var empty_world with
  | (w1, Ok (G1, d1)), (w2, Ok d2) =>
      w1 = w2 /\ G1 = G' /\
      Forall (fun key => d1 !! key = d2 !! key) shared_keys
  | (w1, Raise e1), (w2, Raise e2) => w1 = w2 /\ e1 = e2
  | _, _ => False
  end.
Proof.
  apply (marginal_routines_agree (failing 0) (failing 1) (failing 2) (failing 3)
           RegressCoeff.active_graph sample_var 0 true empty_world).
  cbn. lia.
Defined.

End MarginalAgreement.
